(** * ise-session-manager: the session collector, the ISE client and the routes

    A shallow embedding of [check_access_sessions.py] (the [Device] class,
    [try_to_connect_ssh] and [main]), of [ise_api.py], of the routes of
    [application.py] that call it and of [local.validate_credentials],
    with the properties the specification states about them and further
    properties read off the code.

    Conventions of the embedding.
    - A Python [str] is a [string]; the character with code [n] stands for
      the code point [n] (0..255).  The device output is ASCII text, and the
      character classes below are Python's on the whole range 0..255.
    - [re.findall] is embedded through a small backtracking matcher for the
      fragment the source's patterns are written in: a sequence of greedy
      repetitions of a character class, with at most one capture group.
    - Calls that leave the process (SSH, HTTP, the clock, the snapshot file)
      are answered by a [World]; every call is appended, with its answer, to
      a trace of events.  Console output ([print]) is not modelled.
    - The ERS service of [ise_api.py] is answered by an [IseWorld]; a decoded
      JSON document is a tree, subscripted and iterated as Python does, and
      [get_group_id], whose loop has no bound, takes the number of turns it
      may make. *)

From Stdlib Require Import String Ascii List Arith Lia Bool.
From stdpp Require Import base option gmap strings list fin_maps.

Import ListNotations.
Open Scope string_scope.
Open Scope list_scope.
Open Scope nat_scope.

#[global] Arguments String.append !s1 s2 : simpl nomatch.

(** ** Strings *)

Module Str.

Fixpoint drop (n : nat) (s : string) : string :=
  match n, s with
  | O, _ => s
  | S _, EmptyString => EmptyString
  | S n', String _ s' => drop n' s'
  end.

Fixpoint take (n : nat) (s : string) : string :=
  match n, s with
  | O, _ => EmptyString
  | S _, EmptyString => EmptyString
  | S n', String a s' => String a (take n' s')
  end.

(** [s[i:i+n]] *)
Definition slice (i n : nat) (s : string) : string := take n (drop i s).

(** [s.startswith(p)] *)
Fixpoint starts_with (p s : string) : bool :=
  match p, s with
  | EmptyString, _ => true
  | String _ _, EmptyString => false
  | String a p', String b s' => Ascii.eqb a b && starts_with p' s'
  end.

(** [needle in s] *)
Fixpoint contains (needle s : string) : bool :=
  starts_with needle s ||
  match s with
  | EmptyString => false
  | String _ s' => contains needle s'
  end.

Fixpoint filter (f : ascii -> bool) (s : string) : string :=
  match s with
  | EmptyString => EmptyString
  | String a s' => if f a then String a (filter f s') else filter f s'
  end.

Fixpoint map (f : ascii -> ascii) (s : string) : string :=
  match s with
  | EmptyString => EmptyString
  | String a s' => String (f a) (map f s')
  end.

Fixpoint all (f : ascii -> bool) (s : string) : bool :=
  match s with
  | EmptyString => true
  | String a s' => f a && all f s'
  end.

(** [sep.join(l)] *)
Fixpoint join (sep : string) (l : list string) : string :=
  match l with
  | [] => EmptyString
  | [x] => x
  | x :: l' => x +:+ sep +:+ join sep l'
  end.

(** The characters of [s] before its first line feed. *)
Fixpoint first_line (s : string) : string :=
  match s with
  | EmptyString => EmptyString
  | String a s' =>
      if Ascii.eqb a "010"%char then EmptyString else String a (first_line s')
  end.

End Str.

(** ** Characters: Python's classes on the code points 0..255 *)

Module Chr.

Definition code (c : ascii) : nat := nat_of_ascii c.

Definition between (lo hi : nat) (c : ascii) : bool :=
  (lo <=? code c) && (code c <=? hi).

(** [\d] *)
Definition is_digit (c : ascii) : bool := between 48 57 c.

(** [[0-9a-fA-F]] *)
Definition is_hex (c : ascii) : bool :=
  between 48 57 c || between 97 102 c || between 65 70 c.

(** [\w]: letters, digits and the underscore; above 127 the code points
    Python's [str.isalnum] accepts. *)
Definition is_word (c : ascii) : bool :=
  between 48 57 c || between 65 90 c || Nat.eqb (code c) 95
  || between 97 122 c
  || Nat.eqb (code c) 170 || between 178 179 c || Nat.eqb (code c) 181
  || between 185 186 c || between 188 190 c || between 192 214 c
  || between 216 246 c || between 248 255 c.

(** [\s] *)
Definition is_space (c : ascii) : bool :=
  between 9 13 c || between 28 32 c
  || Nat.eqb (code c) 133 || Nat.eqb (code c) 160.

(** [.] (without DOTALL) *)
Definition is_not_newline (c : ascii) : bool := negb (Nat.eqb (code c) 10).

(** [str.lower] on one character *)
Definition lower (c : ascii) : ascii :=
  if between 65 90 c || between 192 214 c || between 216 222 c
  then ascii_of_nat (code c + 32)
  else c.

End Chr.

(** [str.lower] *)
Definition str_lower (s : string) : string := Str.map Chr.lower s.

(** ** The regular-expression fragment of the source *)

Module Re.

Inductive cls : Type :=
| Lit (c : ascii)      (* a character standing for itself, or escaped *)
| Digit                (* \d *)
| Word                 (* \w *)
| Space                (* \s *)
| Hex                  (* [0-9a-fA-F] *)
| Dot.                 (* . *)

Definition mem (k : cls) (c : ascii) : bool :=
  match k with
  | Lit a => Ascii.eqb a c
  | Digit => Chr.is_digit c
  | Word => Chr.is_word c
  | Space => Chr.is_space c
  | Hex => Chr.is_hex c
  | Dot => Chr.is_not_newline c
  end.

(** [Rep k lo hi] is the greedy [k{lo,hi}]; [hi = None] is unbounded. *)
Inductive item : Type :=
| Rep (k : cls) (lo : nat) (hi : option nat)
| GOpen
| GClose.

Definition regex : Type := list item.

Definition one (k : cls) : item := Rep k 1 (Some 1).
Definition plus (k : cls) : item := Rep k 1 None.
Definition star (k : cls) : item := Rep k 0 None.

Fixpoint lit (s : string) : regex :=
  match s with
  | EmptyString => []
  | String a s' => one (Lit a) :: lit s'
  end.

(** The result of a match: the number of characters matched and the
    bounds of the group, as offsets from the start of the match. *)
Record mres : Type := MRes { m_len : nat; m_gs : option nat; m_ge : option nat }.

Definition shift (k : nat) (r : option mres) : option mres :=
  match r with
  | Some (MRes n gs ge) => Some (MRes (k + n) (Nat.add k <$> gs) (Nat.add k <$> ge))
  | None => None
  end.

Fixpoint run_length (k : cls) (s : string) : nat :=
  match s with
  | String a s' => if mem k a then S (run_length k s') else 0
  | EmptyString => 0
  end.

Definition cap (hi : option nat) (n : nat) : nat :=
  match hi with
  | Some h => Nat.min h n
  | None => n
  end.

(** Greedy choice with backtracking: the longest count first, then one
    character fewer, down to [lo]. *)
Fixpoint try_down (n lo : nat) (cont : nat -> option mres) : option mres :=
  if n <? lo then None
  else
    match cont n with
    | Some r => Some r
    | None =>
        match n with
        | O => None
        | S n' => try_down n' lo cont
        end
    end.

(** [re.match] of the pattern at the start of [s]. *)
Fixpoint match_here (p : regex) (s : string) : option mres :=
  match p with
  | [] => Some (MRes 0 None None)
  | GOpen :: p' =>
      match match_here p' s with
      | Some (MRes n _ ge) => Some (MRes n (Some 0) ge)
      | None => None
      end
  | GClose :: p' =>
      match match_here p' s with
      | Some (MRes n gs _) => Some (MRes n gs (Some 0))
      | None => None
      end
  | Rep k lo hi :: p' =>
      try_down (cap hi (run_length k s)) lo
        (fun j => shift j (match_here p' (Str.drop j s)))
  end.

(** What [findall] reports for a match: the group if the pattern has
    one, the whole match otherwise. *)
Definition text (s : string) (r : mres) : string :=
  match m_gs r, m_ge r with
  | Some a, Some b => Str.slice a (b - a) s
  | _, _ => Str.take (m_len r) s
  end.

(** The scan of [re.findall]: matches are searched left to right and do
    not overlap; [skip] counts the characters of the last match still to
    be passed.  (An empty match is reported and the scan moves on by one
    character; no pattern of the source can match the empty string.) *)
Fixpoint findall_from (p : regex) (s : string) (skip : nat) : list string :=
  match s with
  | EmptyString =>
      match skip, match_here p s with
      | O, Some r => [text s r]
      | _, _ => []
      end
  | String _ s' =>
      match skip with
      | S k => findall_from p s' k
      | O =>
          match match_here p s with
          | Some r => text s r :: findall_from p s' (pred (m_len r))
          | None => findall_from p s' 0
          end
      end
  end.

Definition findall (p : regex) (s : string) : list string :=
  findall_from p s 0.

End Re.

(** ** The patterns of [check_access_sessions.py] *)

Import Re.

(** [r"Session count = (\d+)\n"] *)
Definition SESSION_COUNT_RE : regex :=
  lit "Session count = " ++ [GOpen; plus Digit; GClose; one (Lit "010")].

(** [r"[0-9a-fA-F]{4}\.[0-9a-fA-F]{4}\.[0-9a-fA-F]{4}"] *)
Definition MAC_RE : regex :=
  [Rep Hex 4 (Some 4); one (Lit "."); Rep Hex 4 (Some 4); one (Lit ".");
   Rep Hex 4 (Some 4)].

(** [r"\d{1,3}\.\d{1,3}\.\d{1,3}\.\d{1,3}"] *)
Definition IP_RE : regex :=
  [Rep Digit 1 (Some 3); one (Lit "."); Rep Digit 1 (Some 3); one (Lit ".");
   Rep Digit 1 (Some 3); one (Lit "."); Rep Digit 1 (Some 3)].

(** [r"(\w{3,5})\s+Authc\s.*"] *)
Definition METHOD_RE : regex :=
  [GOpen; Rep Word 3 (Some 5); GClose; plus Space] ++ lit "Authc"
  ++ [one Space; star Dot].

(** The pattern of [status]: the literal [Status:] and two spaces, then
    a group holding [.*]. *)
Definition STATUS_RE : regex := lit "Status:  " ++ [GOpen; star Dot; GClose].

(** The pattern of [interface_match]: the literal [Interface:] and one
    space, then a group holding [.*]. *)
Definition INTERFACE_RE : regex := lit "Interface: " ++ [GOpen; star Dot; GClose].

(** The pattern of [username_match]: the literal [User-Name:], then [\s+],
    then a group holding [.*]. *)
Definition USERNAME_RE : regex :=
  lit "User-Name:" ++ [plus Space; GOpen; star Dot; GClose].

Definition LF : string := String "010"%char EmptyString.

(** ** The data of [check_access_sessions.py] *)

(** [dict_session_details]: the keys are always set, [vendor] only in the
    branch of the MAB sessions. *)
Record Session : Type := mkSession {
  status : string;
  interface : string;
  mac_address : string;
  ip_address : string;
  user_name : string;
  method : string;
  vendor : option string
}.

(** A [netmiko.ConnectHandler]; as an object it is always true. *)
Inductive Handle : Type := ConnectHandler (ip : string).

(** The attributes of a [Device]. *)
Record Device : Type := mkDevice {
  current_ip_address : string;
  dict_result : gmap string Session;
  connection : option Handle;
  session_count : list string;
  mac_addresses : list string
}.

(** [Device.__init__] *)
Definition Device_init (current_ip_address : string) : Device :=
  {| current_ip_address := current_ip_address;
     dict_result := ∅;
     connection := None;
     session_count := [];
     mac_addresses := [] |}.

(** ** The world outside the process *)

(** What [netmiko.ConnectHandler(...)] followed by [enable()] does: it
    returns, or raises one of the exceptions [try_to_connect_ssh] names. *)
Inductive connect_result : Type :=
| Connected
| ParamikoAuthenticationException
| NetmikoTimeoutException
| NetmikoAuthenticationException
| OtherException.

(** What [connection.send_command] does. *)
Inductive cmd_result : Type :=
| Output (text : string)
| CommandRaised.

(** What [requests.get] does: a response, or an exception of the class
    [requests.exceptions.RequestException]. *)
Inductive http_result : Type :=
| Response (status_code : nat) (text : string)
| RequestException.

Inductive event : Type :=
| EvConnect (ip : string) (r : connect_result)
| EvSend (cmd : string) (r : cmd_result)
| EvGet (url : string) (r : http_result)
| EvSleep (secs : nat)
| EvDisconnect
| EvSnapshot (result : gmap string Session) (written : bool).

(** Every answer may depend on everything that happened before. *)
Record World : Type := mkWorld {
  ssh_connect : list event -> string -> connect_result;
  send_command : list event -> string -> cmd_result;
  requests_get : list event -> string -> http_result;
  write_snapshot : list event -> bool
}.

(** The exceptions that leave the code. *)
Inductive exn : Type :=
| ConnectionError
| AttributeError
| IndexError
| CommandException      (* whatever [send_command] raised *)
| OSError.

Inductive outcome (A : Type) : Type :=
| Ret (a : A)
| Raise (e : exn).
Arguments Ret {A} a.
Arguments Raise {A} e.

(** ** The monad of the methods: the object [self], the trace, exceptions *)

Definition State : Type := Device * list event.

Definition M (A : Type) : Type := State -> outcome A * State.

Definition ret {A} (a : A) : M A := fun st => (Ret a, st).

Definition raise {A} (e : exn) : M A := fun st => (Raise e, st).

Definition bind {A B} (c : M A) (k : A -> M B) : M B :=
  fun st =>
    match c st with
    | (Ret a, st') => k a st'
    | (Raise e, st') => (Raise e, st')
    end.

Notation "x <- c ;; k" := (bind c (fun x => k))
  (at level 90, c at level 89, right associativity).
Notation "c ;;; k" := (bind c (fun _ => k))
  (at level 90, right associativity).

Definition get_self : M Device := fun st => (Ret (fst st), st).

Definition set_self (d : Device) : M unit := fun st => (Ret tt, (d, snd st)).

Definition emit (e : event) : M unit := fun st => (Ret tt, (fst st, snd st ++ [e])).

(** [for each in l: body(each)] *)
Fixpoint for_each (l : list string) (body : string -> M unit) : M unit :=
  match l with
  | [] => ret tt
  | each :: l' => body each ;;; for_each l' body
  end.

Definition head_or (l : list string) (default : string) : string :=
  match l with
  | x :: _ => x
  | [] => default
  end.

(** [f"show access-session mac {each} details"] *)
Definition detail_command (each : string) : string :=
  "show access-session mac " +:+ each +:+ " details".

(** [f"https://api.macvendors.com/{mac_address[0]}"] *)
Definition vendor_url (mac : string) : string :=
  "https://api.macvendors.com/" +:+ mac.

(** ["FAIL" in session_details or "Unauthorized" in session_details] *)
Definition has_marker (session_details : string) : bool :=
  Str.contains "FAIL" session_details || Str.contains "Unauthorized" session_details.

Definition with_vendor (s : Session) (v : string) : Session :=
  {| status := status s; interface := interface s; mac_address := mac_address s;
     ip_address := ip_address s; user_name := user_name s; method := method s;
     vendor := Some v |}.

Definition set_dict_result (d : Device) (m : gmap string Session) : Device :=
  {| current_ip_address := current_ip_address d; dict_result := m;
     connection := connection d; session_count := session_count d;
     mac_addresses := mac_addresses d |}.

Section Program.

Variable w : World.

(** [try_to_connect_ssh] *)
Definition try_to_connect_ssh (current_ip_address : string) : M (option Handle) :=
  fun st =>
    let r := ssh_connect w (snd st) current_ip_address in
    let st' := (fst st, snd st ++ [EvConnect current_ip_address r]) in
    match r with
    | Connected => (Ret (Some (ConnectHandler current_ip_address)), st')
    | ParamikoAuthenticationException => (Ret None, st')
    | NetmikoTimeoutException => (Ret None, st')
    | NetmikoAuthenticationException => (Ret None, st')
    | OtherException => (Ret None, st')
    end.

(** [self.connection.send_command(cmd)] *)
Definition connection_send_command (cmd : string) : M string :=
  fun st =>
    let r := send_command w (snd st) cmd in
    let st' := (fst st, snd st ++ [EvSend cmd r]) in
    match r with
    | Output text => (Ret text, st')
    | CommandRaised => (Raise CommandException, st')
    end.

(** [requests.get(url, timeout=5)] inside its [try]: the exception of the
    class [RequestException] is an answer here, handled by the caller. *)
Definition requests_get_call (url : string) : M http_result :=
  fun st =>
    let r := requests_get w (snd st) url in
    (Ret r, (fst st, snd st ++ [EvGet url r])).

(** [time.sleep(secs)] *)
Definition time_sleep (secs : nat) : M unit := emit (EvSleep secs).

(** [Device.init_connection_ssh] *)
Definition init_connection_ssh : M unit :=
  self <- get_self ;;
  c <- try_to_connect_ssh (current_ip_address self) ;;
  set_self {| current_ip_address := current_ip_address self;
              dict_result := dict_result self;
              connection := c;
              session_count := session_count self;
              mac_addresses := mac_addresses self |} ;;;
  match c with
  | Some _ => ret tt
  | None => raise ConnectionError
  end.

(** [Device.close_connection] *)
Definition close_connection : M unit :=
  self <- get_self ;;
  match connection self with
  | Some _ => emit EvDisconnect
  | None => ret tt
  end.

(** [Device.collect_active_sessions] *)
Definition collect_active_sessions : M unit :=
  self <- get_self ;;
  match connection self with
  | None => raise AttributeError
  | Some _ =>
      connection_send_command "term len 0" ;;;
      active_sessions <- connection_send_command "show access-session" ;;
      self <- get_self ;;
      set_self {| current_ip_address := current_ip_address self;
                  dict_result := dict_result self;
                  connection := connection self;
                  session_count := findall SESSION_COUNT_RE active_sessions;
                  mac_addresses := findall MAC_RE active_sessions |}
  end.

(** The record built from the detail text, lines 204 to 232. *)
Definition session_of_details (each session_details : string) : Session :=
  let mac_address := findall MAC_RE session_details in
  let ip_address := findall IP_RE session_details in
  let method := findall METHOD_RE session_details in
  let status := findall STATUS_RE session_details in
  let interface_match := findall INTERFACE_RE session_details in
  let username_match := findall USERNAME_RE session_details in
  {| status := head_or status "Unknown";
     interface := head_or interface_match "Unknown";
     mac_address := head_or mac_address each;
     ip_address := head_or ip_address "unknown";
     user_name := head_or username_match "Unknown";
     method := head_or method "Unknown";
     vendor := None |}.

(** The branch of the MAB sessions, lines 234 to 246.  The URL is built
    from [mac_address[0]], inside the [try]; an [IndexError] is not a
    [RequestException] and leaves the method. *)
Definition vendor_lookup (session_details : string) (s : Session) : M Session :=
  match findall METHOD_RE session_details with
  | m0 :: _ =>
      if String.eqb (str_lower m0) "mab" then
        match findall MAC_RE session_details with
        | [] => raise IndexError
        | mac0 :: _ =>
            response <- requests_get_call (vendor_url mac0) ;;
            match response with
            | Response status_code text =>
                time_sleep 1 ;;;
                ret (with_vendor s (if status_code =? 200 then text else "Unknown"))
            | RequestException => ret (with_vendor s "Unknown")
            end
        end
      else ret s
  | [] => ret s
  end.

(** What the loop does with a detail text that has a marker, lines 204
    to 246: the record, then the lookup. *)
Definition classify (each session_details : string) : M Session :=
  vendor_lookup session_details (session_of_details each session_details).

(** The body of the loop of [collect_active_sessions_details]. *)
Definition details_body (each : string) : M unit :=
  session_details <- connection_send_command (detail_command each) ;;
  if has_marker session_details then
    dict_session_details <- classify each session_details ;;
    self <- get_self ;;
    set_self (set_dict_result self (<[each := dict_session_details]> (dict_result self)))
  else ret tt.

(** [Device.collect_active_sessions_details] *)
Definition collect_active_sessions_details : M unit :=
  self <- get_self ;;
  match connection self with
  | None => raise AttributeError
  | Some _ => for_each (mac_addresses self) details_body
  end.

(** [Device.get_result] *)
Definition get_result : M (gmap string Session) :=
  self <- get_self ;; ret (dict_result self).

(** The [with open(...)] block of [main]. *)
Definition save_results (dict_result : gmap string Session) : M unit :=
  fun st =>
    let ok := write_snapshot w (snd st) in
    let st' := (fst st, snd st ++ [EvSnapshot dict_result ok]) in
    if ok then (Ret tt, st') else (Raise OSError, st').

(** The statements of [main] after [device = Device(current_ip_address)]. *)
Definition main_body : M (gmap string Session) :=
  init_connection_ssh ;;;
  collect_active_sessions ;;;
  collect_active_sessions_details ;;;
  dict_result <- get_result ;;
  close_connection ;;;
  save_results dict_result ;;;
  ret dict_result.

(** [main] *)
Definition main (current_ip_address : string)
  : outcome (gmap string Session) * State :=
  main_body (Device_init current_ip_address, []).

End Program.

(** ** [ise_api.mac_normalization] *)

(** [range(0, stop, step)] for a positive [step] *)
Definition range_step (stop step : nat) : list nat :=
  List.map (fun k => k * step) (seq 0 ((stop + step - 1) / step)).

(** [re.sub] of the pattern [\W+] by the empty string: every run of
    characters outside [\w] is replaced by nothing, which keeps exactly
    the characters of [\w]. *)
Definition strip_non_word (s : string) : string := Str.filter Chr.is_word s.

Definition mac_normalization (current_mac_address symbol : string) : string :=
  let current_mac_address := strip_non_word current_mac_address in
  if String.length current_mac_address =? 12 then
    Str.join symbol
      (List.map (fun i => Str.slice i 4 current_mac_address)
         (range_step (String.length current_mac_address) 4))
  else "Error".

(** ** Words for the statements about the matcher *)

(** A pattern rejects a class when it cannot start with one of its
    characters. *)
Definition rejects (p : regex) (k : cls) : Prop :=
  forall a s, mem k a = true -> match_here p (String a s) = None.

Definition disjoint (k k' : cls) : Prop :=
  forall a, mem k a = true -> mem k' a = false.

(** [n] is at most the upper bound [hi] of a repetition. *)
Definition within (hi : option nat) (n : nat) : bool :=
  match hi with
  | Some h => n <=? h
  | None => true
  end.

(** The first suffix of [s], from the left, on which [f] answers. *)
Fixpoint find_first (f : string -> option string) (s : string) : option string :=
  match f s with
  | Some x => Some x
  | None =>
      match s with
      | EmptyString => None
      | String _ s' => find_first f s'
      end
  end.

(** What the pattern [p] matches at the start of [s]: the text of its
    group, or of the whole match when it has no group. *)
Definition match_text (p : regex) (s : string) : option string :=
  text s <$> match_here p s.

(** ** What each pattern of the source matches, said without the matcher *)

(** The first [n] characters of [s] exist and are all in [f]. *)
Fixpoint all_prefix (f : ascii -> bool) (n : nat) (s : string) : bool :=
  match n with
  | O => true
  | S n' =>
      match s with
      | String a s' => f a && all_prefix f n' s'
      | EmptyString => false
      end
  end.

(** [s] starts with four hexadecimal digits, a dot, four more, a dot and
    four more: the grammar [hex4.hex4.hex4]. *)
Definition mac_prefix (s : string) : bool :=
  all_prefix Chr.is_hex 4 s && Str.starts_with "." (Str.drop 4 s)
  && all_prefix Chr.is_hex 4 (Str.drop 5 s) && Str.starts_with "." (Str.drop 9 s)
  && all_prefix Chr.is_hex 4 (Str.drop 10 s).

Definition mac_here (s : string) : option string :=
  if mac_prefix s then Some (Str.take 14 s) else None.

(** The text after the literal [l], up to the end of the line. *)
Definition after (l : string) (s : string) : option string :=
  if Str.starts_with l s
  then Some (Str.first_line (Str.drop (String.length l) s))
  else None.

(** The text after [User-Name:] and the white space that follows it (at
    least one character, line feeds included), up to the end of the line. *)
Definition user_here (s : string) : option string :=
  let t := Str.drop 10 s in
  let w := run_length Space t in
  if Str.starts_with "User-Name:" s && (1 <=? w)
  then Some (Str.first_line (Str.drop w t))
  else None.

(** Three to five word characters, not followed by a sixth, then white
    space, the literal [Authc] and one more white space character. *)
Definition method_here (s : string) : option string :=
  let r := run_length Word s in
  let t := Str.drop r s in
  let w := run_length Space t in
  let u := Str.drop w t in
  if (3 <=? r) && (r <=? 5) && (1 <=? w) && Str.starts_with "Authc" u
     && (1 <=? run_length Space (Str.drop 5 u))
  then Some (Str.take r s)
  else None.

(** One to three digits followed by a dot: [Some] of what follows the dot. *)
Definition octet_dot (s : string) : option (nat * string) :=
  let a := run_length Digit s in
  if (1 <=? a) && (a <=? 3) && Str.starts_with "." (Str.drop a s)
  then Some (a + 1, Str.drop (a + 1) s)
  else None.

(** Three octets with their dots, then one to three digits, as many as
    there are. *)
Definition ip_here (s : string) : option string :=
  match octet_dot s with
  | Some (a, s1) =>
      match octet_dot s1 with
      | Some (b, s2) =>
          match octet_dot s2 with
          | Some (c, s3) =>
              let d := run_length Digit s3 in
              if 1 <=? d then Some (Str.take (a + b + c + Nat.min 3 d) s) else None
          | None => None
          end
      | None => None
      end
  | None => None
  end.

(** [Session count = ], digits, and a line feed right after them. *)
Definition count_here (s : string) : option string :=
  let t := Str.drop 16 s in
  let d := run_length Digit t in
  if Str.starts_with "Session count = " s && (1 <=? d)
     && Str.starts_with LF (Str.drop d t)
  then Some (Str.take d t)
  else None.

(** ** Words for the statements about the inventory *)

(** Every substring of [s] that the grammar [hex4.hex4.hex4] accepts, in
    the order of its first character. *)
Fixpoint mac_substrings (s : string) : list string :=
  (if mac_prefix s then [Str.take 14 s] else [])
  ++ match s with
     | EmptyString => []
     | String _ s' => mac_substrings s'
     end.

Definition mac_at (s : string) (i : nat) : bool := mac_prefix (Str.drop i s).

(** No two substrings that the grammar accepts share a character. *)
Definition macs_apart (s : string) : Prop :=
  forall i j, mac_at s i = true -> mac_at s j = true -> i < j -> i + 14 <= j.

Definition count_label_at (s : string) (i : nat) : bool :=
  Str.starts_with "Session count = " (Str.drop i s).

(** The count line of a well-formed inventory text: absent, or present
    once, its digits ended by a line feed. *)
Definition count_line (s : string) (count : option string) : Prop :=
  match count with
  | None => forall i, count_label_at s i = false
  | Some k =>
      exists pre post,
        s = pre +:+ "Session count = " +:+ k +:+ LF +:+ post
        /\ k <> "" /\ Str.all Chr.is_digit k = true
        /\ forall i, count_label_at s i = true -> i = String.length pre
  end.

(** ** Words for the statements about a run *)

(** The events of the vendor lookup. *)
Definition is_lookup_event (e : event) : Prop :=
  match e with
  | EvGet _ _ | EvSleep _ => True
  | _ => False
  end.

(** The attributes of a device other than [dict_result]. *)
Definition same_frame (d d' : Device) : Prop :=
  current_ip_address d' = current_ip_address d
  /\ connection d' = connection d
  /\ session_count d' = session_count d
  /\ mac_addresses d' = mac_addresses d.

(** [t] contains the literal [needle]. *)
Definition has_substring (needle t : string) : Prop :=
  exists pre post, t = pre +:+ needle +:+ post.

(** No lookup is issued while the pause owed to the previous one is
    pending: [pending] is set by a lookup and cleared by a sleep of at
    least one second. *)
Fixpoint throttled_from (pending : bool) (tr : list event) : bool :=
  match tr with
  | [] => true
  | EvGet _ _ :: tr' => negb pending && throttled_from true tr'
  | EvSleep secs :: tr' => throttled_from (if 1 <=? secs then false else pending) tr'
  | _ :: tr' => throttled_from pending tr'
  end.

Definition throttled (tr : list event) : bool := throttled_from false tr.

(** A stretch of a run that does not close the connection. *)
Definition quiet (st st' : State) : Prop :=
  exists new, st'.2 = st.2 ++ new /\ ~ In EvDisconnect new.

(** [mab] in every spelling: the case of a letter does not count. *)
Definition mab_spellings : list string :=
  ["mab"; "Mab"; "mAb"; "maB"; "MAb"; "MaB"; "mAB"; "MAB"].

(** The substrings of [s] that the grammar [hex4.hex4.hex4] accepts, taken
    from left to right, each one after the end of the one taken before
    it: a substring that starts inside one already taken is passed over.
    [skip] counts the characters still to pass. *)
Fixpoint mac_scan_from (s : string) (skip : nat) : list string :=
  match s with
  | EmptyString => []
  | String _ s' =>
      match skip with
      | S k => mac_scan_from s' k
      | O =>
          if mac_prefix s then Str.take 14 s :: mac_scan_from s' 13
          else mac_scan_from s' 0
      end
  end.

Definition mac_scan (s : string) : list string := mac_scan_from s 0.

(** ** Sample texts, worlds and devices *)

Definition inventory_two : string :=
  "Interface  MAC Address     Method" +:+ LF
  +:+ "Gi1/0/1    0050.5699.1234  mab" +:+ LF
  +:+ "Gi1/0/2    aaaa.bbbb.cccc  dot1x" +:+ LF
  +:+ LF +:+ "Session count = 2" +:+ LF.

Definition details_unauthorized : string :=
  "            Interface:  GigabitEthernet1/0/1" +:+ LF
  +:+ "          MAC Address:  0050.5699.1234" +:+ LF
  +:+ "         IPv4 Address:  192.168.1.100" +:+ LF
  +:+ "            User-Name:  00-50-56-99-12-34" +:+ LF
  +:+ "               Status:  Unauthorized" +:+ LF
  +:+ "Method status list:" +:+ LF
  +:+ "       mab           Authc Failed" +:+ LF.

Definition details_authorized : string :=
  "            Interface:  GigabitEthernet1/0/2" +:+ LF
  +:+ "          MAC Address:  aaaa.bbbb.cccc" +:+ LF
  +:+ "               Status:  Authorized" +:+ LF
  +:+ "Method status list:" +:+ LF
  +:+ "       dot1x         Authc Success" +:+ LF.

(** A second MAB session that is not authorized. *)
Definition details_unauthorized_second : string :=
  "            Interface:  GigabitEthernet1/0/2" +:+ LF
  +:+ "          MAC Address:  aaaa.bbbb.cccc" +:+ LF
  +:+ "            User-Name:  aa-aa-bb-bb-cc-cc" +:+ LF
  +:+ "               Status:  Unauthorized" +:+ LF
  +:+ "Method status list:" +:+ LF
  +:+ "       mab           Authc Failed" +:+ LF.

(** A text with a marker and the MAB method, and no MAC address in it. *)
Definition details_without_mac : string :=
  "FAIL" +:+ LF +:+ "mab Authc x".

Definition answer (cmd : string) : cmd_result :=
  if String.eqb cmd "show access-session" then Output inventory_two
  else if String.eqb cmd (detail_command "0050.5699.1234")
       then Output details_unauthorized
       else if String.eqb cmd (detail_command "aaaa.bbbb.cccc")
            then Output details_authorized
            else Output "".

(** Everything works. *)
Definition w_ok : World :=
  {| ssh_connect := fun _ _ => Connected;
     send_command := fun _ cmd => answer cmd;
     requests_get := fun _ _ => Response 200 "VMware, Inc.";
     write_snapshot := fun _ => true |}.

(** The switch does not answer the connection. *)
Definition w_unreachable : World :=
  {| ssh_connect := fun _ _ => NetmikoTimeoutException;
     send_command := fun _ cmd => answer cmd;
     requests_get := fun _ _ => Response 200 "VMware, Inc.";
     write_snapshot := fun _ => true |}.

(** The detail query fails. *)
Definition w_query_fails : World :=
  {| ssh_connect := fun _ _ => Connected;
     send_command := fun _ cmd =>
       if String.eqb cmd "show access-session" then Output inventory_two
       else if String.eqb cmd "term len 0" then Output ""
            else CommandRaised;
     requests_get := fun _ _ => Response 200 "VMware, Inc.";
     write_snapshot := fun _ => true |}.

(** Both sessions fail with MAB and the vendor service cannot be reached. *)
Definition w_lookup_down : World :=
  {| ssh_connect := fun _ _ => Connected;
     send_command := fun _ cmd =>
       if String.eqb cmd "show access-session" then Output inventory_two
       else if String.eqb cmd (detail_command "0050.5699.1234")
            then Output details_unauthorized
            else if String.eqb cmd (detail_command "aaaa.bbbb.cccc")
                 then Output details_unauthorized_second
                 else Output "";
     requests_get := fun _ _ => RequestException;
     write_snapshot := fun _ => true |}.

(** A device after the inventory [inventory_two]. *)
Definition device_two : Device :=
  {| current_ip_address := "10.0.0.1";
     dict_result := ∅;
     connection := Some (ConnectHandler "10.0.0.1");
     session_count := ["2"];
     mac_addresses := ["0050.5699.1234"; "aaaa.bbbb.cccc"] |}.

(** An unauthorized session whose method is printed in capitals. *)
Definition details_unauthorized_upper : string :=
  "            Interface:  GigabitEthernet1/0/1" +:+ LF
  +:+ "          MAC Address:  0050.5699.1234" +:+ LF
  +:+ "               Status:  Unauthorized" +:+ LF
  +:+ "Method status list:" +:+ LF
  +:+ "       MAB           Authc Failed" +:+ LF.

(** The detail text of the first MAC prints the method in capitals. *)
Definition w_upper : World :=
  {| ssh_connect := fun _ _ => Connected;
     send_command := fun _ cmd =>
       if String.eqb cmd (detail_command "0050.5699.1234")
       then Output details_unauthorized_upper
       else answer cmd;
     requests_get := fun _ _ => Response 200 "VMware, Inc.";
     write_snapshot := fun _ => true |}.

(** An inventory whose last line is not ended by a line feed. *)
Definition inventory_unterminated : string :=
  "Gi1/0/1    0050.5699.1234  mab" +:+ LF +:+ "Session count = 1".

Definition w_unterminated : World :=
  {| ssh_connect := fun _ _ => Connected;
     send_command := fun _ cmd =>
       if String.eqb cmd "show access-session" then Output inventory_unterminated
       else Output "";
     requests_get := fun _ _ => RequestException;
     write_snapshot := fun _ => true |}.

(** The detail text of the first MAC has a marker and the MAB method, and
    no MAC address in it. *)
Definition w_without_mac : World :=
  {| ssh_connect := fun _ _ => Connected;
     send_command := fun _ cmd =>
       if String.eqb cmd (detail_command "0050.5699.1234")
       then Output details_without_mac
       else answer cmd;
     requests_get := fun _ _ => Response 200 "VMware, Inc.";
     write_snapshot := fun _ => true |}.

(** Both sessions fail with MAB and the vendor service answers. *)
Definition w_two_lookups : World :=
  {| ssh_connect := fun _ _ => Connected;
     send_command := fun _ cmd =>
       if String.eqb cmd "show access-session" then Output inventory_two
       else if String.eqb cmd (detail_command "0050.5699.1234")
            then Output details_unauthorized
            else if String.eqb cmd (detail_command "aaaa.bbbb.cccc")
                 then Output details_unauthorized_second
                 else Output "";
     requests_get := fun _ _ => Response 200 "VMware, Inc.";
     write_snapshot := fun _ => true |}.

(** A device after [init_connection_ssh]. *)
Definition device_connected : Device :=
  {| current_ip_address := "10.0.0.1";
     dict_result := ∅;
     connection := Some (ConnectHandler "10.0.0.1");
     session_count := [];
     mac_addresses := [] |}.

(** A record of an earlier call. *)
Definition session_earlier : Session :=
  {| status := "Unauthorized";
     interface := "GigabitEthernet1/0/7";
     mac_address := "dead.beef.0001";
     ip_address := "unknown";
     user_name := "Unknown";
     method := "dot1x";
     vendor := None |}.

(** The device of [device_two] with the entries of an earlier call: one
    under a MAC that has left the inventory, one under a MAC of the
    inventory whose session is authorized by now. *)
Definition device_with_entries : Device :=
  {| current_ip_address := "10.0.0.1";
     dict_result :=
       <["dead.beef.0001" := session_earlier]>
         (<["aaaa.bbbb.cccc" := session_earlier]> ∅);
     connection := Some (ConnectHandler "10.0.0.1");
     session_count := ["2"];
     mac_addresses := ["0050.5699.1234"; "aaaa.bbbb.cccc"] |}.

(** ** Words for the statements about [mac_normalization] and a run *)

(** A delimiter: a character outside [\w]. *)
Definition is_delimiter (c : ascii) : bool := negb (Chr.is_word c).

(** A string of the grammar [hex4.hex4.hex4] and nothing more. *)
Definition mac_shaped (m : string) : bool :=
  mac_prefix m && (String.length m =? 14).

(** The commands sent to the device, in the order of the trace. *)
Fixpoint commands (tr : list event) : list string :=
  match tr with
  | [] => []
  | EvSend cmd _ :: tr' => cmd :: commands tr'
  | _ :: tr' => commands tr'
  end.

(** The events one detail text can add after its query: nothing, a lookup
    that was answered and its pause, or a lookup that failed. *)
Inductive lookup_events : list event -> Prop :=
  | lookup_none : lookup_events []
  | lookup_answered mac status_code text :
      mac_shaped mac = true ->
      lookup_events [EvGet (vendor_url mac) (Response status_code text); EvSleep 1]
  | lookup_failed mac :
      mac_shaped mac = true ->
      lookup_events [EvGet (vendor_url mac) RequestException].

(** The events of the loop over the MACs [l]: for each of them the query,
    then the events of the lookup. *)
Inductive detail_events : list string -> list event -> Prop :=
  | detail_nil : detail_events [] []
  | detail_cons each r extra l new :
      lookup_events extra ->
      detail_events l new ->
      detail_events (each :: l) (EvSend (detail_command each) r :: extra ++ new).

(** The record of a detail text without its vendor. *)
Definition without_vendor (s : Session) : Session :=
  {| status := status s; interface := interface s; mac_address := mac_address s;
     ip_address := ip_address s; user_name := user_name s; method := method s;
     vendor := None |}.

(** ** [ise_api.py]: the values of [response.json()] *)

(** A decoded JSON document.  A number is an integer here: a float is, as
    an integer is, not subscriptable, not iterable, hashable, and false
    exactly when it is zero, which is all the functions below ask of a
    number.  A [JDict] stands for the Python dict in which the first
    binding of a key is the one that counts. *)
#[warnings="-register-all"]
Inductive json : Type :=
  | JNull
  | JBool (b : bool)
  | JInt (n : Z)
  | JStr (s : string)
  | JList (l : list json)
  | JDict (l : list (string * json)).

(** The exceptions of [ise_api.py] and [application.py]. *)
Inductive py_exn : Type :=
  | HTTPError (status_code : nat)
  | RequestError
  | JSONDecodeError
  | KeyError (key : string)
  | TypeError
  | ValueError (message : string).

Inductive result (A : Type) : Type :=
  | Done (a : A)
  | Failed (e : py_exn).
Arguments Done {A} a.
Arguments Failed {A} e.

Definition and_then {A B} (r : result A) (k : A -> result B) : result B :=
  match r with
  | Done a => k a
  | Failed e => Failed e
  end.

Fixpoint assoc (key : string) (l : list (string * json)) : option json :=
  match l with
  | [] => None
  | (k, v) :: l' => if String.eqb k key then Some v else assoc key l'
  end.

(** [v[key]] for a string [key]: a [KeyError] on a dict without the key,
    a [TypeError] on a list, a string, a number, a boolean and [None]. *)
Definition getitem (v : json) (key : string) : result json :=
  match v with
  | JDict l =>
      match assoc key l with
      | Some x => Done x
      | None => Failed (KeyError key)
      end
  | _ => Failed TypeError
  end.

(** The truth value of [v] in an [if]. *)
Definition truthy (v : json) : bool :=
  match v with
  | JNull => false
  | JBool b => b
  | JInt n => negb (Z.eqb n 0)
  | JStr s => negb (String.eqb s "")
  | JList l => match l with [] => false | _ => true end
  | JDict l => match l with [] => false | _ => true end
  end.

(** The values [for each in v] goes through: the elements of a list, the
    keys of a dict, the characters of a string; a [TypeError] otherwise. *)
Definition iterate (v : json) : result (list json) :=
  match v with
  | JList l => Done l
  | JDict l => Done (List.map (fun kv => JStr (fst kv)) l)
  | JStr s => Done (List.map (fun c => JStr (String c "")) (list_ascii_of_string s))
  | _ => Failed TypeError
  end.

(** A value can be the key of a dict unless it is a list or a dict. *)
Definition hashable (v : json) : bool :=
  match v with
  | JList _ | JDict _ => false
  | _ => true
  end.

(** A boolean is the integer 0 or 1. *)
Definition number_of (v : json) : option Z :=
  match v with
  | JBool b => Some (if b then 1%Z else 0%Z)
  | JInt n => Some n
  | _ => None
  end.

(** [k == v] for a hashable [k]. *)
Definition key_eq (k v : json) : bool :=
  match k, v with
  | JNull, JNull => true
  | JStr s, JStr t => String.eqb s t
  | _, _ =>
      match number_of k, number_of v with
      | Some a, Some b => Z.eqb a b
      | _, _ => false
      end
  end.

(** A Python dict with hashable keys, in the order of insertion. *)
Definition pydict : Type := list (json * json).

(** [d[k] = v]: the value of an equal key is replaced where it stands, a
    new key goes to the end. *)
Fixpoint dict_set (k v : json) (d : pydict) : pydict :=
  match d with
  | [] => [(k, v)]
  | (k', v') :: d' =>
      if key_eq k' k then (k', v) :: d' else (k', v') :: dict_set k v d'
  end.

Fixpoint dict_get (k : json) (d : pydict) : option json :=
  match d with
  | [] => None
  | (k', v') :: d' => if key_eq k' k then Some v' else dict_get k d'
  end.

(** ** [ise_api.py]: the ERS service *)

Inductive ise_answer : Type :=
  | IseResponse (status_code : nat) (body : option json)
  | IseRequestFailed.

(** A call of [requests.request]: the method, the URL, the JSON payload
    of a [PUT], and the answer: a response, with its status and its body
    decoded ([None] when the body is no JSON document), or an exception
    of the class [RequestException] raised by the call, such as a refused
    connection or a timeout ([requests] raises an [HTTPError] from
    [raise_for_status] only). *)
Inductive ise_event : Type :=
  | IseCall (method : string) (url : json) (payload : option json)
      (answer : ise_answer).

Record IseWorld : Type := mkIseWorld {
  BASE_URL : string;
  ise_request : list ise_event -> string -> json -> option json -> ise_answer
}.

Definition IM (A : Type) : Type := list ise_event -> result A * list ise_event.

Definition iret {A} (a : A) : IM A := fun tr => (Done a, tr).

Definition ifail {A} (e : py_exn) : IM A := fun tr => (Failed e, tr).

Definition ibind {A B} (c : IM A) (k : A -> IM B) : IM B :=
  fun tr =>
    match c tr with
    | (Done a, tr') => k a tr'
    | (Failed e, tr') => (Failed e, tr')
    end.

Definition lift {A} (r : result A) : IM A := fun tr => (r, tr).

Notation "x <~ c ;; k" := (ibind c (fun x => k))
  (at level 90, c at level 89, right associativity).

(** What the template is given. *)
Inductive template_value : Type :=
  | TJson (v : json)
  | TGroups (ise_groups : pydict).

(** [render_template(template, **context)] *)
Record page : Type := Rendered {
  template : string;
  context : list (string * template_value)
}.

(** [s] when it is there, [None] otherwise. *)
Definition json_of_optional (s : option string) : json :=
  match s with
  | Some x => JStr x
  | None => JNull
  end.

Section Ise.

Variable w : IseWorld.

(** [requests.request(method, url, ...)] *)
Definition requests_request (method : string) (url : json)
    (payload : option json) : IM (nat * option json) :=
  fun tr =>
    let a := ise_request w tr method url payload in
    let tr' := tr ++ [IseCall method url payload a] in
    match a with
    | IseResponse status_code body => (Done (status_code, body), tr')
    | IseRequestFailed => (Failed RequestError, tr')
    end.

(** [response.raise_for_status()] *)
Definition raise_for_status (response : nat * option json) : IM unit :=
  if (400 <=? fst response) && (fst response <? 600)
  then ifail (HTTPError (fst response))
  else iret tt.

(** [response.json()] *)
Definition response_json (response : nat * option json) : IM json :=
  match snd response with
  | Some data => iret data
  | None => ifail JSONDecodeError
  end.

(** [ise_groups[each["id"]] = each["name"]]: the right-hand side is
    evaluated first. *)
Definition add_group (ise_groups : pydict) (each : json) : result pydict :=
  and_then (getitem each "name") (fun name =>
  and_then (getitem each "id") (fun id =>
  if hashable id then Done (dict_set id name ise_groups)
  else Failed TypeError)).

Fixpoint add_groups (ise_groups : pydict) (l : list json) : result pydict :=
  match l with
  | [] => Done ise_groups
  | each :: l' => and_then (add_group ise_groups each) (fun g => add_groups g l')
  end.

(** The [for] loop of [get_group_id] on the decoded page [data]. *)
Definition page_groups (ise_groups : pydict) (data : json) : result pydict :=
  and_then (getitem data "SearchResult") (fun search_result =>
  and_then (getitem search_result "resources") (fun resources =>
  and_then (iterate resources) (fun l => add_groups ise_groups l))).

(** [data["SearchResult"]["nextPage"]["href"]] *)
Definition page_next (data : json) : result json :=
  and_then (getitem data "SearchResult") (fun search_result =>
  and_then (getitem search_result "nextPage") (fun next_page =>
  getitem next_page "href")).

(** One turn of the [while True] of [get_group_id]: the groups so far
    and, when the loop goes on, the next URL. *)
Definition get_group_id_turn (url : json) (ise_groups : pydict)
  : IM (pydict * option json) :=
  response <~ requests_request "GET" url None ;;
  _ <~ raise_for_status response ;;
  data <~ response_json response ;;
  ise_groups <~ lift (page_groups ise_groups data) ;;
  href <~ lift (page_next data) ;;
  if truthy href then iret (ise_groups, Some href)
  else iret (ise_groups, None).

(** The loop of [get_group_id], for [fuel] turns at most; [None] when
    the loop has not ended by then. *)
Fixpoint get_group_id_loop (fuel : nat) (url : json) (ise_groups : pydict)
    (tr : list ise_event) : option (result pydict * list ise_event) :=
  match fuel with
  | O => None
  | S fuel' =>
      match get_group_id_turn url ise_groups tr with
      | (Done (ise_groups', Some url'), tr') =>
          get_group_id_loop fuel' url' ise_groups' tr'
      | (Done (ise_groups', None), tr') => Some (Done ise_groups', tr')
      | (Failed e, tr') => Some (Failed e, tr')
      end
  end.

(** [get_group_id] *)
Definition get_group_id (fuel : nat) (tr : list ise_event)
  : option (result pydict * list ise_event) :=
  get_group_id_loop fuel (JStr (BASE_URL w +:+ "endpointgroup")) [] tr.

(** [get_endpoint_group_id] *)
Definition get_endpoint_group_id (mac : string) : IM json :=
  let url := BASE_URL w +:+ "endpoint/name/" +:+ mac in
  fun tr =>
    match
      (response <~ requests_request "GET" (JStr url) None ;;
       _ <~ raise_for_status response ;;
       data <~ response_json response ;;
       ers_end_point <~ lift (getitem data "ERSEndPoint") ;;
       lift (getitem ers_end_point "groupId")) tr
    with
    | (Failed (HTTPError status_code), tr') =>
        if status_code =? 404 then (Done JNull, tr')
        else (Failed (HTTPError status_code), tr')
    | r => r
    end.

(** [BASE_URL + "endpoint/" + endpoint_id]: a [TypeError] unless
    [endpoint_id] is a string. *)
Definition endpoint_url (endpoint_id : json) : result string :=
  match endpoint_id with
  | JStr id => Done (BASE_URL w +:+ "endpoint/" +:+ id)
  | _ => Failed TypeError
  end.

(** The payload of the [PUT] of [update_endpoint_group]. *)
Definition update_payload (ise_group_id : json) : json :=
  JDict [("ERSEndPoint",
          JDict [("groupId", ise_group_id);
                 ("staticGroupAssignment", JStr "true")])].

(** [update_endpoint_group] *)
Definition update_endpoint_group (mac : string) (ise_group_id : json)
  : IM (nat * option json) :=
  let url := BASE_URL w +:+ "endpoint/name/" +:+ mac in
  response <~ requests_request "GET" (JStr url) None ;;
  _ <~ raise_for_status response ;;
  data <~ response_json response ;;
  ers_end_point <~ lift (getitem data "ERSEndPoint") ;;
  endpoint_id <~ lift (getitem ers_end_point "id") ;;
  url <~ lift (endpoint_url endpoint_id) ;;
  requests_request "PUT" (JStr url) (Some (update_payload ise_group_id)).

(** ** [application.py] *)

(** The loop that looks for the name of the group [endpoint_group_id]. *)
Fixpoint group_name_of (items : pydict) (endpoint_group_id : json)
    (endpoint_group_name : json) : json :=
  match items with
  | [] => endpoint_group_name
  | (group_id, group_name) :: items' =>
      if key_eq group_id endpoint_group_id then group_name
      else group_name_of items' endpoint_group_id endpoint_group_name
  end.

(** [search_ise], the route [/mac/<mac>] *)
Definition search_ise (fuel : nat) (mac : string) (tr : list ise_event)
  : option (result page * list ise_event) :=
  match get_group_id fuel tr with
  | None => None
  | Some (Failed e, tr1) => Some (Failed e, tr1)
  | Some (Done ise_groups, tr1) =>
      Some
        ((endpoint_group_id <~ get_endpoint_group_id mac ;;
          iret
            (Rendered "update-mac.html"
               [("mac", TJson (JStr mac));
                ("endpoint_group_id",
                 TJson (group_name_of ise_groups endpoint_group_id
                          (JStr "Unknown")));
                ("ise_groups", TGroups ise_groups)])) tr1)
  end.

(** [update_ise], the route [/update/<mac>]; [ise_group_id] is the value
    of the form, [None] when the form has no such field. *)
Definition update_ise (mac : string) (ise_group_id : option string) : IM page :=
  result <~ update_endpoint_group mac (json_of_optional ise_group_id) ;;
  iret
    (Rendered "update-result.html"
       [("result", TJson (JBool (fst result =? 200)))]).

(** [search_endpoint], the route [/endpoint]; [mac] is the value of the
    form.  [re.sub] raises a [TypeError] on [None]. *)
Definition search_endpoint (fuel : nat) (mac : option string)
    (tr : list ise_event) : option (result page * list ise_event) :=
  match mac with
  | None => Some (Failed TypeError, tr)
  | Some m =>
      let normalized_mac := mac_normalization m "." in
      if String.eqb normalized_mac "Error" then
        Some
          (Done
             (Rendered "update-mac.html"
                [("mac_check", TJson (JBool false)); ("mac", TJson (JStr m))]),
           tr)
      else
        match get_group_id fuel tr with
        | None => None
        | Some (Failed e, tr1) => Some (Failed e, tr1)
        | Some (Done ise_groups, tr1) =>
            Some
              ((endpoint_group_id <~ get_endpoint_group_id m ;;
                iret
                  (Rendered "update-mac.html"
                     [("mac_check", TJson (JBool true));
                      ("mac", TJson (JStr m));
                      ("endpoint_group_id",
                       TJson (group_name_of ise_groups endpoint_group_id
                                (JStr "Unknown")));
                      ("ise_groups", TGroups ise_groups)])) tr1)
        end
  end.

End Ise.

(** ** Sample answers of the ERS service *)

Definition sample_base_url : string := "https://ise.example:9060/ers/config/".

(** The only page of the endpoint groups. *)
Definition groups_page : json :=
  JDict [("SearchResult",
          JDict [("total", JInt 2);
                 ("resources",
                  JList [JDict [("id", JStr "aa0e8b20"); ("name", JStr "Blacklist")];
                         JDict [("id", JStr "aa13bb40");
                                ("name", JStr "GuestEndpoints")]]);
                 ("nextPage", JDict [("href", JStr "")])])].

(** A page that names a next page. *)
Definition groups_page_more : json :=
  JDict [("SearchResult",
          JDict [("total", JInt 2);
                 ("resources",
                  JList [JDict [("id", JStr "aa0e8b20"); ("name", JStr "Blacklist")]]);
                 ("nextPage",
                  JDict [("href", JStr "https://ise.example:9060/ers/config/endpointgroup?page=2")])])].

Definition endpoint_document : json :=
  JDict [("ERSEndPoint",
          JDict [("id", JStr "e5c1a2"); ("groupId", JStr "aa13bb40")])].

(** The service answers every call. *)
Definition w_ise : IseWorld :=
  {| BASE_URL := sample_base_url;
     ise_request := fun _ method url _ =>
       if String.eqb method "PUT" then IseResponse 200 None
       else
         match url with
         | JStr u =>
             if String.eqb u (sample_base_url +:+ "endpointgroup")
             then IseResponse 200 (Some groups_page)
             else IseResponse 200 (Some endpoint_document)
         | _ => IseRequestFailed
         end |}.

(** The service knows no endpoint. *)
Definition w_ise_absent : IseWorld :=
  {| BASE_URL := sample_base_url;
     ise_request := fun _ method url _ =>
       match url with
       | JStr u =>
           if String.eqb u (sample_base_url +:+ "endpointgroup")
           then IseResponse 200 (Some groups_page)
           else IseResponse 404 None
       | _ => IseRequestFailed
       end |}.

(** Every page names a next page. *)
Definition w_ise_endless : IseWorld :=
  {| BASE_URL := sample_base_url;
     ise_request := fun _ _ _ _ => IseResponse 200 (Some groups_page_more) |}.

(** ** [local.py] *)

(** [os.getenv(name, default)] in the environment [env], the one
    [load_dotenv()] has left. *)
Definition getenv (env : gmap string string) (name default : string) : string :=
  match env !! name with
  | Some value => value
  | None => default
  end.

(** The two dicts of [local.py]. *)
Definition switch_credentials (env : gmap string string) : list (string * string) :=
  [("username", getenv env "SWITCH_USERNAME" "admin");
   ("password", getenv env "SWITCH_PASSWORD" "");
   ("secret", getenv env "SWITCH_SECRET" "")].

Definition ise_credentials (env : gmap string string) : list (string * string) :=
  [("username", getenv env "ISE_USERNAME" "admin");
   ("password", getenv env "ISE_PASSWORD" "");
   ("base_url", getenv env "ISE_BASE_URL" "https://localhost:9060/ers/config/")].

(** [credentials.get(key)] *)
Fixpoint credentials_get (credentials : list (string * string)) (key : string)
  : option string :=
  match credentials with
  | [] => None
  | (k, v) :: credentials' =>
      if String.eqb k key then Some v else credentials_get credentials' key
  end.

(** [not credentials.get(key)]: the key is absent or its value is the
    empty string. *)
Definition missing (credentials : list (string * string)) (key : string) : bool :=
  match credentials_get credentials key with
  | Some v => String.eqb v ""
  | None => true
  end.

(** A loop of [validate_credentials]: the first missing key of [required]
    raises. *)
Fixpoint check_required (message : string) (credentials : list (string * string))
    (required : list string) : result unit :=
  match required with
  | [] => Done tt
  | key :: required' =>
      if missing credentials key then Failed (ValueError (message +:+ key))
      else check_required message credentials required'
  end.

(** [validate_credentials] *)
Definition validate_credentials (env : gmap string string) : result unit :=
  let required_switch := ["username"; "password"; "secret"] in
  let required_ise := ["username"; "password"; "base_url"] in
  and_then
    (check_required "Missing required switch credential: "
       (switch_credentials env) required_switch)
    (fun _ =>
       check_required "Missing required ISE credential: "
         (ise_credentials env) required_ise).

(** The variable [name] is set, and not to the empty string. *)
Definition set_in (env : gmap string string) (name : string) : Prop :=
  exists value, env !! name = Some value /\ value <> "".

(** ** Words for the statements about the groups *)


(** The value of the first item of [ise_groups] whose key is equal
    ([==]) to [key], [default] when no key is: what the loop of
    [search_ise] over the items computes, for any [key]. *)
Definition value_under (key : json) (ise_groups : pydict) (default : json)
  : json :=
  match dict_get key ise_groups with
  | Some v => v
  | None => default
  end.

(** * Properties *)

(** ** The matcher on sample texts *)

Example re_method_long_token :
  findall METHOD_RE "webauth Authc x" = ["bauth"].
Proof. vm_compute. reflexivity. Qed.

Example re_username_next_line :
  findall USERNAME_RE ("User-Name: " +:+ LF +:+ "next line" +:+ LF) = ["next line"].
Proof. vm_compute. reflexivity. Qed.

Example re_ip_backtracking :
  findall IP_RE "1234.5.6.7890 1.2.3.4.5.6.7.8" = ["234.5.6.789"; "1.2.3.4"; "5.6.7.8"].
Proof. vm_compute. reflexivity. Qed.

Example re_mac_overlap :
  findall MAC_RE "aaaa.bbbb.cccc.dddd.eeee xaaaaa.bbbb.ccccc"
  = ["aaaa.bbbb.cccc"; "aaaa.bbbb.cccc"].
Proof. vm_compute. reflexivity. Qed.

Example re_count_needs_newline :
  findall SESSION_COUNT_RE "Session count = 5" = []
  /\ findall SESSION_COUNT_RE
       ("Session count = 5" +:+ LF +:+ "Session count = 12" +:+ LF) = ["5"; "12"].
Proof. vm_compute. split; reflexivity. Qed.

(** ** Facts about strings *)

Module StrFacts.

Lemma drop_empty n : Str.drop n "" = "".
Proof. destruct n; reflexivity. Qed.

Lemma drop_add a b s : Str.drop (a + b) s = Str.drop b (Str.drop a s).
Proof.
  revert s; induction a as [|a IH]; intros s; simpl; [reflexivity|].
  destruct s as [|c s]; [now rewrite drop_empty|apply IH].
Qed.

Lemma drop_app p s : Str.drop (String.length p) (p +:+ s) = s.
Proof. induction p as [|c p IH]; simpl; [reflexivity|exact IH]. Qed.

Lemma take_app p s : Str.take (String.length p) (p +:+ s) = p.
Proof. induction p as [|c p IH]; simpl; [reflexivity|now rewrite IH]. Qed.

Lemma app_cons c p s : String c p +:+ s = String c (p +:+ s).
Proof. reflexivity. Qed.

Lemma take_drop n s : Str.take n s +:+ Str.drop n s = s.
Proof.
  revert s; induction n as [|n IH]; intros s; simpl; [reflexivity|].
  destruct s as [|c s]; simpl; [reflexivity|now rewrite IH].
Qed.

Lemma length_app p s : String.length (p +:+ s) = String.length p + String.length s.
Proof. induction p as [|c p IH]; simpl; [reflexivity|now rewrite IH]. Qed.

Lemma app_assoc p q r : (p +:+ q) +:+ r = p +:+ (q +:+ r).
Proof. induction p as [|c p IH]; simpl; [reflexivity|now rewrite IH]. Qed.

Lemma starts_with_app p s : Str.starts_with p (p +:+ s) = true.
Proof.
  induction p as [|c p IH]; simpl; [reflexivity|].
  now rewrite Ascii.eqb_refl, IH.
Qed.

Lemma starts_with_spec p s :
  Str.starts_with p s = true <-> exists r, s = p +:+ r.
Proof.
  split.
  - revert s; induction p as [|c p IH]; intros s H; simpl in *.
    + now exists s.
    + destruct s as [|b s]; [discriminate|].
      apply andb_true_iff in H as [Hc Hp].
      apply Ascii.eqb_eq in Hc; subst b.
      destruct (IH _ Hp) as [r ->]. now exists r.
  - intros [r ->]. apply starts_with_app.
Qed.

Lemma starts_with_drop p s :
  Str.starts_with p s = true -> s = p +:+ Str.drop (String.length p) s.
Proof.
  intros H. apply starts_with_spec in H as [r ->]. now rewrite drop_app.
Qed.

Lemma starts_with_char c s :
  Str.starts_with (String c "") s =
    match s with
    | String b _ => Ascii.eqb c b
    | EmptyString => false
    end.
Proof. destruct s as [|b s]; [reflexivity|]. simpl. apply andb_true_r. Qed.

Lemma contains_starts needle s :
  Str.starts_with needle s = true -> Str.contains needle s = true.
Proof. intros H. destruct s; simpl in *; now rewrite H. Qed.

(** [needle in s] holds exactly when [s] is cut as [pre needle post]. *)
Lemma contains_spec needle s :
  Str.contains needle s = true <-> exists pre post, s = pre +:+ needle +:+ post.
Proof.
  split.
  - induction s as [|c s IH]; simpl; intros H.
    + rewrite orb_false_r in H. apply starts_with_spec in H as [r Hr].
      now exists "", r.
    + apply orb_true_iff in H as [H|H].
      * apply starts_with_spec in H as [r Hr]. now exists "", r.
      * destruct (IH H) as (pre & post & ->). now exists (String c pre), post.
  - intros (pre & post & ->).
    induction pre as [|c pre IH]; simpl.
    + apply contains_starts, starts_with_app.
    + rewrite IH. apply orb_true_r.
Qed.

End StrFacts.

(** ** Facts about the matcher *)

Module ReFacts.
Import StrFacts.

Lemma shift_0 r : shift 0 r = r.
Proof. destruct r as [[n [gs|] [ge|]]|]; reflexivity. Qed.

Lemma shift_shift a b r : shift a (shift b r) = shift (a + b) r.
Proof.
  destruct r as [[n gs ge]|]; simpl; [|reflexivity].
  f_equal. f_equal; [lia| |]; [destruct gs|destruct ge]; simpl; f_equal; lia.
Qed.

Lemma shift_none k r : shift k r = None <-> r = None.
Proof. destruct r as [[n gs ge]|]; simpl; split; congruence. Qed.

(** *** The greedy choice *)

Lemma try_down_low n lo cont : n < lo -> try_down n lo cont = None.
Proof.
  intros H. destruct n; simpl; destruct lo; try lia; try reflexivity.
  destruct (Nat.ltb_spec (S n) (S lo)); [reflexivity|lia].
Qed.

Lemma try_down_top n lo cont r :
  lo <= n -> cont n = Some r -> try_down n lo cont = Some r.
Proof.
  intros Hlo Hc. destruct n; simpl.
  - destruct (Nat.ltb_spec 0 lo); [lia|]. now rewrite Hc.
  - destruct (Nat.ltb_spec (S n) lo); [lia|]. now rewrite Hc.
Qed.

Lemma try_down_none n lo cont :
  (forall j, lo <= j <= n -> cont j = None) -> try_down n lo cont = None.
Proof.
  induction n as [|n IH]; intros H; simpl.
  - destruct (Nat.ltb_spec 0 lo); [reflexivity|]. now rewrite H by lia.
  - destruct (Nat.ltb_spec (S n) lo); [reflexivity|].
    rewrite H by lia. apply IH. intros j Hj. apply H. lia.
Qed.

(** When every shorter count fails, only the longest one matters. *)
Lemma try_down_commit n lo cont :
  (forall j, j < n -> cont j = None) ->
  try_down n lo cont = if lo <=? n then cont n else None.
Proof.
  intros H. destruct (Nat.leb_spec lo n) as [Hle|Hlt].
  - destruct (cont n) as [r|] eqn:E.
    + now apply try_down_top.
    + apply try_down_none. intros j Hj.
      destruct (Nat.eq_dec j n) as [->|]; [exact E|apply H; lia].
  - now apply try_down_low.
Qed.

(** *** Runs of a class *)

Lemma drop_in_run k j s :
  j < run_length k s ->
  exists a s', Str.drop j s = String a s' /\ mem k a = true.
Proof.
  revert s; induction j as [|j IH]; intros s H.
  - destruct s as [|a s]; simpl in H; [lia|].
    destruct (mem k a) eqn:E; [|lia]. now exists a, s.
  - destruct s as [|a s]; simpl in H; [lia|].
    destruct (mem k a) eqn:E; [|lia]. simpl. apply IH. lia.
Qed.

Lemma run_length_drop k s :
  run_length k (Str.drop (run_length k s) s) = 0.
Proof.
  induction s as [|a s IH]; simpl; [reflexivity|].
  destruct (mem k a) eqn:E; simpl; [exact IH|now rewrite E].
Qed.

Lemma run_length_0 k s :
  run_length k s = 0 <->
  s = "" \/ exists a s', s = String a s' /\ mem k a = false.
Proof.
  destruct s as [|a s]; simpl.
  - split; auto.
  - destruct (mem k a) eqn:E; split; try lia; try discriminate.
    + intros [?|(a' & s' & [= <- <-] & ?)]; congruence.
    + intros _. right. now exists a, s.
Qed.

Lemma rejects_rep k k' lo hi p :
  disjoint k k' -> 0 < lo -> rejects (Rep k' lo hi :: p) k.
Proof.
  intros D Hlo a s Ha. simpl. rewrite (D _ Ha).
  apply try_down_low. destruct hi; simpl; lia.
Qed.

Lemma rejects_gopen p k : rejects p k -> rejects (GOpen :: p) k.
Proof. intros H a s Ha. simpl. now rewrite H. Qed.

Lemma rejects_gclose p k : rejects p k -> rejects (GClose :: p) k.
Proof. intros H a s Ha. simpl. now rewrite H. Qed.

(** A repetition followed by a pattern that rejects its class takes the
    whole run or fails. *)
Lemma match_rep_commit k lo hi p s :
  rejects p k ->
  match_here (Rep k lo hi :: p) s =
    let r := run_length k s in
    if (lo <=? r) && within hi r
    then shift r (match_here p (Str.drop r s))
    else None.
Proof.
  intros R. cbn zeta. set (r := run_length k s).
  change (match_here (Rep k lo hi :: p) s)
    with (try_down (cap hi r) lo (fun j => shift j (match_here p (Str.drop j s)))).
  assert (Hshort : forall j, j < r ->
            shift j (match_here p (Str.drop j s)) = None).
  { intros j Hj. destruct (drop_in_run k j s Hj) as (a & s' & -> & Ha).
    now rewrite (R _ _ Ha). }
  destruct hi as [h|]; simpl.
  - destruct (Nat.leb_spec r h) as [Hrh|Hrh].
    + rewrite Nat.min_r by lia. rewrite andb_true_r.
      apply try_down_commit. exact Hshort.
    + rewrite andb_false_r. apply try_down_none.
      intros j Hj. apply Hshort. lia.
  - rewrite andb_true_r. apply try_down_commit. exact Hshort.
Qed.

(** A repetition followed by a pattern that matches after the longest
    count takes the longest count. *)
Lemma match_rep_greedy k lo hi p s r :
  lo <= cap hi (run_length k s) ->
  match_here p (Str.drop (cap hi (run_length k s)) s) = Some r ->
  match_here (Rep k lo hi :: p) s = shift (cap hi (run_length k s)) (Some r).
Proof.
  intros Hlo Hr. simpl match_here. destruct r as [n gs ge]. simpl shift.
  apply try_down_top; [exact Hlo|]. now rewrite Hr.
Qed.

Lemma match_rep_short k lo hi p s :
  cap hi (run_length k s) < lo -> match_here (Rep k lo hi :: p) s = None.
Proof. intros H. simpl. now apply try_down_low. Qed.

(** *** Literals *)

Lemma match_one_lit a p s :
  match_here (one (Lit a) :: p) s =
    match s with
    | String b s' => if Ascii.eqb a b then shift 1 (match_here p s') else None
    | EmptyString => None
    end.
Proof.
  unfold one. destruct s as [|b s]; [reflexivity|].
  simpl match_here. simpl mem. destruct (Ascii.eqb a b) eqn:E.
  - simpl. destruct (shift 1 (match_here p s)); reflexivity.
  - reflexivity.
Qed.

Lemma match_lit l p s :
  match_here (lit l ++ p) s =
    if Str.starts_with l s
    then shift (String.length l) (match_here p (Str.drop (String.length l) s))
    else None.
Proof.
  revert s; induction l as [|a l IH]; intros s.
  - simpl. now rewrite shift_0.
  - change (lit (String a l) ++ p) with (one (Lit a) :: (lit l ++ p)).
    rewrite match_one_lit. destruct s as [|b s]; [reflexivity|].
    simpl. destruct (Ascii.eqb a b); [|reflexivity].
    rewrite IH. simpl. destruct (Str.starts_with l s); [|reflexivity].
    now rewrite shift_shift.
Qed.

(** *** The scan *)

Lemma find_first_ext f g s :
  (forall t, f t = g t) -> find_first f s = find_first g s.
Proof.
  intros H. induction s as [|a s IH]; simpl; rewrite H; [reflexivity|].
  now rewrite IH.
Qed.

(** [findall(p, s)[0]] is the match at the leftmost position that has one. *)
Lemma findall_head p s :
  head (findall p s) = find_first (match_text p) s.
Proof.
  unfold findall, match_text. induction s as [|a s IH].
  - simpl. destruct (match_here p ""); reflexivity.
  - simpl findall_from. simpl find_first.
    destruct (match_here p (String a s)) as [r|]; [reflexivity|exact IH].
Qed.

Lemma head_or_head l d : head_or l d = default d (head l).
Proof. destruct l; reflexivity. Qed.

Lemma findall_from_none p s skip :
  (forall j, skip <= j <= String.length s -> match_here p (Str.drop j s) = None) ->
  findall_from p s skip = [].
Proof.
  revert skip; induction s as [|a s IH]; intros skip H.
  - simpl. destruct skip; [|reflexivity].
    pose proof (H 0 ltac:(simpl; lia)) as H0. simpl in H0. now rewrite H0.
  - simpl. destruct skip as [|k].
    + pose proof (H 0 ltac:(simpl; lia)) as H0. simpl in H0. rewrite H0.
      apply IH. intros j Hj. apply (H (S j)). simpl; lia.
    + apply IH. intros j Hj. apply (H (S j)). simpl; lia.
Qed.

(** A pattern that matches at one position only is found once. *)
Lemma findall_unique p s i r :
  i < String.length s ->
  match_here p (Str.drop i s) = Some r ->
  (forall j, j <> i -> j <= String.length s -> match_here p (Str.drop j s) = None) ->
  findall p s = [text (Str.drop i s) r].
Proof.
  unfold findall. revert s; induction i as [|i IH]; intros s Hi Hm Hn.
  - destruct s as [|a s]; [simpl in Hi; lia|].
    simpl in Hm. simpl findall_from. rewrite Hm. f_equal.
    apply findall_from_none. intros j Hj. apply (Hn (S j)); simpl; lia.
  - destruct s as [|a s]; [simpl in Hi; lia|].
    simpl findall_from.
    pose proof (Hn 0 ltac:(lia) ltac:(simpl; lia)) as H0. simpl in H0. rewrite H0.
    simpl in Hm. simpl Str.drop. apply IH; [simpl in Hi; lia|exact Hm|].
    intros j Hj Hl. apply (Hn (S j)); simpl; lia.
Qed.

End ReFacts.

(** ** Each pattern of the source against its description *)

Module PatternFacts.
Import StrFacts ReFacts.

Lemma code_inj a b : Chr.code a = Chr.code b -> a = b.
Proof.
  unfold Chr.code. intros H.
  rewrite <- (ascii_nat_embedding a), <- (ascii_nat_embedding b). now rewrite H.
Qed.

Lemma eqb_code a b : Ascii.eqb a b = Nat.eqb (Chr.code a) (Chr.code b).
Proof.
  destruct (Ascii.eqb_spec a b) as [->|N].
  - now rewrite Nat.eqb_refl.
  - symmetry. apply Nat.eqb_neq. intros H. apply N. now apply code_inj.
Qed.

(** A literal outside the class [k]. *)
Lemma disjoint_lit k c : mem k c = false -> disjoint k (Lit c).
Proof.
  intros H a Ha. simpl. destruct (Ascii.eqb_spec c a) as [->|]; congruence.
Qed.

Lemma disjoint_word_space : disjoint Word Space.
Proof.
  intros a. simpl. unfold Chr.is_word, Chr.is_space, Chr.between.
  generalize (Chr.code a). intros n H.
  repeat match goal with
         | H : (_ || _)%bool = true |- _ => apply orb_true_iff in H as [H|H]
         | H : (_ && _)%bool = true |- _ => apply andb_true_iff in H as [? ?]
         | H : (_ <=? _) = true |- _ => apply Nat.leb_le in H
         | H : (_ =? _) = true |- _ => apply Nat.eqb_eq in H
         end;
    repeat (apply orb_false_iff; split);
    try (apply andb_false_iff;
         destruct (Nat.leb_spec 9 n); [right|left; reflexivity]);
    try (apply andb_false_iff;
         destruct (Nat.leb_spec 28 n); [right|left; reflexivity]);
    try (apply Nat.leb_gt; lia); try (apply Nat.eqb_neq; lia).
Qed.

Lemma first_line_run s : Str.take (run_length Dot s) s = Str.first_line s.
Proof.
  induction s as [|a s IH]; [reflexivity|].
  simpl. unfold Chr.is_not_newline. rewrite eqb_code.
  change (Chr.code "010"%char) with 10.
  destruct (Nat.eqb_spec (Chr.code a) 10) as [E|E]; simpl; [reflexivity|].
  now rewrite IH.
Qed.

(** [.*] at the end of a pattern, inside the group or not. *)
Lemma match_dot_star s :
  match_here [star Dot] s = Some (MRes (run_length Dot s) None None).
Proof.
  unfold star. erewrite match_rep_greedy; simpl; try reflexivity; try lia.
  cbn. now rewrite Nat.add_0_r.
Qed.

Lemma match_group_dot_star s :
  match_here [GOpen; star Dot; GClose] s
  = Some (MRes (run_length Dot s) (Some 0) (Some (run_length Dot s))).
Proof.
  change (match_here [GOpen; star Dot; GClose] s)
    with (match match_here [star Dot; GClose] s with
          | Some (MRes n _ ge) => Some (MRes n (Some 0) ge)
          | None => None
          end).
  unfold star. erewrite match_rep_greedy; simpl; try reflexivity; try lia.
  cbn. now rewrite Nat.add_0_r.
Qed.

Lemma match_after l s :
  match_text (lit l ++ [GOpen; star Dot; GClose]) s = after l s.
Proof.
  unfold match_text, after. rewrite match_lit.
  destruct (Str.starts_with l s) eqn:E; [|reflexivity].
  rewrite match_group_dot_star. cbn. unfold text. cbn.
  rewrite !Nat.add_0_r. f_equal. unfold Str.slice.
  replace (String.length l + run_length Dot (Str.drop (String.length l) s)
           - String.length l)
    with (run_length Dot (Str.drop (String.length l) s)) by lia.
  apply first_line_run.
Qed.

Lemma status_match s : match_text STATUS_RE s = after "Status:  " s.
Proof. apply (match_after "Status:  "). Qed.

Lemma interface_match s : match_text INTERFACE_RE s = after "Interface: " s.
Proof. apply (match_after "Interface: "). Qed.

Local Opaque Str.drop.

Lemma shift_some k n gs ge :
  shift k (Some (MRes n gs ge))
  = Some (MRes (k + n) (Nat.add k <$> gs) (Nat.add k <$> ge)).
Proof. reflexivity. Qed.

Lemma match_gopen p s :
  match_here (GOpen :: p) s =
    match match_here p s with
    | Some (MRes n _ ge) => Some (MRes n (Some 0) ge)
    | None => None
    end.
Proof. reflexivity. Qed.

Lemma match_gclose p s :
  match_here (GClose :: p) s =
    match match_here p s with
    | Some (MRes n gs _) => Some (MRes n gs (Some 0))
    | None => None
    end.
Proof. reflexivity. Qed.

Lemma username_match s : match_text USERNAME_RE s = user_here s.
Proof.
  unfold match_text, user_here, USERNAME_RE. rewrite match_lit.
  change (String.length "User-Name:") with 10.
  destruct (Str.starts_with "User-Name:" s); [|reflexivity].
  set (t := Str.drop 10 s). set (w := run_length Space t).
  rewrite andb_true_l. unfold plus. destruct (Nat.leb_spec 1 w) as [Hw|Hw].
  - erewrite match_rep_greedy;
      [ | exact Hw | apply match_group_dot_star ].
    simpl cap. fold w. rewrite !shift_some. cbn. unfold text. cbn.
    f_equal. unfold Str.slice.
    match goal with
    | |- Str.take ?n (Str.drop ?m s) = _ =>
        replace n with (run_length Dot (Str.drop w t)) by lia;
        replace m with (10 + w) by lia
    end.
    rewrite drop_add. fold t. apply first_line_run.
  - rewrite match_rep_short by (simpl; fold w; lia). reflexivity.
Qed.

Lemma rejects_lit_tail k c l p :
  mem k c = false -> rejects (lit (String c l) ++ p) k.
Proof.
  intros H. apply rejects_rep; [|lia].
  intros a Ha. simpl. destruct (Ascii.eqb_spec c a) as [->|]; congruence.
Qed.

Lemma method_match s : match_text METHOD_RE s = method_here s.
Proof.
  unfold match_text, method_here, METHOD_RE.
  change ([GOpen; Rep Word 3 (Some 5); GClose; plus Space] ++ lit "Authc"
          ++ [one Space; star Dot])
    with (GOpen :: Rep Word 3 (Some 5) :: GClose :: plus Space
          :: (lit "Authc" ++ [one Space; star Dot])).
  rewrite match_gopen, match_rep_commit.
  2:{ apply rejects_gclose, rejects_rep; [apply disjoint_word_space|lia]. }
  cbn zeta. set (r := run_length Word s). set (t := Str.drop r s).
  simpl within.
  destruct ((3 <=? r) && (r <=? 5)) eqn:Er; [|reflexivity].
  rewrite match_gclose. unfold plus at 1. rewrite match_rep_commit.
  2:{ apply rejects_lit_tail. reflexivity. }
  cbn zeta. set (w := run_length Space t). set (u := Str.drop w t).
  simpl within. rewrite andb_true_r, andb_true_l.
  destruct (1 <=? w) eqn:Ew; [|reflexivity].
  rewrite match_lit. change (String.length "Authc") with 5.
  rewrite andb_true_l.
  destruct (Str.starts_with "Authc" u); [|reflexivity].
  rewrite andb_true_l.
  set (v := Str.drop 5 u).
  unfold one.
  destruct (Nat.leb_spec 1 (run_length Space v)) as [Hv|Hv].
  - erewrite match_rep_greedy;
      [ | unfold cap; lia | apply match_dot_star ].
    rewrite !shift_some. cbn. unfold text. cbn. f_equal.
    unfold Str.slice. replace (r + 0 - 0) with r by lia. reflexivity.
  - rewrite match_rep_short by (unfold cap; lia). reflexivity.
Qed.

Lemma count_match s : match_text SESSION_COUNT_RE s = count_here s.
Proof.
  unfold match_text, count_here, SESSION_COUNT_RE. rewrite match_lit.
  change (String.length "Session count = ") with 16.
  destruct (Str.starts_with "Session count = " s); [|reflexivity].
  set (t := Str.drop 16 s). rewrite andb_true_l.
  rewrite match_gopen. unfold plus. rewrite match_rep_commit.
  2:{ apply rejects_gclose, rejects_rep; [|lia].
      apply disjoint_lit. reflexivity. }
  cbn zeta. set (d := run_length Digit t). simpl within. rewrite andb_true_r.
  destruct (1 <=? d); [|reflexivity].
  rewrite match_gclose, match_one_lit. unfold LF. rewrite starts_with_char.
  rewrite ?andb_true_l.
  destruct (Str.drop d t) as [|b t']; [reflexivity|].
  destruct (Ascii.eqb "010" b); [|reflexivity].
  cbn. unfold text. cbn. f_equal. unfold Str.slice.
  match goal with
  | |- Str.take ?n _ = _ => replace n with d by lia
  end.
  reflexivity.
Qed.

Lemma all_prefix_run k n s :
  all_prefix (mem k) n s = (n <=? run_length k s).
Proof.
  revert s; induction n as [|n IH]; intros s; [reflexivity|].
  destruct s as [|a s]; [reflexivity|].
  simpl. destruct (mem k a); [|reflexivity]. simpl. apply IH.
Qed.

Lemma drop_S n s b s' :
  Str.drop n s = String b s' -> Str.drop (n + 1) s = s'.
Proof. intros H. now rewrite drop_add, H. Qed.

(** Exactly [n] characters of a class, then a literal outside it. *)
Lemma match_exact_then_lit k n c p s :
  mem k c = false ->
  match_here (Rep k n (Some n) :: one (Lit c) :: p) s =
    if all_prefix (mem k) n s && Str.starts_with (String c "") (Str.drop n s)
    then shift (n + 1) (match_here p (Str.drop (n + 1) s))
    else None.
Proof.
  intros Hc. rewrite match_rep_commit.
  2:{ apply rejects_rep; [now apply disjoint_lit|lia]. }
  cbn zeta. simpl within. rewrite all_prefix_run, starts_with_char.
  set (r := run_length k s).
  destruct (Nat.leb_spec n r) as [Hn|Hn]; [|reflexivity].
  destruct (Nat.leb_spec r n) as [Hr|Hr]; cbn [andb].
  - assert (r = n) as -> by lia. rewrite match_one_lit.
    destruct (Str.drop n s) as [|b s'] eqn:E; [reflexivity|].
    destruct (Ascii.eqb c b); [|reflexivity].
    rewrite shift_shift. now rewrite (drop_S _ _ _ _ E).
  - destruct (drop_in_run k n s Hr) as (a & s' & -> & Ha).
    destruct (Ascii.eqb_spec c a) as [->|]; [congruence|reflexivity].
Qed.

Lemma match_exact_last k n s :
  match_here [Rep k n (Some n)] s =
    if all_prefix (mem k) n s then Some (MRes n None None) else None.
Proof.
  rewrite all_prefix_run.
  destruct (Nat.leb_spec n (run_length k s)) as [H|H].
  - erewrite match_rep_greedy; [ | unfold cap; lia | reflexivity ].
    unfold cap. rewrite Nat.min_l by lia. rewrite shift_some.
    now rewrite Nat.add_0_r.
  - apply match_rep_short. unfold cap. lia.
Qed.

Lemma mac_match_here s :
  match_here MAC_RE s = if mac_prefix s then Some (MRes 14 None None) else None.
Proof.
  unfold mac_prefix, MAC_RE.
  rewrite (match_exact_then_lit Hex 4 "." _ s eq_refl).
  change (mem Hex) with Chr.is_hex.
  destruct (all_prefix Chr.is_hex 4 s && Str.starts_with "." (Str.drop 4 s));
    [|reflexivity].
  rewrite andb_true_l.
  rewrite (match_exact_then_lit Hex 4 "." _ _ eq_refl).
  change (mem Hex) with Chr.is_hex.
  rewrite <- !drop_add. change (4 + 1) with 5. change (5 + 4) with 9.
  change (5 + (4 + 1)) with 10. change (5 + 5) with 10.
  destruct (all_prefix Chr.is_hex 4 (Str.drop 5 s)
            && Str.starts_with "." (Str.drop 9 s)); [|reflexivity].
  rewrite andb_true_l, match_exact_last. change (mem Hex) with Chr.is_hex.
  destruct (all_prefix Chr.is_hex 4 (Str.drop 10 s)); reflexivity.
Qed.

Lemma mac_match s : match_text MAC_RE s = mac_here s.
Proof.
  unfold match_text, mac_here. rewrite mac_match_here.
  destruct (mac_prefix s); reflexivity.
Qed.

Lemma match_octet_dot p s :
  match_here (Rep Digit 1 (Some 3) :: one (Lit ".") :: p) s =
    match octet_dot s with
    | Some (a, s1) => shift a (match_here p s1)
    | None => None
    end.
Proof.
  unfold octet_dot. rewrite match_rep_commit.
  2:{ apply rejects_rep; [now apply disjoint_lit|lia]. }
  cbn zeta. simpl within. set (a := run_length Digit s).
  destruct ((1 <=? a) && (a <=? 3)); [|reflexivity].
  rewrite andb_true_l, starts_with_char, match_one_lit.
  destruct (Str.drop a s) as [|b s'] eqn:E; [reflexivity|].
  destruct (Ascii.eqb "." b); [|reflexivity].
  rewrite shift_shift. now rewrite (drop_S _ _ _ _ E).
Qed.

Lemma match_octet_last s :
  match_here [Rep Digit 1 (Some 3)] s =
    if 1 <=? run_length Digit s
    then Some (MRes (Nat.min 3 (run_length Digit s)) None None)
    else None.
Proof.
  destruct (Nat.leb_spec 1 (run_length Digit s)) as [H|H].
  - erewrite match_rep_greedy; [ | unfold cap; lia | reflexivity ].
    unfold cap. rewrite shift_some. now rewrite Nat.add_0_r.
  - apply match_rep_short. unfold cap. lia.
Qed.

Lemma ip_match s : match_text IP_RE s = ip_here s.
Proof.
  unfold match_text, ip_here, IP_RE.
  rewrite match_octet_dot. destruct (octet_dot s) as [[a s1]|]; [|reflexivity].
  rewrite match_octet_dot. destruct (octet_dot s1) as [[b s2]|]; [|reflexivity].
  rewrite match_octet_dot. destruct (octet_dot s2) as [[c s3]|]; [|reflexivity].
  rewrite match_octet_last.
  destruct (1 <=? run_length Digit s3); [|reflexivity].
  rewrite !shift_some. cbn. unfold text. cbn. f_equal. f_equal. lia.
Qed.

End PatternFacts.

Import StrFacts ReFacts PatternFacts.

(** ** The fields of a record and the inventory *)

(** Claim C3, with the patterns as the source writes them.  Every field of
    the record is extracted on its own and falls back to its sentinel when
    its pattern finds nothing, so no absent field aborts the parse:
    - the status is the text after [Status:] and two spaces, up to the end
      of the line, or [Unknown];
    - the interface is the text after [Interface:] and one space, up to the
      end of the line, or [Unknown];
    - the MAC address is the first match of the MAC grammar, or the MAC
      used in the query;
    - the IP address is the first match of the IPv4 grammar, or [unknown];
    - the user name is the text after [User-Name:] and the white space
      that follows it (at least one character, line feeds included), up to
      the end of the line, or [Unknown];
    - the method is the three to five word characters (the last five of a
      longer token) that stand before white space, [Authc] and one more
      white-space character, or [Unknown].
    No vendor is set at this point. *)
Theorem C3_fields_amended (each session_details : string) :
  session_of_details each session_details =
    {| status := default "Unknown" (find_first (after "Status:  ") session_details);
       interface := default "Unknown" (find_first (after "Interface: ") session_details);
       mac_address := default each (find_first mac_here session_details);
       ip_address := default "unknown" (find_first ip_here session_details);
       user_name := default "Unknown" (find_first user_here session_details);
       method := default "Unknown" (find_first method_here session_details);
       vendor := None |}.
Proof.
  unfold session_of_details. rewrite !head_or_head, !findall_head.
  rewrite (find_first_ext _ _ _ status_match),
    (find_first_ext _ _ _ interface_match),
    (find_first_ext _ _ _ mac_match),
    (find_first_ext _ _ _ ip_match),
    (find_first_ext _ _ _ username_match),
    (find_first_ext _ _ _ method_match).
  reflexivity.
Qed.

(** Claim C3 as it is worded (the status is the text after [Status:] and
    one space) does not hold: on a text that triggers classification and
    has one space after [Status:] the pattern of the source, which asks for
    two, finds nothing and the status is [Unknown]. *)
Lemma C3_status_one_space :
  ~ (forall each session_details,
        has_marker session_details = true ->
        status (session_of_details each session_details)
        = default "Unknown" (find_first (after "Status: ") session_details)).
Proof.
  intros H.
  specialize (H "0050.5699.1234"
                ("FAIL" +:+ LF +:+ "Status: Authz Failed" +:+ LF) eq_refl).
  vm_compute in H. discriminate H.
Qed.

Lemma drop_all n s : String.length s <= n -> Str.drop n s = "".
Proof.
  revert s; induction n as [|n IH]; intros s H.
  - destruct s; [reflexivity|simpl in H; lia].
  - destruct s as [|a s]; [reflexivity|]. simpl in *. apply IH. lia.
Qed.

Lemma mac_at_S a s i : mac_at (String a s) (S i) = mac_at s i.
Proof. reflexivity. Qed.

Lemma macs_apart_tail a s : macs_apart (String a s) -> macs_apart s.
Proof.
  intros H i j Hi Hj Hlt.
  specialize (H (S i) (S j)). rewrite !mac_at_S in H.
  specialize (H Hi Hj). lia.
Qed.

Lemma findall_from_here p a s :
  findall_from p (String a s) 0 =
    match match_here p (String a s) with
    | Some r => text (String a s) r :: findall_from p s (pred (m_len r))
    | None => findall_from p s 0
    end.
Proof. reflexivity. Qed.

Lemma findall_from_skip p a s k :
  findall_from p (String a s) (S k) = findall_from p s k.
Proof. reflexivity. Qed.

Lemma mac_substrings_cons a s :
  mac_substrings (String a s) =
    (if mac_prefix (String a s) then [Str.take 14 (String a s)] else [])
    ++ mac_substrings s.
Proof. reflexivity. Qed.

Lemma findall_mac_scan s skip :
  macs_apart s ->
  (forall i, i < skip -> mac_at s i = false) ->
  findall_from MAC_RE s skip = mac_substrings s.
Proof.
  revert skip; induction s as [|a s IH]; intros skip Hap Hskip.
  - simpl. destruct skip; reflexivity.
  - rewrite mac_substrings_cons. destruct skip as [|k].
    + rewrite findall_from_here, mac_match_here.
      destruct (mac_prefix (String a s)) eqn:E.
      * simpl. f_equal. apply IH; [now apply macs_apart_tail with a|].
        intros i Hi. destruct (mac_at s i) eqn:Ei; [|reflexivity].
        specialize (Hap 0 (S i) E). rewrite mac_at_S in Hap.
        specialize (Hap Ei). lia.
      * simpl. apply IH; [now apply macs_apart_tail with a|].
        intros i Hi. lia.
    + assert (E : mac_prefix (String a s) = false) by (apply (Hskip 0); lia).
      rewrite E, findall_from_skip. simpl. apply IH; [now apply macs_apart_tail with a|].
      intros i Hi. rewrite <- (mac_at_S a). apply Hskip. lia.
Qed.

Lemma findall_mac s :
  macs_apart s -> findall MAC_RE s = mac_substrings s.
Proof. intros H. apply findall_mac_scan; [exact H|]. intros i Hi. lia. Qed.

Lemma run_length_all k x rest :
  Str.all (mem k) x = true ->
  run_length k rest = 0 ->
  run_length k (x +:+ rest) = String.length x.
Proof.
  intros Hx Hr. induction x as [|a x IH]; simpl in *; [exact Hr|].
  apply andb_true_iff in Hx as [Ha Hx]. rewrite Ha. now rewrite IH.
Qed.

Lemma count_here_line k post :
  k <> "" -> Str.all Chr.is_digit k = true ->
  count_here ("Session count = " +:+ k +:+ LF +:+ post) = Some k.
Proof.
  intros Hk Hd. unfold count_here.
  rewrite starts_with_app.
  change 16 with (String.length "Session count = "). rewrite drop_app.
  rewrite (run_length_all Digit k (LF +:+ post) Hd eq_refl).
  rewrite drop_app, take_app, starts_with_app.
  destruct k as [|a k]; [congruence|reflexivity].
Qed.

Lemma count_here_no_label s :
  Str.starts_with "Session count = " s = false -> count_here s = None.
Proof. intros H. unfold count_here. now rewrite H. Qed.

Lemma match_text_none p s : match_text p s = None -> match_here p s = None.
Proof. unfold match_text. destruct (match_here p s); [discriminate|reflexivity]. Qed.

Lemma match_text_some p s x :
  match_text p s = Some x -> exists r, match_here p s = Some r /\ text s r = x.
Proof.
  unfold match_text. destruct (match_here p s) as [r|]; [|discriminate].
  intros [= <-]. now exists r.
Qed.

Lemma findall_count s count :
  count_line s count ->
  findall SESSION_COUNT_RE s = match count with Some k => [k] | None => [] end.
Proof.
  destruct count as [k|]; unfold count_line.
  - intros (pre & post & -> & Hk & Hd & Hu).
    set (s := pre +:+ "Session count = " +:+ k +:+ LF +:+ post) in *.
    assert (Hat : Str.drop (String.length pre) s
                  = "Session count = " +:+ k +:+ LF +:+ post)
      by apply drop_app.
    destruct (match_text_some SESSION_COUNT_RE (Str.drop (String.length pre) s) k)
      as (r & Hr & Ht).
    { rewrite count_match, Hat. now apply count_here_line. }
    rewrite <- Ht. apply findall_unique.
    + unfold s. rewrite length_app. simpl. lia.
    + exact Hr.
    + intros j Hj Hl. apply match_text_none. rewrite count_match.
      apply count_here_no_label.
      destruct (Str.starts_with "Session count = " (Str.drop j s)) eqn:E;
        [|reflexivity].
      elim Hj. now apply Hu.
  - intros H. apply findall_from_none. intros j _.
    apply match_text_none. rewrite count_match.
    apply count_here_no_label, H.
Qed.

(** ** The detail step *)

Module RunFacts.

Lemma has_marker_spec t :
  has_marker t = true <-> has_substring "FAIL" t \/ has_substring "Unauthorized" t.
Proof.
  unfold has_marker, has_substring. rewrite orb_true_iff, !contains_spec.
  reflexivity.
Qed.

Lemma app_inj_r x y z : x +:+ z = y +:+ z -> x = y.
Proof.
  revert y; induction x as [|a x IH]; intros y H.
  - destruct y as [|b y]; [reflexivity|]. exfalso.
    apply (f_equal String.length) in H. simpl in H.
    rewrite length_app in H. lia.
  - destruct y as [|b y].
    + exfalso. apply (f_equal String.length) in H. simpl in H.
      rewrite length_app in H. lia.
    + simpl in H. injection H as -> H. f_equal. now apply IH.
Qed.

Lemma detail_command_inj m m' : detail_command m = detail_command m' -> m = m'.
Proof.
  unfold detail_command. intros H.
  apply (String.app_inj "show access-session mac ") in H.
  now apply app_inj_r in H.
Qed.

Lemma same_frame_refl d : same_frame d d.
Proof. repeat split. Qed.

Lemma same_frame_trans d1 d2 d3 :
  same_frame d1 d2 -> same_frame d2 d3 -> same_frame d1 d3.
Proof.
  intros (A1 & A2 & A3 & A4) (B1 & B2 & B3 & B4).
  repeat split; congruence.
Qed.

Lemma same_frame_set d m : same_frame d (set_dict_result d m).
Proof. repeat split. Qed.

Section WithWorld.
Variable w : World.

(** The lookup leaves the device alone and only adds lookup events. *)
Lemma classify_trace each t d tr o d' tr' :
  classify w each t (d, tr) = (o, (d', tr')) ->
  d' = d /\ exists extra, tr' = tr ++ extra /\ Forall is_lookup_event extra.
Proof.
  unfold classify, vendor_lookup.
  destruct (findall METHOD_RE t) as [|m0 ms].
  { intros [= <- <- <-]. split; [reflexivity|].
    exists []. now rewrite app_nil_r. }
  destruct (String.eqb (str_lower m0) "mab").
  2:{ intros [= <- <- <-]. split; [reflexivity|].
      exists []. now rewrite app_nil_r. }
  destruct (findall MAC_RE t) as [|mac0 macs].
  { intros [= <- <- <-]. split; [reflexivity|].
    exists []. now rewrite app_nil_r. }
  unfold bind, requests_get_call, time_sleep, emit, ret. cbn [fst snd].
  destruct (requests_get w tr (vendor_url mac0)) as [code body|] eqn:E;
    cbn [fst snd]; intros [= <- <- <-]; (split; [reflexivity|]).
  - rewrite <- List.app_assoc. eexists. split; [reflexivity|].
    repeat constructor.
  - eexists. split; [reflexivity|]. repeat constructor.
Qed.

(** What one turn of the loop does. *)
Lemma details_body_cases each d tr :
  match send_command w tr (detail_command each) with
  | CommandRaised =>
      details_body w each (d, tr)
      = (Raise CommandException,
         (d, tr ++ [EvSend (detail_command each) CommandRaised]))
  | Output t =>
      if has_marker t then
        details_body w each (d, tr)
        = (Raise IndexError,
           (d, tr ++ [EvSend (detail_command each) (Output t)]))
        \/ exists s extra,
            Forall is_lookup_event extra
            /\ details_body w each (d, tr)
               = (Ret tt,
                  (set_dict_result d (<[each := s]> (dict_result d)),
                   tr ++ EvSend (detail_command each) (Output t) :: extra))
      else
        details_body w each (d, tr)
        = (Ret tt, (d, tr ++ [EvSend (detail_command each) (Output t)]))
  end.
Proof.
  unfold details_body, bind, connection_send_command. cbn [fst snd].
  destruct (send_command w tr (detail_command each)) as [t|]; [|reflexivity].
  destruct (has_marker t); [|reflexivity].
  destruct (classify w each t
              (d, tr ++ [EvSend (detail_command each) (Output t)]))
    as [o [d1 tr1]] eqn:E.
  destruct (classify_trace _ _ _ _ _ _ _ E) as (-> & extra & -> & Hex).
  destruct o as [s|e].
  - right. exists s, extra. split; [exact Hex|].
    unfold get_self, set_self. cbn [fst snd]. now rewrite <- List.app_assoc.
  - left. revert E. unfold classify, vendor_lookup.
    destruct (findall METHOD_RE t) as [|m0 ms]; [discriminate|].
    destruct (String.eqb (str_lower m0) "mab"); [|discriminate].
    destruct (findall MAC_RE t) as [|mac0 macs].
    + intros [= <- E]. now rewrite <- E.
    + unfold bind, requests_get_call, time_sleep, emit, ret. cbn [fst snd].
      destruct (requests_get w _ _); discriminate.
Qed.

Lemma for_each_cons each l (body : string -> M unit) st :
  for_each (each :: l) body st =
    match body each st with
    | (Ret _, st') => for_each l body st'
    | (Raise e, st') => (Raise e, st')
    end.
Proof. reflexivity. Qed.

(** One turn, summed up: one query, then lookup events; the entry of
    [each] is written exactly when the turn returns on a text with a
    marker. *)
Lemma details_body_step each d tr o d1 tr1 :
  details_body w each (d, tr) = (o, (d1, tr1)) ->
  exists r extra,
    tr1 = tr ++ EvSend (detail_command each) r :: extra
    /\ Forall is_lookup_event extra
    /\ same_frame d d1
    /\ ((dict_result d1 = dict_result d
         /\ (o = Ret tt -> exists t, r = Output t /\ has_marker t = false))
        \/ exists t s,
            r = Output t /\ has_marker t = true /\ o = Ret tt
            /\ dict_result d1 = <[each := s]> (dict_result d)).
Proof.
  intros H. pose proof (details_body_cases each d tr) as C.
  destruct (send_command w tr (detail_command each)) as [t|].
  - destruct (has_marker t) eqn:Em.
    + destruct C as [C|(s & extra & Hex & C)];
        rewrite C in H; injection H as <- <- <-.
      * exists (Output t), []. repeat split; try reflexivity; [constructor|].
        left. split; [reflexivity|discriminate].
      * exists (Output t), extra. repeat split; try reflexivity; [exact Hex|].
        right. now exists t, s.
    + rewrite C in H; injection H as <- <- <-.
      exists (Output t), []. repeat split; try reflexivity; [constructor|].
      left. split; [reflexivity|]. intros _. now exists t.
  - rewrite C in H; injection H as <- <- <-.
    exists CommandRaised, []. repeat split; try reflexivity; [constructor|].
    left. split; [reflexivity|discriminate].
Qed.

(** The loop writes no key outside its list, deletes nothing and
    leaves the other attributes alone, whatever its outcome. *)
Lemma for_each_frame l d tr o d' tr' :
  for_each l (details_body w) (d, tr) = (o, (d', tr')) ->
  same_frame d d'
  /\ (forall k, ~ In k l -> dict_result d' !! k = dict_result d !! k)
  /\ (forall k, is_Some (dict_result d !! k) -> is_Some (dict_result d' !! k)).
Proof.
  revert d tr; induction l as [|each l IH]; intros d tr H.
  - injection H as <- <- <-. split; [apply same_frame_refl|]. auto.
  - rewrite for_each_cons in H.
    destruct (details_body w each (d, tr)) as [o1 [d1 tr1]] eqn:E.
    destruct (details_body_step _ _ _ _ _ _ E)
      as (r & extra & -> & Hex & Hfr & Hd).
    assert (Hkeep : (forall k, k <> each ->
                       dict_result d1 !! k = dict_result d !! k)
                    /\ (forall k, is_Some (dict_result d !! k) ->
                          is_Some (dict_result d1 !! k))).
    { destruct Hd as [[-> _]|(t & s & _ & _ & _ & ->)]; [auto|].
      split; intros k Hk.
      - now rewrite lookup_insert_ne.
      - destruct (decide (each = k)) as [->|N].
        + rewrite lookup_insert_eq. eauto.
        + now rewrite lookup_insert_ne. }
    destruct Hkeep as [Hne Hmono].
    destruct o1 as [[]|e].
    + destruct (IH _ _ H) as (Hfr' & Hout & Hin).
      split; [eapply same_frame_trans; eassumption|]. split.
      * intros k Hk. rewrite Hout by (intros ?; apply Hk; now right).
        apply Hne. intros ->. apply Hk. now left.
      * intros k Hk. apply Hin, Hmono, Hk.
    + injection H as <- <- <-. split; [exact Hfr|]. split.
      * intros k Hk. apply Hne. intros ->. apply Hk. now left.
      * exact Hmono.
Qed.

Lemma EvSend_inj c r c' r' : EvSend c r = EvSend c' r' -> c = c' /\ r = r'.
Proof. intros H. split; congruence. Qed.

Lemma lookup_event_not_send cmd r extra :
  Forall is_lookup_event extra -> ~ In (EvSend cmd r) extra.
Proof.
  intros H Hin. rewrite Forall_forall in H.
  apply list_elem_of_In in Hin. exact (H _ Hin).
Qed.

(** The queries of the loop and the entries it writes. *)
Lemma for_each_classified l d tr o d' tr' :
  for_each l (details_body w) (d, tr) = (o, (d', tr')) ->
  exists new,
    tr' = tr ++ new
    /\ (forall cmd r, In (EvSend cmd r) new ->
          exists m, In m l /\ cmd = detail_command m)
    /\ (forall m, is_Some (dict_result d' !! m) ->
          is_Some (dict_result d !! m)
          \/ exists t, In (EvSend (detail_command m) (Output t)) new
                       /\ has_marker t = true)
    /\ (o = Ret tt ->
        (forall m, In m l ->
           exists t, In (EvSend (detail_command m) (Output t)) new)
        /\ (forall m t, In (EvSend (detail_command m) (Output t)) new ->
              has_marker t = true -> is_Some (dict_result d' !! m))).
Proof.
  revert d tr; induction l as [|each l IH]; intros d tr H.
  - injection H as <- <- <-. exists []. rewrite app_nil_r.
    split; [reflexivity|]. split; [intros ? ? []|]. split; [auto|].
    intros _. split; [intros ? []|intros ? ? []].
  - rewrite for_each_cons in H.
    destruct (details_body w each (d, tr)) as [o1 [d1 tr1]] eqn:E.
    destruct (details_body_step _ _ _ _ _ _ E)
      as (r & extra & -> & Hex & Hfr & Hd).
    destruct o1 as [[]|e].
    + pose proof (for_each_frame _ _ _ _ _ _ H) as (_ & _ & Hmono).
      destruct (IH _ _ H) as (new & -> & Hsend & Honly & Hret).
      exists (EvSend (detail_command each) r :: extra ++ new).
      split; [now rewrite <- List.app_assoc|]. split; [|split].
      * intros cmd r' [[= <- <-]|Hin].
        { exists each. split; [now left|reflexivity]. }
        apply in_app_or in Hin as [Hin|Hin].
        { now apply lookup_event_not_send in Hin. }
        destruct (Hsend _ _ Hin) as (m & Hm & ->).
        exists m. split; [now right|reflexivity].
      * intros m Hm. destruct (Honly _ Hm) as [Hm1|(t & Hin & Ht)].
        2:{ right. exists t. split; [|exact Ht].
            right. apply in_or_app. now right. }
        destruct Hd as [[Hd1 _]|(t & s & -> & Ht & _ & Hd1)];
          rewrite Hd1 in Hm1; [now left|].
        destruct (decide (each = m)) as [->|N].
        { right. exists t. split; [now left|exact Ht]. }
        left. now rewrite lookup_insert_ne in Hm1.
      * intros ->. destruct (Hret eq_refl) as [Hall Hif]. split.
        { intros m [->|Hm].
          - destruct Hd as [[_ Hr]|(t & s & -> & _)].
            + destruct (Hr eq_refl) as (t & -> & _).
              exists t. now left.
            + exists t. now left.
          - destruct (Hall _ Hm) as (t & Hin). exists t.
            right. apply in_or_app. now right. }
        intros m t [Heq|Hin] Ht.
        { apply EvSend_inj in Heq as [Hcmd Hrt].
          apply detail_command_inj in Hcmd. subst m r. apply Hmono.
          destruct Hd as [[_ Hr]|(t' & s & _ & _ & _ & Hd1)].
          - destruct (Hr eq_refl) as (t' & [= <-] & Hf). congruence.
          - rewrite Hd1, lookup_insert_eq. eauto. }
        apply in_app_or in Hin as [Hin|Hin].
        { now apply lookup_event_not_send in Hin. }
        now apply (Hif _ t).
    + injection H as <- <- <-.
      exists (EvSend (detail_command each) r :: extra).
      split; [reflexivity|]. split; [|split].
      * intros cmd r' [[= <- <-]|Hin].
        { exists each. split; [now left|reflexivity]. }
        now apply lookup_event_not_send in Hin.
      * intros m Hm.
        destruct Hd as [[Hd1 _]|(t & s & _ & _ & [=] & _)].
        rewrite Hd1 in Hm. now left.
      * discriminate.
Qed.

End WithWorld.

End RunFacts.

Import RunFacts.

(** The detail step when it completes, from an empty result map: it has
    sent one detail query for every MAC of the inventory and no other
    command, and a MAC has an entry in the result map if and only if a
    detail text answered for it contains the literal [FAIL] or the literal
    [Unauthorized]; a text with neither marker produces no record. *)
Lemma details_record_iff_marker (w : World) (d d' : Device) (tr tr' : list event) :
  dict_result d = ∅ ->
  collect_active_sessions_details w (d, tr) = (Ret tt, (d', tr')) ->
  exists new,
    tr' = tr ++ new
    /\ (forall m, In m (mac_addresses d) ->
          exists t, In (EvSend (detail_command m) (Output t)) new)
    /\ (forall cmd r, In (EvSend cmd r) new ->
          exists m, In m (mac_addresses d) /\ cmd = detail_command m)
    /\ (forall m,
          is_Some (dict_result d' !! m) <->
          exists t, In (EvSend (detail_command m) (Output t)) new
                    /\ (has_substring "FAIL" t \/ has_substring "Unauthorized" t)).
Proof.
  intros Hempty H. unfold collect_active_sessions_details, bind, get_self in H.
  cbn [fst snd] in H. destruct (connection d); [|discriminate H].
  destruct (for_each_classified w _ _ _ _ _ _ H)
    as (new & -> & Hsend & Honly & Hret).
  destruct (Hret eq_refl) as [Hall Hif].
  exists new. split; [reflexivity|]. split; [exact Hall|]. split; [exact Hsend|].
  intros m. split.
  - intros Hm. destruct (Honly _ Hm) as [Hm0|(t & Hin & Ht)].
    + rewrite Hempty, lookup_empty in Hm0. destruct Hm0 as [? [=]].
    + exists t. split; [exact Hin|]. now apply has_marker_spec.
  - intros (t & Hin & Ht). apply (Hif _ t Hin). now apply has_marker_spec.
Qed.

(** The same on the sample device: two MACs, one unauthorized. *)
Lemma details_record_iff_marker_sample :
  exists new,
    (collect_active_sessions_details w_ok (device_two, [])).2.2 = [] ++ new
    /\ (forall m, In m (mac_addresses device_two) ->
          exists t, In (EvSend (detail_command m) (Output t)) new)
    /\ (forall cmd r, In (EvSend cmd r) new ->
          exists m, In m (mac_addresses device_two) /\ cmd = detail_command m)
    /\ (forall m,
          is_Some (dict_result
                     (collect_active_sessions_details w_ok (device_two, [])).2.1
                   !! m) <->
          exists t, In (EvSend (detail_command m) (Output t)) new
                    /\ (has_substring "FAIL" t \/ has_substring "Unauthorized" t)).
Proof.
  apply (details_record_iff_marker w_ok device_two
           (collect_active_sessions_details w_ok (device_two, [])).2.1 []
           (collect_active_sessions_details w_ok (device_two, [])).2.2).
  - reflexivity.
  - vm_compute. reflexivity.
Qed.

(** The detail step, whatever its outcome, from an empty result map: a
    MAC has an entry only if a detail text answered for it holds a
    marker. *)
Lemma details_record_only_if_marker (w : World) (d d' : Device)
    (tr tr' : list event) (o : outcome unit) :
  dict_result d = ∅ ->
  collect_active_sessions_details w (d, tr) = (o, (d', tr')) ->
  exists new,
    tr' = tr ++ new
    /\ forall m,
         is_Some (dict_result d' !! m) ->
         exists t, In (EvSend (detail_command m) (Output t)) new
                   /\ (has_substring "FAIL" t \/ has_substring "Unauthorized" t).
Proof.
  intros Hempty H. unfold collect_active_sessions_details, bind, get_self in H.
  cbn [fst snd] in H. destruct (connection d).
  - destruct (for_each_classified w _ _ _ _ _ _ H) as (new & -> & _ & Honly & _).
    exists new. split; [reflexivity|]. intros m Hm.
    destruct (Honly _ Hm) as [Hm0|(t & Hin & Ht)].
    + rewrite Hempty, lookup_empty in Hm0. destruct Hm0 as [? [=]].
    + exists t. split; [exact Hin|]. now apply has_marker_spec.
  - injection H as <- <- <-. exists []. rewrite app_nil_r.
    split; [reflexivity|]. intros m Hm.
    rewrite Hempty, lookup_empty in Hm. destruct Hm as [? [=]].
Qed.

(** Claim C1 does not hold of the source.  The MAC below is in the
    inventory and the detail text answered for it holds the marker [FAIL],
    yet no entry is made for it: the text names the method [mab] and no MAC
    address, the lookup raises an [IndexError] before the record is stored,
    and the detail step, and [main] with it, ends with that exception.
    The other half of the claim holds on every run
    ([details_record_only_if_marker]), and both halves hold on the runs in
    which the step completes ([details_record_iff_marker]). *)
Theorem C1_marker_without_record :
  (collect_active_sessions_details w_without_mac (device_two, [])).1
  = Raise IndexError
  /\ (collect_active_sessions_details w_without_mac (device_two, [])).2.2
     = [EvSend (detail_command "0050.5699.1234") (Output details_without_mac)]
  /\ In "0050.5699.1234" (mac_addresses device_two)
  /\ has_substring "FAIL" details_without_mac
  /\ dict_result (collect_active_sessions_details w_without_mac (device_two, [])).2.1
     !! "0050.5699.1234" = None
  /\ (main w_without_mac "10.0.0.1").1 = Raise IndexError.
Proof.
  split; [vm_compute; reflexivity|]. split; [vm_compute; reflexivity|].
  split; [now left|]. split; [exists "", (LF +:+ "mab Authc x"); reflexivity|].
  split; vm_compute; reflexivity.
Qed.

(** Claim C10.  Whatever the outcome of the detail step, the result map is
    unchanged at every key that is not in the MAC list of the inventory,
    the target address, the session count, the MAC list and the handle are
    unchanged, and every entry the map had before the call is still there
    after it: earlier entries are kept, not cleared. *)
Theorem C10_details_frame (w : World) (d d' : Device) (tr tr' : list event)
    (o : outcome unit) :
  collect_active_sessions_details w (d, tr) = (o, (d', tr')) ->
  (forall k, ~ In k (mac_addresses d) ->
     dict_result d' !! k = dict_result d !! k)
  /\ current_ip_address d' = current_ip_address d
  /\ session_count d' = session_count d
  /\ mac_addresses d' = mac_addresses d
  /\ connection d' = connection d
  /\ (forall k, is_Some (dict_result d !! k) -> is_Some (dict_result d' !! k)).
Proof.
  intros H. unfold collect_active_sessions_details, bind, get_self in H.
  cbn [fst snd] in H. destruct (connection d) eqn:Ec.
  - destruct (for_each_frame w _ _ _ _ _ _ H) as ((F1 & F2 & F3 & F4) & Hout & Hin).
    repeat split; auto; congruence.
  - injection H as <- <- <-. repeat split; auto.
Qed.

(** Claim C10 on a device that holds the entries of an earlier call: the
    entry under a MAC that has left the inventory is unchanged, the entry
    under a MAC of the inventory whose session is authorized by now is
    still there, and the MAC list and the session count are unchanged. *)
Lemma C10_details_frame_witness :
  dict_result (collect_active_sessions_details w_ok (device_with_entries, [])).2.1
    !! "dead.beef.0001" = Some session_earlier
  /\ is_Some
       (dict_result (collect_active_sessions_details w_ok (device_with_entries, [])).2.1
          !! "aaaa.bbbb.cccc")
  /\ mac_addresses (collect_active_sessions_details w_ok (device_with_entries, [])).2.1
     = ["0050.5699.1234"; "aaaa.bbbb.cccc"]
  /\ session_count (collect_active_sessions_details w_ok (device_with_entries, [])).2.1
     = ["2"].
Proof.
  pose proof (C10_details_frame w_ok device_with_entries
                (collect_active_sessions_details w_ok (device_with_entries, [])).2.1 []
                (collect_active_sessions_details w_ok (device_with_entries, [])).2.2
                (collect_active_sessions_details w_ok (device_with_entries, [])).1)
    as H.
  destruct H as (Hout & _ & Hc & Hm & _ & Hkeep).
  - vm_compute. reflexivity.
  - split.
    { rewrite Hout; [reflexivity|]. intros [H|[H|[]]]; discriminate H. }
    split; [apply Hkeep; vm_compute; eauto|]. split; [exact Hm|exact Hc].
Defined.

(** ** The vendor lookup *)

Lemma method_of_details each t :
  method (session_of_details each t) = head_or (findall METHOD_RE t) "Unknown".
Proof. reflexivity. Qed.

Lemma mac_of_details each t :
  mac_address (session_of_details each t) = head_or (findall MAC_RE t) each.
Proof. reflexivity. Qed.

Lemma lower_m a : Chr.lower a = "m"%char -> a = "m"%char \/ a = "M"%char.
Proof.
  destruct a as [[] [] [] [] [] [] [] []]; vm_compute; intros H;
    try discriminate H; auto.
Qed.

Lemma lower_a a : Chr.lower a = "a"%char -> a = "a"%char \/ a = "A"%char.
Proof.
  destruct a as [[] [] [] [] [] [] [] []]; vm_compute; intros H;
    try discriminate H; auto.
Qed.

Lemma lower_b a : Chr.lower a = "b"%char -> a = "b"%char \/ a = "B"%char.
Proof.
  destruct a as [[] [] [] [] [] [] [] []]; vm_compute; intros H;
    try discriminate H; auto.
Qed.

(** [m.lower() == "mab"] holds of the eight spellings and of nothing
    else. *)
Lemma str_lower_mab m : str_lower m = "mab" <-> In m mab_spellings.
Proof.
  split.
  - destruct m as [|a [|b [|c [|e m]]]]; try discriminate.
    unfold str_lower. cbn [Str.map]. intros H. injection H as Ha Hb Hc.
    apply lower_m in Ha. apply lower_a in Hb. apply lower_b in Hc.
    destruct Ha as [-> | ->], Hb as [-> | ->], Hc as [-> | ->]; simpl; auto 10.
  - intros H. simpl in H.
    repeat (destruct H as [<-|H]; [vm_compute; reflexivity|]). destruct H.
Qed.

(** The lookup, in the terms of the source. *)
Lemma classify_vendor (w : World) (each t : string) (st st' : State)
    (s : Session) :
  classify w each t st = (Ret s, st') ->
  (is_Some (vendor s) <-> str_lower (method s) = "mab")
  /\ (is_Some (vendor s) ->
      exists r,
        requests_get w st.2 (vendor_url (mac_address s)) = r
        /\ st' = (st.1,
                  st.2 ++ EvGet (vendor_url (mac_address s)) r
                  :: match r with
                     | Response _ _ => [EvSleep 1]
                     | RequestException => []
                     end))
  /\ (vendor s = None -> st' = st).
Proof.
  unfold classify, vendor_lookup.
  pose proof (method_of_details each t) as Hm.
  pose proof (mac_of_details each t) as Hmac.
  destruct (findall METHOD_RE t) as [|m0 ms].
  { intros [= <- <-]. rewrite Hm. simpl head_or.
    split; [|split]; [|intros [? [=]]|reflexivity].
    split; [intros [? [=]]|]. vm_compute. discriminate. }
  destruct (String.eqb_spec (str_lower m0) "mab") as [Hmab|Hmab].
  2:{ intros [= <- <-]. rewrite Hm. simpl head_or.
      split; [|split]; [|intros [? [=]]|reflexivity].
      split; [intros [? [=]]|intros E; contradiction]. }
  destruct (findall MAC_RE t) as [|mac0 macs]; [discriminate|].
  simpl head_or in Hm, Hmac.
  unfold bind, requests_get_call, time_sleep, emit, ret. cbn [fst snd].
  destruct st as [d tr]. cbn [fst snd].
  destruct (requests_get w tr (vendor_url mac0)) as [code body|] eqn:E;
    cbn [fst snd]; intros [= <- <-]; cbn [vendor method mac_address with_vendor];
    rewrite Hm, Hmac.
  - split; [split; [auto|eauto]|]. split; [|discriminate].
    intros _. eexists. split; [exact E|]. now rewrite <- List.app_assoc.
  - split; [split; [auto|eauto]|]. split; [|discriminate].
    intros _. eexists. split; [exact E|]. reflexivity.
Qed.

(** Claim C7.  In every record the classifier produces, the vendor field is
    present if and only if the method is [mab] in one of its eight
    spellings, that is, whatever the case of its letters; any other
    method, the sentinel [Unknown] included, leaves the field absent.
    When the field is present, one lookup has been issued, for the MAC
    address of the record; when it is absent, no lookup was issued and
    nothing else happened.  The record is the one the loop stores under
    the MAC of the query. *)
Theorem C7_vendor_iff_mab (w : World) (each t : string) (st st' : State)
    (s : Session) :
  classify w each t st = (Ret s, st') ->
  (is_Some (vendor s) <-> In (method s) mab_spellings)
  /\ (is_Some (vendor s) ->
      exists r,
        requests_get w st.2 (vendor_url (mac_address s)) = r
        /\ st' = (st.1,
                  st.2 ++ EvGet (vendor_url (mac_address s)) r
                  :: match r with
                     | Response _ _ => [EvSleep 1]
                     | RequestException => []
                     end))
  /\ (vendor s = None -> st' = st)
  /\ (forall d tr,
        st = (d, tr ++ [EvSend (detail_command each) (Output t)]) ->
        send_command w tr (detail_command each) = Output t ->
        has_marker t = true ->
        exists d',
          details_body w each (d, tr) = (Ret tt, (d', st'.2))
          /\ dict_result d' !! each = Some s).
Proof.
  intros H. destruct (classify_vendor w each t st st' s H) as (Hiff & Hget & Hnone).
  split; [now rewrite <- str_lower_mab|]. split; [exact Hget|].
  split; [exact Hnone|].
  intros d tr -> Hsend Hmark. destruct st' as [d1 tr1].
  destruct (classify_trace w _ _ _ _ _ _ _ H) as [-> _].
  unfold details_body, bind, connection_send_command. cbn [fst snd].
  rewrite Hsend, Hmark. unfold bind. rewrite H.
  unfold get_self, set_self. cbn [fst snd].
  eexists. split; [reflexivity|]. cbn [dict_result set_dict_result].
  apply lookup_insert_eq.
Qed.

(** Claim C7 on an unauthorized session whose method is printed as
    [MAB]. *)
Lemma C7_vendor_iff_mab_witness :
  exists s st',
    classify w_upper "0050.5699.1234" details_unauthorized_upper
      (device_two,
       [EvSend (detail_command "0050.5699.1234") (Output details_unauthorized_upper)])
    = (Ret s, st')
    /\ method s = "MAB"
    /\ (is_Some (vendor s) <-> In (method s) mab_spellings)
    /\ vendor s = Some "VMware, Inc."
    /\ st'.2 = [EvSend (detail_command "0050.5699.1234")
                  (Output details_unauthorized_upper);
                EvGet "https://api.macvendors.com/0050.5699.1234"
                  (Response 200 "VMware, Inc.");
                EvSleep 1]
    /\ exists d',
         details_body w_upper "0050.5699.1234" (device_two, []) = (Ret tt, (d', st'.2))
         /\ dict_result d' !! "0050.5699.1234" = Some s.
Proof.
  eexists _, _. split; [vm_compute; reflexivity|].
  pose proof (C7_vendor_iff_mab w_upper "0050.5699.1234" details_unauthorized_upper
                (device_two,
                 [EvSend (detail_command "0050.5699.1234")
                    (Output details_unauthorized_upper)]) _ _ eq_refl)
    as (Hiff & _ & _ & Hstored).
  split; [reflexivity|]. split; [exact Hiff|]. split; [reflexivity|].
  split; [reflexivity|].
  apply (Hstored device_two []); reflexivity.
Defined.

(** Claim C4 does not hold of the source.  On a text with a failure marker
    and the method [mab] but no MAC address, the record falls back to the
    MAC of the query, yet the lookup builds its URL from the first element
    of the empty list of matches: the [IndexError] is not a request
    failure, no handler catches it and it leaves the classifier before any
    request is made. *)
Theorem C4_index_error_escapes (w : World) (each : string) (st : State) :
  has_marker details_without_mac = true
  /\ str_lower (method (session_of_details each details_without_mac)) = "mab"
  /\ mac_address (session_of_details each details_without_mac) = each
  /\ classify w each details_without_mac st = (Raise IndexError, st).
Proof. repeat split. Qed.

(** What the lookup does when the text has a MAC address: it never raises
    and anything but a 200 gives the vendor [Unknown]. *)
Lemma classify_degrades (w : World) (each t : string) (st : State) mac0 macs :
  findall MAC_RE t = mac0 :: macs ->
  exists s st',
    classify w each t st = (Ret s, st')
    /\ (str_lower (method s) = "mab" ->
        match requests_get w st.2 (vendor_url mac0) with
        | Response code body =>
            vendor s = Some (if code =? 200 then body else "Unknown")
        | RequestException => vendor s = Some "Unknown"
        end).
Proof.
  intros Hmac. unfold classify, vendor_lookup.
  pose proof (method_of_details each t) as Hm. rewrite Hmac.
  destruct (findall METHOD_RE t) as [|m0 ms].
  { eexists _, _. split; [reflexivity|]. rewrite Hm. vm_compute. discriminate. }
  destruct (String.eqb_spec (str_lower m0) "mab") as [Hmab|Hmab].
  2:{ eexists _, _. split; [reflexivity|]. rewrite Hm. simpl. contradiction. }
  unfold bind, requests_get_call, time_sleep, emit, ret. cbn [fst snd].
  destruct (requests_get w st.2 (vendor_url mac0)) as [code body|];
    eexists _, _; (split; [reflexivity|]); reflexivity.
Qed.

(** Claim C5 does not hold of the source.  When the request to the vendor
    service fails, the pause that follows a lookup is skipped: the run
    below completes, and its trace has two lookups with no pause between
    them. *)
Theorem C5_pause_skipped_on_failure :
  (exists result, (main w_lookup_down "10.0.0.1").1 = Ret result)
  /\ (main w_lookup_down "10.0.0.1").2.2
     = [EvConnect "10.0.0.1" Connected;
        EvSend "term len 0" (Output "");
        EvSend "show access-session" (Output inventory_two);
        EvSend (detail_command "0050.5699.1234") (Output details_unauthorized);
        EvGet (vendor_url "0050.5699.1234") RequestException;
        EvSend (detail_command "aaaa.bbbb.cccc")
          (Output details_unauthorized_second);
        EvGet (vendor_url "aaaa.bbbb.cccc") RequestException;
        EvDisconnect;
        EvSnapshot (main w_lookup_down "10.0.0.1").2.1.(dict_result) true]
  /\ throttled (main w_lookup_down "10.0.0.1").2.2 = false.
Proof.
  split; [eexists; vm_compute; reflexivity|].
  split; vm_compute; reflexivity.
Qed.

(** ** The connection over a run *)

Lemma for_each_no_disconnect w l d tr o d' tr' :
  for_each l (details_body w) (d, tr) = (o, (d', tr')) ->
  exists new, tr' = tr ++ new /\ ~ In EvDisconnect new.
Proof.
  revert d tr; induction l as [|each l IH]; intros d tr H.
  - injection H as <- <- <-. exists []. rewrite app_nil_r. auto.
  - rewrite for_each_cons in H.
    destruct (details_body w each (d, tr)) as [o1 [d1 tr1]] eqn:E.
    destruct (details_body_step _ _ _ _ _ _ _ E)
      as (r & extra & -> & Hex & _ & _).
    assert (Hextra : ~ In EvDisconnect extra).
    { intros Hin. rewrite Forall_forall in Hex.
      apply list_elem_of_In in Hin. exact (Hex _ Hin). }
    destruct o1 as [[]|e].
    + destruct (IH _ _ H) as (new & -> & Hnew).
      exists (EvSend (detail_command each) r :: extra ++ new).
      split; [now rewrite <- List.app_assoc|].
      intros [Hin|Hin]; [discriminate Hin|].
      apply in_app_or in Hin as [Hin|Hin]; auto.
    + injection H as <- <- <-.
      exists (EvSend (detail_command each) r :: extra).
      split; [reflexivity|]. intros [Hin|Hin]; [discriminate Hin|auto].
Qed.

(** Claim C8.  When the handle fails to open, [main] raises
    [ConnectionError] -- no result, partial or not, is returned -- and the
    only call made is the connection attempt: no inventory query and no
    detail query is sent to the device. *)
Theorem C8_open_failure (w : World) (ip : string) :
  ssh_connect w [] ip <> Connected ->
  main w ip
  = (Raise ConnectionError,
     (Device_init ip, [EvConnect ip (ssh_connect w [] ip)]))
  /\ forall cmd r, ~ In (EvSend cmd r) (main w ip).2.2.
Proof.
  intros H.
  assert (E : main w ip
              = (Raise ConnectionError,
                 (Device_init ip, [EvConnect ip (ssh_connect w [] ip)]))).
  { unfold main, main_body, bind, init_connection_ssh, try_to_connect_ssh,
      get_self, set_self, bind. cbn [fst snd Device_init current_ip_address].
    destruct (ssh_connect w [] ip); try reflexivity. contradiction. }
  split; [exact E|]. rewrite E. cbn [fst snd].
  intros cmd r [Hin|[]]. discriminate Hin.
Qed.

(** Claim C8 on a switch that does not answer. *)
Lemma C8_open_failure_witness :
  main w_unreachable "10.0.0.1"
  = (Raise ConnectionError,
     (Device_init "10.0.0.1", [EvConnect "10.0.0.1" NetmikoTimeoutException]))
  /\ forall cmd r, ~ In (EvSend cmd r) (main w_unreachable "10.0.0.1").2.2.
Proof.
  apply (C8_open_failure w_unreachable "10.0.0.1"). simpl. discriminate.
Defined.

(** Claim C6 as it is worded does not hold: in the run below a detail query
    fails, [main] ends with the exception, the handle is still open and no
    close was attempted. *)
Lemma C6_no_close_after_query_failure :
  (main w_query_fails "10.0.0.1").1 = Raise CommandException
  /\ connection (main w_query_fails "10.0.0.1").2.1
     = Some (ConnectHandler "10.0.0.1")
  /\ ~ In EvDisconnect (main w_query_fails "10.0.0.1").2.2.
Proof.
  split; [vm_compute; reflexivity|]. split; [vm_compute; reflexivity|].
  intros H. vm_compute in H.
  repeat (destruct H as [H|H]; [discriminate H|]). exact H.
Qed.

Lemma not_in_single (e : event) : e <> EvDisconnect -> ~ In EvDisconnect [e].
Proof. intros N [H|[]]. now apply N. Qed.

Lemma quiet_refl st : quiet st st.
Proof. exists []. rewrite app_nil_r. auto. Qed.

Lemma quiet_trans st1 st2 st3 : quiet st1 st2 -> quiet st2 st3 -> quiet st1 st3.
Proof.
  intros (n1 & E1 & H1) (n2 & E2 & H2). exists (n1 ++ n2).
  split; [now rewrite E2, E1, <- List.app_assoc|].
  intros H. apply in_app_or in H as [H|H]; auto.
Qed.

Lemma quiet_event d d' tr e : e <> EvDisconnect -> quiet (d, tr) (d', tr ++ [e]).
Proof. intros N. exists [e]. split; [reflexivity|]. now apply not_in_single. Qed.

Lemma init_raises w st e st' :
  init_connection_ssh w st = (Raise e, st') -> e = ConnectionError.
Proof.
  destruct st as [d tr].
  unfold init_connection_ssh, bind, try_to_connect_ssh, get_self, set_self,
    ret, raise. cbn [fst snd].
  destruct (ssh_connect w tr (current_ip_address d));
    cbn [fst snd]; intros [= <- <-]; reflexivity.
Qed.

Lemma collect_raises w st e st' :
  collect_active_sessions w st = (Raise e, st') -> e <> OSError.
Proof.
  destruct st as [d tr].
  unfold collect_active_sessions, bind, connection_send_command, get_self,
    set_self, raise. cbn [fst snd].
  destruct (connection d); cbn [fst snd]; [|intros [= <- <-]; discriminate].
  destruct (send_command w tr "term len 0"); cbn [fst snd];
    [|intros [= <- <-]; discriminate].
  destruct (send_command w _ "show access-session"); cbn [fst snd];
    intros [= <- <-]; discriminate.
Qed.

Lemma for_each_raises w l d tr e st' :
  for_each l (details_body w) (d, tr) = (Raise e, st') -> e <> OSError.
Proof.
  revert d tr; induction l as [|each l IH]; intros d tr H; [discriminate H|].
  rewrite for_each_cons in H.
  pose proof (details_body_cases w each d tr) as C.
  destruct (send_command w tr (detail_command each)) as [t|].
  - destruct (has_marker t).
    + destruct C as [C|(s & extra & _ & C)]; rewrite C in H.
      * injection H as <- <-. discriminate.
      * eapply IH, H.
    + rewrite C in H. eapply IH, H.
  - rewrite C in H. injection H as <- <-. discriminate.
Qed.

Lemma details_raises w st e st' :
  collect_active_sessions_details w st = (Raise e, st') -> e <> OSError.
Proof.
  destruct st as [d tr].
  unfold collect_active_sessions_details, bind, get_self, raise. cbn [fst snd].
  destruct (connection d); [|intros [= <- <-]; discriminate].
  apply for_each_raises.
Qed.

Lemma init_quiet w st o st' :
  init_connection_ssh w st = (o, st') ->
  quiet st st' /\ (o = Ret tt -> is_Some (connection st'.1)).
Proof.
  destruct st as [d tr].
  unfold init_connection_ssh, bind, try_to_connect_ssh, get_self, set_self,
    ret, raise. cbn [fst snd].
  destruct (ssh_connect w tr (current_ip_address d));
    cbn [fst snd]; intros [= <- <-];
    (split; [apply quiet_event; discriminate|]);
    cbn [fst snd connection]; eauto; discriminate.
Qed.

Lemma collect_quiet w st o st' :
  collect_active_sessions w st = (o, st') ->
  quiet st st' /\ connection st'.1 = connection st.1.
Proof.
  destruct st as [d tr].
  unfold collect_active_sessions, bind, connection_send_command, get_self,
    set_self, raise. cbn [fst snd].
  destruct (connection d) eqn:Ec.
  2:{ intros [= <- <-]. split; [apply quiet_refl|cbn [fst snd]; congruence]. }
  cbn [fst snd].
  destruct (send_command w tr "term len 0"); cbn [fst snd].
  2:{ intros [= <- <-]. split; [apply quiet_event; discriminate|cbn [fst snd]; congruence]. }
  destruct (send_command w _ "show access-session"); cbn [fst snd];
    intros [= <- <-]; cbn [fst snd connection];
    (split; [|congruence]);
    (eapply quiet_trans; [|apply (quiet_event d); discriminate]);
    apply (quiet_event d d); discriminate.
Qed.

Lemma details_quiet w st o st' :
  collect_active_sessions_details w st = (o, st') ->
  quiet st st' /\ connection st'.1 = connection st.1.
Proof.
  destruct st as [d tr]. destruct st' as [d' tr'].
  unfold collect_active_sessions_details, bind, get_self, raise. cbn [fst snd].
  destruct (connection d) eqn:Ec.
  2:{ intros [= <- <- <-]. split; [apply quiet_refl|cbn [fst snd]; congruence]. }
  intros H. split.
  - destruct (for_each_no_disconnect _ _ _ _ _ _ _ H) as (new & -> & Hn).
    now exists new.
  - destruct (for_each_frame _ _ _ _ _ _ _ H) as ((_ & F & _) & _). cbn [fst snd]. congruence.
Qed.

Lemma quiet_from_nil d st' : quiet (d, []) st' -> ~ In EvDisconnect st'.2.
Proof. intros (new & -> & H). exact H. Qed.

Lemma bind_inv {A B} (c : M A) (k : A -> M B) st o st' :
  bind c k st = (o, st') ->
  (exists a st1, c st = (Ret a, st1) /\ k a st1 = (o, st'))
  \/ (exists e, c st = (Raise e, st') /\ o = Raise e).
Proof.
  unfold bind. destruct (c st) as [[a|e] st1].
  - intros H. left. now exists a, st1.
  - intros [= <- <-]. right. now exists e.
Qed.

Lemma main_close w ip o st :
  main w ip = (o, st) ->
  In EvDisconnect st.2 <-> ((exists result, o = Ret result) \/ o = Raise OSError).
Proof.
  assert (Hno : forall st', quiet (Device_init ip, []) st' ->
             forall e, e <> OSError ->
             In EvDisconnect st'.2
             <-> ((exists result, @Raise (gmap string Session) e = Ret result)
                  \/ @Raise (gmap string Session) e = Raise OSError)).
  { intros st' Hq e He. split.
    - intros H. now apply quiet_from_nil in Hq.
    - intros [[result H]|H]; [discriminate H|congruence]. }
  unfold main, main_body. intros H.
  apply bind_inv in H as [([] & st1 & E1 & H)|(e & E1 & ->)].
  2:{ pose proof (init_raises _ _ _ _ E1) as ->.
      apply init_quiet in E1 as [Q1 _]. apply Hno; [exact Q1|discriminate]. }
  apply init_quiet in E1 as [Q1 C1]. specialize (C1 eq_refl).
  apply bind_inv in H as [([] & st2 & E2 & H)|(e & E2 & ->)].
  2:{ pose proof (collect_raises _ _ _ _ E2) as He.
      apply collect_quiet in E2 as [Q2 _].
      apply Hno; [eapply quiet_trans; eassumption|exact He]. }
  apply collect_quiet in E2 as [Q2 C2].
  apply bind_inv in H as [([] & st3 & E3 & H)|(e & E3 & ->)].
  2:{ pose proof (details_raises _ _ _ _ E3) as He.
      apply details_quiet in E3 as [Q3 _].
      apply Hno; [|exact He].
      eapply quiet_trans; [exact Q1|]. eapply quiet_trans; eassumption. }
  apply details_quiet in E3 as [Q3 C3].
  assert (Hc : is_Some (connection st3.1)) by (rewrite C3, C2; exact C1).
  pose proof (quiet_trans _ _ _ Q1 (quiet_trans _ _ _ Q2 Q3)) as (new & En & Hn).
  destruct st3 as [d3 tr3]. cbn [fst snd] in *. subst tr3.
  destruct Hc as [h Hc].
  revert H.
  cbv [bind get_result get_self close_connection emit save_results ret fst snd].
  rewrite Hc.
  cbv [bind get_result get_self close_connection emit save_results ret fst snd].
  destruct (write_snapshot w _); intros [= <- <-]; cbn [fst snd]; split.
  - intros _. left. eauto.
  - intros _. apply in_or_app. left. apply in_or_app. right. now left.
  - intros _. now right.
  - intros _. apply in_or_app. left. apply in_or_app. right. now left.
Qed.

(** Claim C6, as the source has it.  [main] attempts to close the handle
    exactly in the runs that get through the inventory and every detail
    query: those that return the result, and those that fail only when the
    snapshot is written.  In every other run (the handle fails to open, or
    a query or the classification raises) the exception leaves [main] and
    no close is attempted. *)
Theorem C6_close_iff_queries_succeed (w : World) (ip : string) :
  In EvDisconnect (main w ip).2.2
  <-> ((exists result, (main w ip).1 = Ret result)
       \/ (main w ip).1 = Raise OSError).
Proof.
  destruct (main w ip) as [o st] eqn:E. cbn [fst snd].
  exact (main_close w ip o st E).
Qed.

(** ** [mac_normalization] *)

Example mac_normalization_doc_1 :
  mac_normalization "AA:BB:CC:DD:EE:FF" "." = "AABB.CCDD.EEFF".
Proof. vm_compute. reflexivity. Qed.

Example mac_normalization_doc_3 :
  mac_normalization "invalid" "." = "Error".
Proof. vm_compute. reflexivity. Qed.

Lemma mac_normalization_error (current_mac_address symbol : string) :
  String.length (strip_non_word current_mac_address) <> 12 ->
  mac_normalization current_mac_address symbol = "Error".
Proof.
  intros H. unfold mac_normalization.
  destruct (Nat.eqb_spec (String.length (strip_non_word current_mac_address)) 12);
    [contradiction|reflexivity].
Qed.

Lemma mac_normalization_groups (current_mac_address symbol : string) :
  String.length (strip_non_word current_mac_address) = 12 ->
  mac_normalization current_mac_address symbol
  = Str.slice 0 4 (strip_non_word current_mac_address) +:+ symbol
    +:+ Str.slice 4 4 (strip_non_word current_mac_address) +:+ symbol
    +:+ Str.slice 8 4 (strip_non_word current_mac_address).
Proof.
  intros H. unfold mac_normalization. rewrite H. reflexivity.
Qed.

Example mac_normalization_eleven :
  mac_normalization "AA:BB:CC:DD:EE:F" "." = "Error".
Proof. vm_compute. reflexivity. Qed.

(** Claim C9 does not hold of the source.  Only the number of word
    characters is checked: twelve letters that are not hexadecimal digits
    are no MAC address, and they are grouped and returned, not answered by
    [Error]. *)
Theorem C9_non_hex_accepted :
  Str.all Chr.is_hex (strip_non_word "GGGGGGGGGGGG") = false
  /\ mac_normalization "GGGGGGGGGGGG" "." = "GGGG.GGGG.GGGG"
  /\ mac_normalization "GGGGGGGGGGGG" "." <> "Error".
Proof.
  split; [vm_compute; reflexivity|].
  split; [vm_compute; reflexivity|]. vm_compute. discriminate.
Qed.

(** ** More about [mac_normalization] *)

Module NormFacts.

Lemma filter_app f a b :
  Str.filter f (a +:+ b) = Str.filter f a +:+ Str.filter f b.
Proof.
  induction a as [|c a IH]; [reflexivity|].
  simpl. destruct (f c); simpl; now rewrite IH.
Qed.

Lemma all_filter f s : Str.all f (Str.filter f s) = true.
Proof.
  induction s as [|c s IH]; [reflexivity|].
  simpl. destruct (f c) eqn:E; [simpl; now rewrite E|exact IH].
Qed.

Lemma filter_all f s : Str.all f s = true -> Str.filter f s = s.
Proof.
  induction s as [|c s IH]; [reflexivity|].
  simpl. intros H. apply andb_true_iff in H as [Hc Hs].
  rewrite Hc. now rewrite IH.
Qed.

Lemma filter_none f s :
  Str.all (fun c => negb (f c)) s = true -> Str.filter f s = "".
Proof.
  induction s as [|c s IH]; [reflexivity|].
  simpl. intros H. apply andb_true_iff in H as [Hc Hs].
  apply negb_true_iff in Hc. rewrite Hc. now apply IH.
Qed.

Lemma all_app f a b : Str.all f (a +:+ b) = Str.all f a && Str.all f b.
Proof.
  induction a as [|c a IH]; [reflexivity|].
  simpl. now rewrite IH, andb_assoc.
Qed.

Lemma all_take f n s : Str.all f s = true -> Str.all f (Str.take n s) = true.
Proof.
  revert s; induction n as [|n IH]; intros [|c s] H; try reflexivity.
  simpl in *. apply andb_true_iff in H as [Hc Hs]. rewrite Hc. now apply IH.
Qed.

Lemma all_drop f n s : Str.all f s = true -> Str.all f (Str.drop n s) = true.
Proof.
  revert s; induction n as [|n IH]; intros [|c s] H; try reflexivity; try exact H.
  simpl in *. apply andb_true_iff in H as [Hc Hs]. now apply IH.
Qed.

Lemma length_take n s : String.length (Str.take n s) = Nat.min n (String.length s).
Proof.
  revert s; induction n as [|n IH]; intros [|c s]; try reflexivity.
  simpl. now rewrite IH.
Qed.

Lemma length_drop n s : String.length (Str.drop n s) = String.length s - n.
Proof.
  revert s; induction n as [|n IH]; intros [|c s]; try reflexivity.
  simpl. now rewrite IH.
Qed.

Lemma length_filter f s : String.length (Str.filter f s) <= String.length s.
Proof.
  induction s as [|c s IH]; [reflexivity|].
  simpl. destruct (f c); simpl; lia.
Qed.

(** The three groups of a string of twelve characters. *)
Lemma groups_of_twelve s :
  String.length s = 12 ->
  Str.slice 0 4 s +:+ Str.slice 4 4 s +:+ Str.slice 8 4 s = s.
Proof.
  intros H. unfold Str.slice.
  do 12 (destruct s as [|? s]; [discriminate H|]).
  destruct s; [reflexivity|discriminate H].
Qed.

Lemma length_slice i n s :
  i + n <= String.length s -> String.length (Str.slice i n s) = n.
Proof.
  intros H. unfold Str.slice. rewrite length_take, length_drop. lia.
Qed.

Lemma all_slice f i n s :
  Str.all f s = true -> Str.all f (Str.slice i n s) = true.
Proof. intros H. unfold Str.slice. now apply all_take, all_drop. Qed.

Lemma strip_normalized (current_mac_address symbol : string) :
  String.length (strip_non_word current_mac_address) = 12 ->
  strip_non_word symbol = "" ->
  strip_non_word (mac_normalization current_mac_address symbol)
  = strip_non_word current_mac_address.
Proof.
  intros H Hs. rewrite (mac_normalization_groups _ _ H).
  unfold strip_non_word in *.
  set (s := Str.filter Chr.is_word current_mac_address) in *.
  rewrite !filter_app, Hs.
  rewrite !(filter_all Chr.is_word (Str.slice _ _ s))
    by (apply all_slice, all_filter).
  change ("" +:+ ?x) with x.
  now apply groups_of_twelve.
Qed.

Lemma mac_normalization_valid (current_mac_address symbol : string) :
  String.length (strip_non_word current_mac_address) = 12 ->
  mac_normalization current_mac_address symbol <> "Error".
Proof.
  intros H E. rewrite (mac_normalization_groups _ _ H) in E.
  apply (f_equal String.length) in E.
  rewrite !StrFacts.length_app in E.
  rewrite !length_slice in E by lia. simpl in E. lia.
Qed.

End NormFacts.

Import NormFacts.

(** Property X1.  [mac_normalization] answers [Error] exactly when the
    input does not hold twelve word characters (letters, digits and the
    underscore), whatever the separator: a grouped result is never the
    text [Error]. *)
Theorem mac_normalization_error_iff (current_mac_address symbol : string) :
  mac_normalization current_mac_address symbol = "Error"
  <-> String.length (strip_non_word current_mac_address) <> 12.
Proof.
  split; [|apply mac_normalization_error].
  intros E H. exact (mac_normalization_valid _ _ H E).
Qed.

(** Property X2.  When the input holds twelve word characters, the result
    is three groups of four characters joined by [symbol]; the groups, put
    together, are the word characters of the input in their order and
    their case, and the result is [12 + 2 * len(symbol)] characters long. *)
Theorem mac_normalization_groups_of_four (current_mac_address symbol : string) :
  String.length (strip_non_word current_mac_address) = 12 ->
  exists g1 g2 g3,
    mac_normalization current_mac_address symbol
    = g1 +:+ symbol +:+ g2 +:+ symbol +:+ g3
    /\ String.length g1 = 4 /\ String.length g2 = 4 /\ String.length g3 = 4
    /\ g1 +:+ g2 +:+ g3 = strip_non_word current_mac_address
    /\ String.length (mac_normalization current_mac_address symbol)
       = 12 + 2 * String.length symbol.
Proof.
  intros H.
  exists (Str.slice 0 4 (strip_non_word current_mac_address)),
         (Str.slice 4 4 (strip_non_word current_mac_address)),
         (Str.slice 8 4 (strip_non_word current_mac_address)).
  rewrite (mac_normalization_groups _ _ H).
  rewrite !StrFacts.length_app, !length_slice by lia.
  repeat split; try reflexivity; [now apply groups_of_twelve|lia].
Qed.

(** Property X2 on [aa-bb-cc-dd-ee-ff] and a colon. *)
Lemma mac_normalization_groups_of_four_witness :
  exists g1 g2 g3,
    mac_normalization "aa-bb-cc-dd-ee-ff" ":"
    = g1 +:+ ":" +:+ g2 +:+ ":" +:+ g3
    /\ String.length g1 = 4 /\ String.length g2 = 4 /\ String.length g3 = 4
    /\ g1 +:+ g2 +:+ g3 = "aabbccddeeff"
    /\ String.length (mac_normalization "aa-bb-cc-dd-ee-ff" ":") = 14.
Proof.
  apply (mac_normalization_groups_of_four "aa-bb-cc-dd-ee-ff" ":"). reflexivity.
Defined.

(** Property X3.  Normalizing a normalized address again, with any
    separator, gives what normalizing the input with that separator gives,
    provided the first separator holds no word character; an [Error]
    stays an [Error]. *)
Theorem mac_normalization_again (current_mac_address symbol symbol' : string) :
  strip_non_word symbol = "" ->
  mac_normalization (mac_normalization current_mac_address symbol) symbol'
  = mac_normalization current_mac_address symbol'.
Proof.
  intros Hs.
  destruct (Nat.eq_dec (String.length (strip_non_word current_mac_address)) 12)
    as [H|H].
  - unfold mac_normalization at 1 3.
    now rewrite (strip_normalized _ _ H Hs).
  - rewrite !(mac_normalization_error current_mac_address) by exact H.
    reflexivity.
Qed.

(** Property X3: from dots to colons. *)
Lemma mac_normalization_again_witness :
  mac_normalization (mac_normalization "AA:BB:CC:DD:EE:FF" ".") ":"
  = mac_normalization "AA:BB:CC:DD:EE:FF" ":".
Proof.
  apply (mac_normalization_again "AA:BB:CC:DD:EE:FF" "." ":"). reflexivity.
Defined.

(** Property X4.  Characters outside [\w] are ignored wherever they
    stand: a run [d] of them inserted at any place of the input does not
    change the result. *)
Theorem mac_normalization_delimiters (a d b symbol : string) :
  Str.all is_delimiter d = true ->
  mac_normalization (a +:+ d +:+ b) symbol = mac_normalization (a +:+ b) symbol.
Proof.
  intros Hd. unfold mac_normalization, strip_non_word.
  rewrite !filter_app. rewrite (filter_none Chr.is_word d Hd). reflexivity.
Qed.

(** Property X4 on a run of four delimiters. *)
Lemma mac_normalization_delimiters_witness :
  mac_normalization ("AABB" +:+ ":-. " +:+ "CCDDEEFF") "."
  = mac_normalization ("AABB" +:+ "CCDDEEFF") ".".
Proof.
  apply (mac_normalization_delimiters "AABB" ":-. " "CCDDEEFF" "."). reflexivity.
Defined.

(** ** What the inventory holds, whatever the device prints *)

Module ScanFacts.

Lemma findall_from_Forall (P : string -> Prop) p :
  (forall t r, match_here p t = Some r -> P (text t r)) ->
  forall s skip, Forall P (findall_from p s skip).
Proof.
  intros H s. induction s as [|a s IH]; intros skip.
  - simpl. destruct skip; [|constructor].
    destruct (match_here p "") as [r|] eqn:E; [|constructor].
    constructor; [|constructor]. now apply H.
  - destruct skip as [|k].
    + rewrite findall_from_here.
      destruct (match_here p (String a s)) as [r|] eqn:E; [|apply IH].
      constructor; [now apply H|apply IH].
    + rewrite findall_from_skip. apply IH.
Qed.

Lemma all_prefix_length f n s : all_prefix f n s = true -> n <= String.length s.
Proof.
  revert s; induction n as [|n IH]; intros [|a s] H; simpl in *;
    try lia; try discriminate.
  apply andb_true_iff in H as [_ H]. apply IH in H. lia.
Qed.

Lemma mac_prefix_length t : mac_prefix t = true -> 14 <= String.length t.
Proof.
  unfold mac_prefix. intros H.
  repeat (apply andb_true_iff in H as [H ?]).
  match goal with
  | X : all_prefix _ 4 (Str.drop 10 t) = true |- _ =>
      apply all_prefix_length in X; rewrite length_drop in X; lia
  end.
Qed.

Lemma mac_prefix_take t :
  mac_prefix t = true -> mac_shaped (Str.take 14 t) = true.
Proof.
  intros H. pose proof (mac_prefix_length t H) as L.
  do 14 (destruct t as [|? t]; [simpl in L; lia|]).
  unfold mac_shaped. apply andb_true_iff. split; [exact H|reflexivity].
Qed.

Lemma findall_mac_shaped s :
  Forall (fun m => mac_shaped m = true) (findall MAC_RE s).
Proof.
  apply findall_from_Forall. intros t r H.
  rewrite mac_match_here in H.
  destruct (mac_prefix t) eqn:E; [|discriminate H].
  injection H as <-. now apply mac_prefix_take.
Qed.

End ScanFacts.

Import ScanFacts.

(** Property X5.  Whatever the device prints, after
    [collect_active_sessions] has returned every entry of [mac_addresses]
    is a string of fourteen characters of the grammar [hex4.hex4.hex4]. *)
Theorem inventory_entries_shaped (w : World) (d d' : Device) (tr tr' : list event) :
  collect_active_sessions w (d, tr) = (Ret tt, (d', tr')) ->
  Forall (fun m => mac_shaped m = true) (mac_addresses d').
Proof.
  unfold collect_active_sessions, bind, get_self, set_self, connection_send_command.
  cbn [fst snd]. destruct (connection d); [|discriminate].
  cbn [fst snd]. destruct (send_command w tr "term len 0"); [|discriminate].
  cbn [fst snd].
  destruct (send_command w _ "show access-session") as [s|]; [|discriminate].
  cbn [fst snd]. intros [= <- <-]. cbn [mac_addresses].
  apply findall_mac_shaped.
Qed.

(** Property X5 on the sample switch. *)
Lemma inventory_entries_shaped_witness :
  Forall (fun m => mac_shaped m = true)
    (mac_addresses (collect_active_sessions w_ok (device_two, [])).2.1).
Proof.
  apply (inventory_entries_shaped w_ok device_two _ []
           (collect_active_sessions w_ok (device_two, [])).2.2).
  vm_compute. reflexivity.
Defined.

(** ** The inventory of every text *)

Module InventoryFacts.

Lemma findall_from_within (P : string -> Prop) p s :
  (forall pre t r, s = pre +:+ t -> match_here p t = Some r -> P (text t r)) ->
  forall skip, Forall P (findall_from p s skip).
Proof.
  induction s as [|a s IH]; intros H skip.
  - simpl. destruct skip; [|constructor].
    destruct (match_here p "") as [r|] eqn:E; [|constructor].
    constructor; [|constructor]. now apply (H "").
  - assert (H' : forall pre t r, s = pre +:+ t -> match_here p t = Some r ->
                   P (text t r)).
    { intros pre t r -> Hr. apply (H (String a pre)); [reflexivity|exact Hr]. }
    destruct skip as [|k].
    + rewrite findall_from_here.
      destruct (match_here p (String a s)) as [r|] eqn:E; [|now apply IH].
      constructor; [now apply (H "")|now apply IH].
    + rewrite findall_from_skip. now apply IH.
Qed.

(** A count that was found stands in the text, between the label and a
    line feed. *)
Lemma findall_count_within s :
  Forall (fun k => k <> "" /\ has_substring ("Session count = " +:+ k +:+ LF) s)
    (findall SESSION_COUNT_RE s).
Proof.
  apply findall_from_within. intros pre t r -> H.
  assert (E : match_text SESSION_COUNT_RE t = Some (text t r))
    by (unfold match_text; now rewrite H).
  rewrite count_match in E. unfold count_here in E.
  destruct (Str.starts_with "Session count = " t) eqn:E1; [|discriminate E].
  destruct (1 <=? run_length Digit (Str.drop 16 t)) eqn:E2; [|discriminate E].
  destruct (Str.starts_with LF
              (Str.drop (run_length Digit (Str.drop 16 t)) (Str.drop 16 t)))
    eqn:E3; [|discriminate E].
  cbn [andb] in E.
  assert (Et : text t r
               = Str.take (run_length Digit (Str.drop 16 t)) (Str.drop 16 t))
    by congruence.
  rewrite Et. clear E Et H.
  apply starts_with_drop in E1. change (String.length "Session count = ") with 16 in E1.
  apply starts_with_drop in E3.
  set (x := Str.drop 16 t) in *. set (n := run_length Digit x) in *.
  split.
  - apply Nat.leb_le in E2. destruct x as [|c x]; [simpl in n; subst n; lia|].
    destruct n; [lia|]. discriminate.
  - exists pre, (Str.drop (String.length LF) (Str.drop n x)).
    f_equal. rewrite !StrFacts.app_assoc. rewrite <- E3, take_drop. exact E1.
Qed.

Lemma findall_mac_scan_from s skip :
  findall_from MAC_RE s skip = mac_scan_from s skip.
Proof.
  revert skip; induction s as [|a s IH]; intros skip.
  - destruct skip; vm_compute; reflexivity.
  - destruct skip as [|k].
    + rewrite findall_from_here, mac_match_here. cbn [mac_scan_from].
      destruct (mac_prefix (String a s)).
      * unfold text. cbn [m_gs m_ge m_len pred]. now rewrite IH.
      * apply IH.
    + rewrite findall_from_skip. apply IH.
Qed.

Lemma below_forallb (f : nat -> bool) n :
  forallb f (seq 0 n) = true -> forall i, i < n -> f i = true.
Proof.
  intros H i Hi. rewrite forallb_forall in H. apply H. apply in_seq. lia.
Qed.

(** The one count label of the sample inventory. *)
Lemma count_label_two i : count_label_at inventory_two i = true -> i = 99.
Proof.
  intros Hi.
  assert (Hb : i < 130 \/ 130 <= i) by lia. destruct Hb as [Hb|Hb].
  - pose proof (below_forallb
                  (fun i => implb (count_label_at inventory_two i) (i =? 99)) 130
                  ltac:(vm_compute; reflexivity) i Hb) as H.
    cbv beta in H. rewrite Hi in H. simpl in H. now apply Nat.eqb_eq.
  - exfalso. unfold count_label_at in Hi.
    rewrite drop_all in Hi by (vm_compute; lia). discriminate Hi.
Qed.

(** The two MAC addresses of the sample inventory. *)
Lemma mac_at_two i : mac_at inventory_two i = true -> i = 45 \/ i = 76.
Proof.
  intros Hi.
  assert (Hb : i < 130 \/ 130 <= i) by lia. destruct Hb as [Hb|Hb].
  - pose proof (below_forallb
                  (fun i => implb (mac_at inventory_two i)
                              ((i =? 45) || (i =? 76))) 130
                  ltac:(vm_compute; reflexivity) i Hb) as H.
    cbv beta in H. rewrite Hi in H. simpl in H.
    apply orb_true_iff in H as [H|H]; apply Nat.eqb_eq in H; auto.
  - exfalso. unfold mac_at in Hi.
    rewrite drop_all in Hi by (vm_compute; lia). discriminate Hi.
Qed.

End InventoryFacts.

Import InventoryFacts.

(** Claim C2, with the patterns as the source writes them.  Whatever text
    the device answers to the inventory query, the inventory step
    succeeds, and:
    - every count it stores is a string that is not empty and stands in
      the text between [Session count = ] and a line feed, never an
      invented value; on a text without the label it stores no count, and
      on a text with the label once, followed by decimal digits [K] and a
      line feed, it stores [K] and nothing else;
    - the MAC list is the scan of the text from left to right for the
      substrings of the grammar [hex4.hex4.hex4], each one taken after the
      end of the one before it; when no two such substrings overlap, it
      is the list of all of them, in the order of their first character. *)
Theorem C2_parse_inventory_amended (w : World) (d : Device) (tr : list event)
    (h : Handle) (o1 s : string) :
  connection d = Some h ->
  send_command w tr "term len 0" = Output o1 ->
  send_command w (tr ++ [EvSend "term len 0" (Output o1)]) "show access-session"
    = Output s ->
  exists d' tr',
    collect_active_sessions w (d, tr) = (Ret tt, (d', tr'))
    /\ Forall (fun k => k <> ""
                        /\ has_substring ("Session count = " +:+ k +:+ LF) s)
         (session_count d')
    /\ (forall count, count_line s count ->
          session_count d' = match count with Some k => [k] | None => [] end)
    /\ mac_addresses d' = mac_scan s
    /\ (macs_apart s -> mac_addresses d' = mac_substrings s).
Proof.
  intros Hc H1 H2.
  unfold collect_active_sessions, bind, get_self, set_self, connection_send_command.
  cbn [fst snd]. rewrite Hc. cbn [fst snd]. rewrite H1. cbn [fst snd].
  rewrite H2. cbn [fst snd].
  eexists _, _. split; [reflexivity|]. cbn [session_count mac_addresses].
  split; [apply findall_count_within|].
  split; [intros count Hcount; now apply findall_count|].
  split; [apply findall_mac_scan_from|apply findall_mac].
Qed.

(** Claim C2 on the sample inventory: a count line and two MAC
    addresses. *)
Lemma C2_parse_inventory_amended_witness :
  exists d' tr',
    collect_active_sessions w_ok (device_connected, []) = (Ret tt, (d', tr'))
    /\ session_count d' = ["2"]
    /\ mac_addresses d' = ["0050.5699.1234"; "aaaa.bbbb.cccc"]
    /\ mac_substrings inventory_two = ["0050.5699.1234"; "aaaa.bbbb.cccc"].
Proof.
  destruct (C2_parse_inventory_amended w_ok device_connected []
              (ConnectHandler "10.0.0.1") "" inventory_two)
    as (d' & tr' & E & _ & Hcount & Hscan & Hall); try reflexivity.
  exists d', tr'. split; [exact E|].
  assert (Hap : macs_apart inventory_two).
  { intros i j Hi Hj Hlt. apply mac_at_two in Hi, Hj. lia. }
  split.
  - apply (Hcount (Some "2")).
    exists ("Interface  MAC Address     Method" +:+ LF
            +:+ "Gi1/0/1    0050.5699.1234  mab" +:+ LF
            +:+ "Gi1/0/2    aaaa.bbbb.cccc  dot1x" +:+ LF +:+ LF), "".
    split; [reflexivity|]. split; [discriminate|]. split; [reflexivity|].
    intros i Hi. now apply count_label_two in Hi.
  - split; [rewrite Hscan; vm_compute; reflexivity|].
    rewrite <- (Hall Hap), Hscan. vm_compute. reflexivity.
Defined.

(** Claim C2 as it is worded does not hold: the text below contains
    [Session count = 1] and one MAC address, its last line is not ended
    by a line feed, and the inventory step stores the MAC address and no
    count: the pattern of the source asks for a line feed right after the
    digits. *)
Lemma C2_count_needs_line_feed :
  has_substring "Session count = 1" inventory_unterminated
  /\ mac_substrings inventory_unterminated = ["0050.5699.1234"]
  /\ exists d' tr',
       collect_active_sessions w_unterminated (device_connected, [])
       = (Ret tt, (d', tr'))
       /\ session_count d' = []
       /\ mac_addresses d' = ["0050.5699.1234"].
Proof.
  split; [exists ("Gi1/0/1    0050.5699.1234  mab" +:+ LF), ""; reflexivity|].
  split; [vm_compute; reflexivity|].
  eexists _, _. split; [vm_compute; reflexivity|]. split; reflexivity.
Qed.

(** ** The shape of a run *)

Module ShapeFacts.

Section WithWorld.
Variable w : World.

Lemma findall_head_shaped t mac0 macs :
  findall MAC_RE t = mac0 :: macs -> mac_shaped mac0 = true.
Proof.
  intros E. pose proof (findall_mac_shaped t) as H. rewrite E in H.
  now inversion H.
Qed.

(** What the classifier adds to the trace and what it returns. *)
Lemma classify_shape each t d tr o d' tr' :
  classify w each t (d, tr) = (o, (d', tr')) ->
  d' = d
  /\ (exists extra, tr' = tr ++ extra /\ lookup_events extra)
  /\ (forall s, o = Ret s -> without_vendor s = session_of_details each t).
Proof.
  unfold classify, vendor_lookup.
  destruct (findall METHOD_RE t) as [|m0 ms].
  { intros [= <- <- <-]. split; [reflexivity|]. split.
    - exists []. rewrite app_nil_r. split; [reflexivity|constructor].
    - intros s [= <-]. reflexivity. }
  destruct (String.eqb (str_lower m0) "mab").
  2:{ intros [= <- <- <-]. split; [reflexivity|]. split.
      - exists []. rewrite app_nil_r. split; [reflexivity|constructor].
      - intros s [= <-]. reflexivity. }
  destruct (findall MAC_RE t) as [|mac0 macs] eqn:Emac.
  { intros [= <- <- <-]. split; [reflexivity|]. split.
    - exists []. rewrite app_nil_r. split; [reflexivity|constructor].
    - intros s [=]. }
  pose proof (findall_head_shaped _ _ _ Emac) as Hshape.
  unfold bind, requests_get_call, time_sleep, emit, ret. cbn [fst snd].
  destruct (requests_get w tr (vendor_url mac0)) as [code body|];
    cbn [fst snd]; intros [= <- <- <-]; (split; [reflexivity|]); split.
  - eexists. split; [now rewrite <- List.app_assoc|]. now constructor.
  - intros s [= <-]. reflexivity.
  - eexists. split; [reflexivity|]. now constructor.
  - intros s [= <-]. reflexivity.
Qed.

(** One turn of the loop. *)
Lemma details_body_shape each d tr o d1 tr1 :
  details_body w each (d, tr) = (o, (d1, tr1)) ->
  exists r extra,
    tr1 = tr ++ EvSend (detail_command each) r :: extra
    /\ lookup_events extra
    /\ (dict_result d1 = dict_result d
        \/ exists t s,
            r = Output t /\ has_marker t = true
            /\ without_vendor s = session_of_details each t
            /\ dict_result d1 = <[each := s]> (dict_result d)).
Proof.
  unfold details_body, bind at 1, connection_send_command. cbn [fst snd].
  destruct (send_command w tr (detail_command each)) as [t|] eqn:E.
  2:{ intros [= <- <- <-]. exists CommandRaised, [].
      split; [reflexivity|]. split; [constructor|now left]. }
  destruct (has_marker t) eqn:Hm.
  2:{ intros [= <- <- <-]. exists (Output t), [].
      split; [reflexivity|]. split; [constructor|now left]. }
  unfold bind.
  destruct (classify w each t (d, tr ++ [EvSend (detail_command each) (Output t)]))
    as [oc [dc trc]] eqn:Ec.
  destruct (classify_shape _ _ _ _ _ _ _ Ec) as (-> & (extra & -> & Hex) & Hs).
  destruct oc as [s|e].
  - unfold get_self, set_self. cbn [fst snd]. intros [= <- <- <-].
    exists (Output t), extra. split; [now rewrite <- List.app_assoc|].
    split; [exact Hex|]. right. exists t, s. auto.
  - intros [= <- <- <-]. exists (Output t), extra.
    split; [now rewrite <- List.app_assoc|]. split; [exact Hex|now left].
Qed.

(** The loop: the MACs that were queried are a prefix of the list, the
    whole list when the loop ends normally. *)
Lemma for_each_shape l d tr o d' tr' :
  for_each l (details_body w) (d, tr) = (o, (d', tr')) ->
  exists l1 l2 new,
    l = l1 ++ l2 /\ tr' = tr ++ new /\ detail_events l1 new
    /\ (o = Ret tt -> l2 = []).
Proof.
  revert d tr; induction l as [|each l IH]; intros d tr H.
  - injection H as <- <- <-. exists [], [], [].
    split; [reflexivity|]. split; [now rewrite app_nil_r|].
    split; [constructor|reflexivity].
  - rewrite for_each_cons in H.
    destruct (details_body w each (d, tr)) as [o1 [d1 tr1]] eqn:E.
    destruct (details_body_shape _ _ _ _ _ _ E) as (r & extra & -> & Hex & _).
    destruct o1 as [[]|e].
    + destruct (IH _ _ H) as (l1 & l2 & new & -> & -> & Hnew & Hret).
      exists (each :: l1), l2, (EvSend (detail_command each) r :: extra ++ new).
      split; [reflexivity|]. split.
      { rewrite <- !List.app_assoc. reflexivity. }
      split; [now constructor|exact Hret].
    + injection H as <- <- <-.
      exists [each], l, (EvSend (detail_command each) r :: extra ++ []).
      split; [reflexivity|]. split; [now rewrite app_nil_r|].
      split; [constructor; [exact Hex|constructor]|discriminate].
Qed.

(** Where the record under a key comes from. *)
Lemma for_each_records l d tr o d' tr' :
  for_each l (details_body w) (d, tr) = (o, (d', tr')) ->
  exists new,
    tr' = tr ++ new
    /\ forall m s, dict_result d' !! m = Some s ->
         dict_result d !! m = Some s
         \/ exists t, In (EvSend (detail_command m) (Output t)) new
                      /\ has_marker t = true
                      /\ without_vendor s = session_of_details m t.
Proof.
  revert d tr; induction l as [|each l IH]; intros d tr H.
  - injection H as <- <- <-. exists []. rewrite app_nil_r. auto.
  - rewrite for_each_cons in H.
    destruct (details_body w each (d, tr)) as [o1 [d1 tr1]] eqn:E.
    destruct (details_body_shape _ _ _ _ _ _ E) as (r & extra & -> & Hex & Hd).
    assert (Hstep : forall m s, dict_result d1 !! m = Some s ->
              dict_result d !! m = Some s
              \/ exists t, EvSend (detail_command m) (Output t)
                           = EvSend (detail_command each) r
                           /\ has_marker t = true
                           /\ without_vendor s = session_of_details m t).
    { intros m s Hm. destruct Hd as [Hd|(t & s0 & -> & Ht & Hs & Hd)].
      - left. now rewrite <- Hd.
      - rewrite Hd in Hm. destruct (decide (each = m)) as [<-|Hne].
        + rewrite lookup_insert_eq in Hm. injection Hm as <-.
          right. exists t. auto.
        + rewrite lookup_insert_ne in Hm by exact Hne. now left. }
    destruct o1 as [[]|e].
    + destruct (IH _ _ H) as (new & -> & Hnew).
      exists (EvSend (detail_command each) r :: extra ++ new).
      split; [now rewrite <- !List.app_assoc|].
      intros m s Hm. destruct (Hnew _ _ Hm) as [H1|(t & Hin & Ht & Hs)].
      * destruct (Hstep _ _ H1) as [H0|(t & Heq & Ht & Hs)]; [now left|].
        right. exists t. split; [left; now symmetry|auto].
      * right. exists t. split; [|auto].
        right. apply in_or_app. now right.
    + injection H as <- <- <-.
      exists (EvSend (detail_command each) r :: extra).
      split; [reflexivity|].
      intros m s Hm. destruct (Hstep _ _ Hm) as [H0|(t & Heq & Ht & Hs)];
        [now left|].
      right. exists t. split; [left; now symmetry|auto].
Qed.

End WithWorld.

(** *** The events of the loop *)

Lemma commands_app a b : commands (a ++ b) = commands a ++ commands b.
Proof.
  induction a as [|e a IH]; [reflexivity|].
  destruct e; simpl; now rewrite IH.
Qed.

Lemma commands_lookup extra : lookup_events extra -> commands extra = [].
Proof. intros []; reflexivity. Qed.

Lemma commands_detail l new :
  detail_events l new -> commands new = List.map detail_command l.
Proof.
  induction 1 as [|each r extra l new Hex _ IH]; [reflexivity|].
  simpl. rewrite commands_app, (commands_lookup _ Hex), IH. reflexivity.
Qed.

Lemma no_disconnect_lookup extra : lookup_events extra -> ~ In EvDisconnect extra.
Proof.
  intros [] Hin; simpl in Hin;
    repeat (destruct Hin as [Hin|Hin]; [discriminate Hin|]); exact Hin.
Qed.

Lemma no_disconnect_detail l new : detail_events l new -> ~ In EvDisconnect new.
Proof.
  induction 1 as [|each r extra l new Hex _ IH]; [intros []|].
  intros [Hin|Hin]; [discriminate Hin|].
  apply in_app_or in Hin as [Hin|Hin]; [|auto].
  exact (no_disconnect_lookup _ Hex Hin).
Qed.

Lemma lookups_detail l new url r :
  detail_events l new -> In (EvGet url r) new ->
  exists mac, url = vendor_url mac /\ mac_shaped mac = true.
Proof.
  induction 1 as [|each r0 extra l new Hex _ IH]; [intros []|].
  intros [Hin|Hin]; [discriminate Hin|].
  apply in_app_or in Hin as [Hin|Hin]; [|auto].
  destruct Hex as [|mac c b Hm|mac Hm]; simpl in Hin.
  - destruct Hin.
  - destruct Hin as [Hin|[Hin|[]]]; [|discriminate Hin].
    injection Hin as <- <-. eauto.
  - destruct Hin as [Hin|[]]. injection Hin as <- <-. eauto.
Qed.

Lemma throttled_detail l new :
  detail_events l new ->
  (forall url, ~ In (EvGet url RequestException) new) ->
  forall rest, throttled_from false (new ++ rest) = throttled_from false rest.
Proof.
  induction 1 as [|each r extra l new Hex _ IH]; [reflexivity|].
  intros Hno rest.
  assert (Hno' : forall url, ~ In (EvGet url RequestException) new).
  { intros url Hin. apply (Hno url). right. apply in_or_app. now right. }
  destruct Hex as [|mac c b Hm|mac Hm].
  - simpl. now apply IH.
  - simpl. now apply IH.
  - exfalso. apply (Hno (vendor_url mac)). right. now left.
Qed.

End ShapeFacts.

Import ShapeFacts.

(** Every run of [main]: the connection fails; or a query of the inventory
    fails; or the loop over the MACs of the inventory text [s] runs, and
    [main] ends with the exception of the loop or goes on to close the
    connection and write the snapshot. *)
Lemma main_runs (w : World) (ip : string) o d tr :
  main w ip = (o, (d, tr)) ->
  (exists r, r <> Connected /\ o = Raise ConnectionError
             /\ d = Device_init ip /\ tr = [EvConnect ip r])
  \/ (o = Raise CommandException /\ mac_addresses d = [] /\ dict_result d = ∅
      /\ connection d = Some (ConnectHandler ip)
      /\ ((tr = [EvConnect ip Connected; EvSend "term len 0" CommandRaised])
          \/ exists o1,
              tr = [EvConnect ip Connected; EvSend "term len 0" (Output o1);
                    EvSend "show access-session" CommandRaised]))
  \/ exists o1 s l1 l2 new,
      let pre := [EvConnect ip Connected; EvSend "term len 0" (Output o1);
                  EvSend "show access-session" (Output s)] in
      mac_addresses d = findall MAC_RE s
      /\ findall MAC_RE s = l1 ++ l2
      /\ detail_events l1 new
      /\ connection d = Some (ConnectHandler ip)
      /\ (forall m rec, dict_result d !! m = Some rec ->
            exists t, In (EvSend (detail_command m) (Output t)) new
                      /\ has_marker t = true
                      /\ without_vendor rec = session_of_details m t)
      /\ (forall m, is_Some (dict_result d !! m) -> In m (findall MAC_RE s))
      /\ ((exists e, o = Raise e /\ e <> OSError /\ tr = pre ++ new)
          \/ (l2 = []
              /\ exists ok,
                  tr = pre ++ new ++ [EvDisconnect; EvSnapshot (dict_result d) ok]
                  /\ o = if ok then Ret (dict_result d) else Raise OSError)).
Proof.
  unfold main, main_body, bind, init_connection_ssh, try_to_connect_ssh,
    get_self, set_self, bind, ret, raise.
  cbn [fst snd Device_init current_ip_address].
  destruct (ssh_connect w [] ip) eqn:Ec;
    try (intros [= <- <- <-]; left; eexists;
         (split; [|split; [reflexivity|split; reflexivity]]); discriminate).
  cbn [fst snd app]. unfold collect_active_sessions, bind, get_self, set_self,
    connection_send_command, ret, raise.
  cbn [fst snd connection app].
  match goal with
  | |- context [send_command w ?t "term len 0"] =>
      destruct (send_command w t "term len 0") as [o1|] eqn:E1
  end; cbn [fst snd app].
  2:{ intros [= <- <- <-]. right; left. repeat split. now left. }
  match goal with
  | |- context [send_command w ?t "show access-session"] =>
      destruct (send_command w t "show access-session") as [s|] eqn:E2
  end; cbn [fst snd app].
  2:{ intros [= <- <- <-]. right; left. repeat split. right. now exists o1. }
  cbn [current_ip_address dict_result connection].
  unfold collect_active_sessions_details, bind, get_self.
  cbn [fst snd connection mac_addresses].
  match goal with
  | |- context [for_each ?l ?b ?st] => destruct (for_each l b st) as [o' [d2 tr2]] eqn:E
  end.
  destruct (for_each_shape w _ _ _ _ _ _ E) as (l1 & l2 & new & Hl & Htr & Hnew & Hret).
  destruct (for_each_records w _ _ _ _ _ _ E) as (new' & Htr' & Hrec).
  assert (new' = new) as -> by (rewrite Htr in Htr'; now apply app_inv_head in Htr').
  destruct (for_each_frame w _ _ _ _ _ _ E) as ((F1 & F2 & F3 & F4) & Hout & _).
  cbn [current_ip_address connection session_count mac_addresses dict_result
         Device_init] in F1, F2, F3, F4, Hout, Hrec.
  assert (Hkeys : forall m, is_Some (dict_result d2 !! m) -> In m (findall MAC_RE s)).
  { intros m Hm. destruct (in_dec string_dec m (findall MAC_RE s)) as [Hin|Hin];
      [exact Hin|].
    rewrite (Hout m Hin), lookup_empty in Hm. destruct Hm as [? [=]]. }
  assert (Hprov : forall m rec, dict_result d2 !! m = Some rec ->
            exists t, In (EvSend (detail_command m) (Output t)) new
                      /\ has_marker t = true
                      /\ without_vendor rec = session_of_details m t).
  { intros m rec Hm. destruct (Hrec _ _ Hm) as [H0|H0]; [|exact H0].
    rewrite lookup_empty in H0. discriminate H0. }
  destruct o' as [[]|e].
  - unfold get_result, close_connection, save_results, bind, get_self, emit, ret.
    cbn [fst snd]. rewrite F2. cbn [fst snd].
    match goal with
    | |- context [write_snapshot w ?t] => destruct (write_snapshot w t) eqn:Ew
    end; intros [= <- <- <-];
      right; right; exists o1, s, l1, l2, new;
      (split; [exact F4|]); (split; [exact Hl|]); (split; [exact Hnew|]);
      (split; [exact F2|]); (split; [exact Hprov|]); (split; [exact Hkeys|]);
      right; (split; [now apply Hret|]).
    + exists true. rewrite Htr, <- !List.app_assoc. split; reflexivity.
    + exists false. rewrite Htr, <- !List.app_assoc. split; reflexivity.
  - intros [= <- <- <-].
    right; right; exists o1, s, l1, l2, new.
    split; [exact F4|]. split; [exact Hl|]. split; [exact Hnew|].
    split; [exact F2|]. split; [exact Hprov|]. split; [exact Hkeys|].
    left. exists e. split; [reflexivity|]. split; [|exact Htr].
    exact (for_each_raises w _ _ _ _ _ E).
Qed.

Lemma firstn_length_app {A} (a b : list A) : firstn (length a) (a ++ b) = a.
Proof. induction a as [|x a IH]; [reflexivity|]. simpl. now rewrite IH. Qed.

(** Property X6.  The commands a run of [main] sends to the device are
    a prefix of this list, in its order: [term len 0],
    [show access-session], then the detail query of each MAC of the
    inventory, in the order of the inventory.  When [main] returns a
    result, the whole list was sent. *)
Theorem main_command_order (w : World) (ip : string) o d tr :
  main w ip = (o, (d, tr)) ->
  exists k,
    commands tr
    = firstn k ("term len 0" :: "show access-session"
                :: List.map detail_command (mac_addresses d))
    /\ ((exists result, o = Ret result) ->
        commands tr
        = "term len 0" :: "show access-session"
          :: List.map detail_command (mac_addresses d)).
Proof.
  intros H. destruct (main_runs w ip o d tr H)
    as [(r & Hr & -> & -> & ->)
       |[(-> & Hm & _ & _ & Htr)
        |(o1 & s & l1 & l2 & new & Hm & Hl & Hnew & _ & _ & _ & Hend)]].
  - exists 0. split; [reflexivity|]. intros [result [=]].
  - rewrite Hm. destruct Htr as [->|[o1 ->]].
    + exists 1. split; [reflexivity|]. intros [result [=]].
    + exists 2. split; [reflexivity|]. intros [result [=]].
  - rewrite Hm, Hl.
    pose proof (commands_detail _ _ Hnew) as Hc.
    exists (2 + length (List.map detail_command l1)).
    destruct Hend as [(e & -> & _ & ->)|(-> & ok & -> & _)].
    + rewrite commands_app. simpl. rewrite Hc, List.map_app, firstn_length_app.
      split; [reflexivity|]. intros [result [=]].
    + rewrite !commands_app. simpl. rewrite Hc, !app_nil_r.
      split; [|reflexivity].
      now rewrite firstn_all.
Qed.

(** Property X6 on the sample switch. *)
Lemma main_command_order_witness :
  exists k,
    commands (main w_ok "10.0.0.1").2.2
    = firstn k ("term len 0" :: "show access-session"
                :: List.map detail_command
                     (mac_addresses (main w_ok "10.0.0.1").2.1))
    /\ ((exists result, (main w_ok "10.0.0.1").1 = Ret result) ->
        commands (main w_ok "10.0.0.1").2.2
        = "term len 0" :: "show access-session"
          :: List.map detail_command
               (mac_addresses (main w_ok "10.0.0.1").2.1)).
Proof.
  apply (main_command_order w_ok "10.0.0.1").
  vm_compute. reflexivity.
Defined.

(** Property X7.  In a run of [main] in which no vendor lookup raises, no
    lookup is issued before the pause of one second owed to the lookup
    before it, whether the run returns a result or raises. *)
Theorem main_throttled (w : World) (ip : string) o d tr :
  main w ip = (o, (d, tr)) ->
  (forall url, ~ In (EvGet url RequestException) tr) ->
  throttled tr = true.
Proof.
  intros H Hno. destruct (main_runs w ip o d tr H)
    as [(r & Hr & -> & -> & ->)
       |[(-> & Hm & _ & _ & Htr)
        |(o1 & s & l1 & l2 & new & Hm & Hl & Hnew & _ & _ & _ & Hend)]].
  - reflexivity.
  - destruct Htr as [->|[o1 ->]]; reflexivity.
  - assert (Hnew' : forall url, ~ In (EvGet url RequestException) new).
    { intros url Hin. apply (Hno url).
      destruct Hend as [(e & _ & _ & ->)|(_ & ok & -> & _)];
        apply in_or_app; right; [exact Hin|apply in_or_app; now left]. }
    destruct Hend as [(e & _ & _ & ->)|(_ & ok & -> & _)]; unfold throttled; simpl.
    + rewrite <- (app_nil_r new). now rewrite (throttled_detail _ _ Hnew Hnew').
    + now rewrite (throttled_detail _ _ Hnew Hnew').
Qed.

(** Property X7 on a run with two lookups, both answered. *)
Lemma main_throttled_witness :
  In (EvGet "https://api.macvendors.com/0050.5699.1234" (Response 200 "VMware, Inc."))
    (main w_two_lookups "10.0.0.1").2.2
  /\ In (EvGet "https://api.macvendors.com/aaaa.bbbb.cccc" (Response 200 "VMware, Inc."))
       (main w_two_lookups "10.0.0.1").2.2
  /\ throttled (main w_two_lookups "10.0.0.1").2.2 = true.
Proof.
  split; [vm_compute; do 4 right; left; reflexivity|].
  split; [vm_compute; do 7 right; left; reflexivity|].
  apply (main_throttled w_two_lookups "10.0.0.1" (main w_two_lookups "10.0.0.1").1
           (main w_two_lookups "10.0.0.1").2.1).
  - vm_compute. reflexivity.
  - intros url H. vm_compute in H.
    repeat (destruct H as [H|H]; [discriminate H|]). exact H.
Defined.

(** Property X8.  Every HTTP request of a run of [main] goes to
    [https://api.macvendors.com/] followed by a MAC of the grammar
    [hex4.hex4.hex4]: nothing else of what the device printed reaches the
    URL. *)
Theorem main_lookup_urls (w : World) (ip : string) o d tr url r :
  main w ip = (o, (d, tr)) ->
  In (EvGet url r) tr ->
  exists mac, url = vendor_url mac /\ mac_shaped mac = true.
Proof.
  intros H Hin. destruct (main_runs w ip o d tr H)
    as [(r0 & Hr & -> & -> & ->)
       |[(-> & Hm & _ & _ & Htr)
        |(o1 & s & l1 & l2 & new & Hm & Hl & Hnew & _ & _ & _ & Hend)]].
  - destruct Hin as [Hin|[]]. discriminate Hin.
  - destruct Htr as [->|[o1 ->]]; simpl in Hin;
      repeat (destruct Hin as [Hin|Hin]; [discriminate Hin|]); destruct Hin.
  - assert (Hin' : In (EvGet url r) new).
    { destruct Hend as [(e & _ & _ & ->)|(_ & ok & -> & _)].
      - apply in_app_or in Hin as [Hin|Hin]; [|exact Hin].
        simpl in Hin.
        repeat (destruct Hin as [Hin|Hin]; [discriminate Hin|]). destruct Hin.
      - apply in_app_or in Hin as [Hin|Hin].
        { simpl in Hin.
          repeat (destruct Hin as [Hin|Hin]; [discriminate Hin|]). destruct Hin. }
        apply in_app_or in Hin as [Hin|Hin]; [exact Hin|].
        simpl in Hin.
        repeat (destruct Hin as [Hin|Hin]; [discriminate Hin|]). destruct Hin. }
    exact (lookups_detail _ _ _ _ Hnew Hin').
Qed.

(** Property X8 on the lookup of the sample run. *)
Lemma main_lookup_urls_witness :
  exists mac,
    "https://api.macvendors.com/0050.5699.1234" = vendor_url mac
    /\ mac_shaped mac = true.
Proof.
  apply (main_lookup_urls w_ok "10.0.0.1" (main w_ok "10.0.0.1").1
           (main w_ok "10.0.0.1").2.1 (main w_ok "10.0.0.1").2.2
           "https://api.macvendors.com/0050.5699.1234"
           (Response 200 "VMware, Inc.")).
  - vm_compute. reflexivity.
  - vm_compute. do 4 right. left. reflexivity.
Defined.

(** Property X9.  In the result [main] returns, the record under the key
    [m] is, its vendor apart, the record parsed from a text the device
    answered to the detail query for [m], and that text holds a failure
    marker. *)
Theorem main_record_provenance (w : World) (ip : string) result d tr m rec :
  main w ip = (Ret result, (d, tr)) ->
  result !! m = Some rec ->
  exists t,
    In (EvSend (detail_command m) (Output t)) tr
    /\ has_marker t = true
    /\ without_vendor rec = session_of_details m t.
Proof.
  intros H Hm. destruct (main_runs w ip _ d tr H)
    as [(r0 & Hr & [=] & _)
       |[([=] & _)
        |(o1 & s & l1 & l2 & new & _ & Hl & Hnew & _ & Hprov & _ & Hend)]].
  destruct Hend as [(e & [=] & _)|(_ & ok & -> & Ho)].
  destruct ok; [|discriminate Ho]. injection Ho as ->.
  destruct (Hprov _ _ Hm) as (t & Hin & Ht & Hs).
  exists t. split; [|auto].
  apply in_or_app. right. apply in_or_app. now left.
Qed.

(** Property X9 on the record of the sample run. *)
Lemma main_record_provenance_witness :
  exists t,
    In (EvSend (detail_command "0050.5699.1234") (Output t))
      (main w_ok "10.0.0.1").2.2
    /\ has_marker t = true
    /\ without_vendor
         (with_vendor
            (session_of_details "0050.5699.1234" details_unauthorized)
            "VMware, Inc.")
       = session_of_details "0050.5699.1234" t.
Proof.
  apply (main_record_provenance w_ok "10.0.0.1" (dict_result (main w_ok "10.0.0.1").2.1)
           (main w_ok "10.0.0.1").2.1).
  - vm_compute. reflexivity.
  - vm_compute. reflexivity.
Defined.

(** Property X10.  When [main] returns a result, it is the [dict_result]
    of the device, and the run ends with the disconnect, the only one of
    the run, and then the snapshot of that same result, written with
    success.  No command is sent after the disconnect, and the attribute
    [connection] still holds the handle. *)
Theorem main_success (w : World) (ip : string) result d tr :
  main w ip = (Ret result, (d, tr)) ->
  result = dict_result d
  /\ connection d = Some (ConnectHandler ip)
  /\ exists tr0,
      tr = tr0 ++ [EvDisconnect; EvSnapshot result true]
      /\ ~ In EvDisconnect tr0
      /\ commands tr0 = commands tr.
Proof.
  intros H. destruct (main_runs w ip _ d tr H)
    as [(r0 & Hr & [=] & _)
       |[([=] & _)
        |(o1 & s & l1 & l2 & new & _ & Hl & Hnew & Hc & _ & _ & Hend)]].
  destruct Hend as [(e & [=] & _)|(_ & ok & -> & Ho)].
  destruct ok; [|discriminate Ho]. injection Ho as ->.
  split; [reflexivity|]. split; [exact Hc|].
  eexists. split; [now rewrite List.app_assoc|]. split.
  - intros Hin. apply in_app_or in Hin as [Hin|Hin].
    + simpl in Hin.
      repeat (destruct Hin as [Hin|Hin]; [discriminate Hin|]). destruct Hin.
    + exact (no_disconnect_detail _ _ Hnew Hin).
  - rewrite !commands_app. simpl. now rewrite !app_nil_r.
Qed.

(** Property X10 on the sample switch. *)
Lemma main_success_witness :
  (main w_ok "10.0.0.1").1 = Ret (dict_result (main w_ok "10.0.0.1").2.1)
  /\ connection (main w_ok "10.0.0.1").2.1 = Some (ConnectHandler "10.0.0.1").
Proof.
  destruct (main_success w_ok "10.0.0.1" (dict_result (main w_ok "10.0.0.1").2.1)
              (main w_ok "10.0.0.1").2.1 (main w_ok "10.0.0.1").2.2)
    as (_ & Hc & _).
  - vm_compute. reflexivity.
  - split; [vm_compute; reflexivity|exact Hc].
Defined.

(** Property X11.  Every key of the result [main] returns is a MAC of the
    inventory, of the grammar [hex4.hex4.hex4]. *)
Theorem main_result_keys (w : World) (ip : string) result d tr m :
  main w ip = (Ret result, (d, tr)) ->
  is_Some (result !! m) ->
  In m (mac_addresses d) /\ mac_shaped m = true.
Proof.
  intros H Hm. destruct (main_runs w ip _ d tr H)
    as [(r0 & Hr & [=] & _)
       |[([=] & _)
        |(o1 & s & l1 & l2 & new & Hmac & Hl & Hnew & _ & _ & Hkeys & Hend)]].
  destruct Hend as [(e & [=] & _)|(_ & ok & -> & Ho)].
  destruct ok; [|discriminate Ho]. injection Ho as ->.
  pose proof (Hkeys _ Hm) as Hin. rewrite Hmac. split; [exact Hin|].
  pose proof (findall_mac_shaped s) as Hall. rewrite Forall_forall in Hall.
  apply Hall. now apply list_elem_of_In.
Qed.

(** Property X11 on the key of the sample run. *)
Lemma main_result_keys_witness :
  In "0050.5699.1234" (mac_addresses (main w_ok "10.0.0.1").2.1)
  /\ mac_shaped "0050.5699.1234" = true.
Proof.
  apply (main_result_keys w_ok "10.0.0.1" (dict_result (main w_ok "10.0.0.1").2.1)
           (main w_ok "10.0.0.1").2.1 (main w_ok "10.0.0.1").2.2).
  - vm_compute. reflexivity.
  - vm_compute. eexists. reflexivity.
Defined.

(** ** The ERS service *)

Module IseFacts.

Lemma key_eq_refl k : hashable k = true -> key_eq k k = true.
Proof.
  destruct k as [|b|n|s|l|l]; simpl; try discriminate; intros _.
  - reflexivity.
  - destruct b; reflexivity.
  - apply Z.eqb_refl.
  - apply String.eqb_refl.
Qed.

Lemma dict_get_set k v d : hashable k = true -> is_Some (dict_get k (dict_set k v d)).
Proof.
  intros Hk. induction d as [|[k' v'] d IH]; simpl.
  - rewrite (key_eq_refl k Hk). eauto.
  - destruct (key_eq k' k) eqn:E; simpl; rewrite E; [eauto|exact IH].
Qed.

Lemma dict_get_kept k0 k v d :
  is_Some (dict_get k0 d) -> is_Some (dict_get k0 (dict_set k v d)).
Proof.
  induction d as [|[k' v'] d IH]; simpl.
  - intros [? [=]].
  - destruct (key_eq k' k) eqn:E; simpl; destruct (key_eq k' k0); eauto.
Qed.

(** The keys of [g] are kept by the loop over a page, and the [id] of
    every element of the page is a key after it. *)
Lemma add_groups_kept l g g' k0 :
  add_groups g l = Done g' -> is_Some (dict_get k0 g) -> is_Some (dict_get k0 g').
Proof.
  revert g; induction l as [|each l IH]; intros g H Hk; simpl in H.
  - now injection H as <-.
  - unfold add_group, and_then in H.
    destruct (getitem each "name") as [name|]; [|discriminate H].
    destruct (getitem each "id") as [id|]; [|discriminate H].
    destruct (hashable id); [|discriminate H].
    apply (IH _ H). now apply dict_get_kept.
Qed.

Lemma add_groups_all l g g' each :
  add_groups g l = Done g' -> In each l ->
  exists id, getitem each "id" = Done id /\ is_Some (dict_get id g').
Proof.
  revert g; induction l as [|x l IH]; intros g H Hin; [destruct Hin|].
  simpl in H. unfold add_group, and_then in H.
  destruct (getitem x "name") as [name|] eqn:En; [|discriminate H].
  destruct (getitem x "id") as [id|] eqn:Ei; [|discriminate H].
  destruct (hashable id) eqn:Eh; [|discriminate H].
  destruct Hin as [<-|Hin]; [|exact (IH _ H Hin)].
  exists id. split; [exact Ei|].
  apply (add_groups_kept _ _ _ _ H). now apply dict_get_set.
Qed.

Section WithWorld.
Variable w : IseWorld.

(** What a call answers and what it leaves in the trace. *)
Lemma requests_request_inv method url payload tr o tr' :
  requests_request w method url payload tr = (o, tr') ->
  tr' = tr ++ [IseCall method url payload (ise_request w tr method url payload)]
  /\ o = match ise_request w tr method url payload with
         | IseResponse status_code body => Done (status_code, body)
         | IseRequestFailed => Failed RequestError
         end.
Proof.
  unfold requests_request.
  destruct (ise_request w tr method url payload); intros [= <- <-]; auto.
Qed.

(** One turn of the loop of [get_group_id]. *)
Lemma get_group_id_turn_inv url g tr o tr' :
  get_group_id_turn w url g tr = (o, tr') ->
  tr' = tr ++ [IseCall "GET" url None (ise_request w tr "GET" url None)]
  /\ forall g' next, o = Done (g', next) ->
       exists status_code data href,
         ise_request w tr "GET" url None = IseResponse status_code (Some data)
         /\ page_groups g data = Done g'
         /\ page_next data = Done href
         /\ next = if truthy href then Some href else None.
Proof.
  unfold get_group_id_turn, ibind, requests_request, raise_for_status,
    response_json, lift, iret, ifail.
  destruct (ise_request w tr "GET" url None) as [st body|];
    [|intros [= <- <-]; split; [reflexivity|discriminate]].
  cbn [fst snd].
  destruct ((400 <=? st) && (st <? 600));
    [intros [= <- <-]; split; [reflexivity|discriminate]|].
  destruct body as [data|];
    [|intros [= <- <-]; split; [reflexivity|discriminate]].
  destruct (page_groups g data) as [g1|] eqn:Eg;
    [|intros [= <- <-]; split; [reflexivity|discriminate]].
  destruct (page_next data) as [href|] eqn:En;
    [|intros [= <- <-]; split; [reflexivity|discriminate]].
  destruct (truthy href) eqn:Et; intros [= <- <-];
    (split; [reflexivity|]); intros g' next [= <- <-];
    exists st, data, href; rewrite Et; auto.
Qed.

(** The loop: it ends after a page without a next one, and the keys
    gathered on the way are kept. *)
Lemma get_group_id_loop_inv fuel url g tr g' tr' :
  get_group_id_loop w fuel url g tr = Some (Done g', tr') ->
  exists new url' status_code data href,
    tr' = tr ++ new
         ++ [IseCall "GET" url' None (IseResponse status_code (Some data))]
    /\ page_next data = Done href /\ truthy href = false
    /\ (forall k0, is_Some (dict_get k0 g) -> is_Some (dict_get k0 g'))
    /\ (forall u st d,
          In (IseCall "GET" u None (IseResponse st (Some d)))
            (new ++ [IseCall "GET" url' None (IseResponse status_code (Some data))]) ->
          exists g0 g1, page_groups g0 d = Done g1
            /\ forall k0, is_Some (dict_get k0 g1) -> is_Some (dict_get k0 g'))
    /\ (forall m u p a,
          In (IseCall m u p a)
            (new ++ [IseCall "GET" url' None (IseResponse status_code (Some data))]) ->
          m = "GET" /\ p = None).
Proof.
  revert url g tr; induction fuel as [|fuel IH]; intros url g tr H;
    [discriminate H|].
  simpl in H.
  destruct (get_group_id_turn w url g tr) as [[[g1 next]|e] tr1] eqn:E;
    [|discriminate H].
  destruct (get_group_id_turn_inv _ _ _ _ _ E) as [-> Hturn].
  destruct (Hturn g1 next eq_refl) as (st & data & href & Ea & Hg & Hn & Hnext).
  assert (Hkept : forall k0, is_Some (dict_get k0 g) -> is_Some (dict_get k0 g1)).
  { intros k0 Hk. unfold page_groups, and_then in Hg.
    destruct (getitem data "SearchResult") as [sr|]; [|discriminate Hg].
    destruct (getitem sr "resources") as [res|]; [|discriminate Hg].
    destruct (iterate res) as [l|]; [|discriminate Hg].
    exact (add_groups_kept _ _ _ _ Hg Hk). }
  rewrite Ea in *.
  destruct (truthy href) eqn:Et; subst next.
  - destruct (IH _ _ _ H)
      as (new & url' & st' & data' & href' & -> & Hn' & Ht' & Hk' & Hp' & Hm').
    exists (IseCall "GET" url None (IseResponse st (Some data)) :: new),
      url', st', data', href'.
    split; [now rewrite <- !List.app_assoc|].
    split; [exact Hn'|]. split; [exact Ht'|].
    split; [intros k0 Hk; apply Hk'; now apply Hkept|].
    split.
    + intros u s0 d0 [Hin|Hin].
      * injection Hin as <- <- <-. exists g, g1. split; [exact Hg|exact Hk'].
      * exact (Hp' u s0 d0 Hin).
    + intros m u p a [Hin|Hin].
      * injection Hin as <- <- <- <-. auto.
      * now apply (Hm' m u p a).
  - injection H as <- <-.
    exists [], url, st, data, href.
    split; [reflexivity|]. split; [exact Hn|]. split; [exact Et|].
    split; [exact Hkept|]. split.
    + intros u s0 d0 [Hin|[]]. injection Hin as <- <- <-.
      exists g, g1. split; [exact Hg|auto].
    + intros m u p a [Hin|[]]. injection Hin as <- <- <- <-. auto.
Qed.

(** Every outcome of the loop comes after one call at least. *)
Lemma get_group_id_loop_calls fuel url g tr o tr' :
  get_group_id_loop w fuel url g tr = Some (o, tr') ->
  exists a new, tr' = tr ++ IseCall "GET" url None a :: new.
Proof.
  revert url g tr; induction fuel as [|fuel IH]; intros url g tr H;
    [discriminate H|].
  simpl in H.
  destruct (get_group_id_turn w url g tr) as [[[g1 [next|]]|e] tr1] eqn:E;
    destruct (get_group_id_turn_inv _ _ _ _ _ E) as [-> _].
  - destruct (IH _ _ _ H) as (a & new & ->).
    eexists _, _. rewrite <- List.app_assoc. reflexivity.
  - injection H as <- <-. eauto.
  - injection H as <- <-. eauto.
Qed.

(** The one call of [get_endpoint_group_id]. *)
Lemma get_endpoint_group_id_inv mac tr o tr' :
  get_endpoint_group_id w mac tr = (o, tr') ->
  tr' = tr ++ [IseCall "GET" (JStr (BASE_URL w +:+ "endpoint/name/" +:+ mac))
                 None
                 (ise_request w tr "GET"
                    (JStr (BASE_URL w +:+ "endpoint/name/" +:+ mac)) None)].
Proof.
  unfold get_endpoint_group_id, ibind, requests_request, raise_for_status,
    response_json, lift, iret, ifail.
  destruct (ise_request w tr "GET" _ None) as [st body|];
    [|intros [= <- <-]; reflexivity].
  cbn [fst snd].
  destruct ((400 <=? st) && (st <? 600)).
  { destruct (st =? 404); intros [= <- <-]; reflexivity. }
  destruct body as [data|]; [|intros [= <- <-]; reflexivity].
  destruct (getitem data "ERSEndPoint") as [ers|];
    [|destruct e; try (intros [= <- <-]; reflexivity);
      destruct (_ =? 404); intros [= <- <-]; reflexivity].
  destruct (getitem ers "groupId") as [gid|];
    [intros [= <- <-]; reflexivity|].
  destruct e; try (intros [= <- <-]; reflexivity).
  destruct (_ =? 404); intros [= <- <-]; reflexivity.
Qed.

Lemma status_raises st :
  ((400 <=? st) && (st <? 600)) = true <-> 400 <= st < 600.
Proof.
  rewrite andb_true_iff, Nat.leb_le, Nat.ltb_lt. tauto.
Qed.

(** The two calls of [update_endpoint_group]. *)
Lemma update_endpoint_group_inv mac gid tr o tr' :
  update_endpoint_group w mac gid tr = (o, tr') ->
  (exists a e,
      tr' = tr ++ [IseCall "GET"
                     (JStr (BASE_URL w +:+ "endpoint/name/" +:+ mac)) None a]
      /\ o = Failed e)
  \/ (exists st data ers id a2,
        ((400 <=? st) && (st <? 600)) = false
        /\ getitem data "ERSEndPoint" = Done ers
        /\ getitem ers "id" = Done (JStr id)
        /\ tr' = tr ++ [IseCall "GET"
                          (JStr (BASE_URL w +:+ "endpoint/name/" +:+ mac)) None
                          (IseResponse st (Some data));
                        IseCall "PUT"
                          (JStr (BASE_URL w +:+ "endpoint/" +:+ id))
                          (Some (update_payload gid)) a2]
        /\ o = match a2 with
               | IseResponse st2 body2 => Done (st2, body2)
               | IseRequestFailed => Failed RequestError
               end).
Proof.
  unfold update_endpoint_group, ibind, raise_for_status,
    response_json, lift, iret, ifail.
  unfold requests_request at 1.
  destruct (ise_request w tr "GET" _ None) as [st body|] eqn:Ea;
    [|intros [= <- <-]; left; eauto].
  cbn [fst snd].
  destruct ((400 <=? st) && (st <? 600)) eqn:Ec;
    [intros [= <- <-]; left; eauto|].
  destruct body as [data|]; [|intros [= <- <-]; left; eauto].
  destruct (getitem data "ERSEndPoint") as [ers|] eqn:E1;
    [|intros [= <- <-]; left; eauto].
  destruct (getitem ers "id") as [endpoint_id|] eqn:E2;
    [|intros [= <- <-]; left; eauto].
  destruct endpoint_id as [|b|n|id|l|l]; cbn [endpoint_url];
    try (intros [= <- <-]; left; eauto).
  intros H. apply requests_request_inv in H as [-> ->].
  right. exists st, data, ers, id. eexists.
  split; [exact Ec|]. split; [exact E1|]. split; [exact E2|].
  split; [now rewrite <- List.app_assoc|]. reflexivity.
Qed.

End WithWorld.

End IseFacts.

Import IseFacts.

(** Property X12.  [get_endpoint_group_id] makes one request, a [GET] on
    [BASE_URL + endpoint/name/ + mac].  It returns [None] exactly when the
    answer has the status 404, or has a status outside 400..599 and a
    document whose [ERSEndPoint.groupId] is null; it raises an [HTTPError]
    exactly when the status is in 400..599 and is not 404. *)
Theorem get_endpoint_group_id_outcome (w : IseWorld) (mac : string) tr o tr' :
  get_endpoint_group_id w mac tr = (o, tr') ->
  exists a,
    tr' = tr ++ [IseCall "GET" (JStr (BASE_URL w +:+ "endpoint/name/" +:+ mac))
                   None a]
    /\ (o = Done JNull <->
        (exists body, a = IseResponse 404 body)
        \/ (exists st data ers,
              a = IseResponse st (Some data)
              /\ ~ (400 <= st < 600)
              /\ getitem data "ERSEndPoint" = Done ers
              /\ getitem ers "groupId" = Done JNull))
    /\ (forall st, o = Failed (HTTPError st) <->
          (exists body, a = IseResponse st body) /\ 400 <= st < 600 /\ st <> 404).
Proof.
  intros H. pose proof (get_endpoint_group_id_inv w _ _ _ _ H) as Htr.
  eexists. split; [exact Htr|]. clear Htr. revert H.
  unfold get_endpoint_group_id, ibind, requests_request, raise_for_status,
    response_json, lift, iret, ifail.
  destruct (ise_request w tr "GET" _ None) as [st body|] eqn:Ea.
  2:{ intros [= <- <-]. split.
      - split; [discriminate|]. intros [[b [=]]|(s0 & d0 & e0 & [=] & _)].
      - intros s0. split; [discriminate|]. intros [[b [=]] _]. }
  cbn [fst snd].
  destruct ((400 <=? st) && (st <? 600)) eqn:Ec.
  - apply status_raises in Ec.
    destruct (Nat.eqb_spec st 404) as [->|Hne]; intros [= <- <-]; split.
    + split; [intros _; left; eauto|reflexivity].
    + intros s0. split; [discriminate|]. intros ([b [= <- _]] & _ & Hs). now elim Hs.
    + split; [discriminate|].
      intros [[b [= -> _]]|(s0 & d0 & e0 & [= <- _] & Hs & _)]; [now elim Hne|].
      now elim Hs.
    + intros s0. split.
      * intros [= <-]. split; [eauto|]. split; [exact Ec|exact Hne].
      * intros ([b [= -> _]] & _). reflexivity.
  - assert (Hc : ~ (400 <= st < 600)).
    { intros Hs. apply status_raises in Hs. congruence. }
    assert (H404 : st <> 404) by (intros ->; apply Hc; lia).
    destruct body as [data|].
    2:{ intros [= <- <-]. split.
        - split; [discriminate|].
          intros [[b [= -> _]]|(s0 & d0 & e0 & [=] & _)]. now elim H404.
        - intros s0. split; [discriminate|]. intros ([b [= <- _]] & Hs & _).
          now elim Hc. }
    destruct (getitem data "ERSEndPoint") as [ers|e] eqn:E1.
    2:{ assert (He : forall s0, e <> HTTPError s0).
        { unfold getitem in E1. destruct data; try (injection E1 as <-; discriminate).
          destruct (assoc "ERSEndPoint" l); [discriminate E1|].
          injection E1 as <-. discriminate. }
        destruct e; try (now elim (He status_code)); intros [= <- <-]; split;
          try (split; [discriminate|];
               intros [[b [= -> _]]|(s0 & d0 & e0 & [= <- <-] & _ & E1' & _)];
               [now elim H404|congruence]);
          intros s0; (split; [discriminate|]);
          intros ([b [= <- _]] & Hs & _); now elim Hc. }
    destruct (getitem ers "groupId") as [gid|e] eqn:E2.
    + intros [= <- <-]. split.
      * split.
        -- intros [= ->]. right. exists st, data, ers. auto.
        -- intros [[b [= -> _]]|(s0 & d0 & e0 & [= <- <-] & _ & E1' & E2')];
             [now elim H404|]. congruence.
      * intros s0. split; [discriminate|].
        intros ([b [= <- _]] & Hs & _). now elim Hc.
    + assert (He : forall s0, e <> HTTPError s0).
      { unfold getitem in E2. destruct ers; try (injection E2 as <-; discriminate).
        destruct (assoc "groupId" l); [discriminate E2|].
        injection E2 as <-. discriminate. }
      destruct e; try (now elim (He status_code)); intros [= <- <-]; split;
        try (split; [discriminate|];
             intros [[b [= -> _]]|(s0 & d0 & e0 & [= <- <-] & _ & E1' & E2')];
             [now elim H404|congruence]);
        intros s0; (split; [discriminate|]);
        intros ([b [= <- _]] & Hs & _); now elim Hc.
Qed.

(** Property X12 against a service that knows no endpoint. *)
Lemma get_endpoint_group_id_outcome_witness :
  exists a,
    (get_endpoint_group_id w_ise_absent "AABB.CCDD.EEFF" []).2
    = [] ++ [IseCall "GET"
               (JStr (BASE_URL w_ise_absent +:+ "endpoint/name/" +:+ "AABB.CCDD.EEFF"))
               None a]
    /\ ((get_endpoint_group_id w_ise_absent "AABB.CCDD.EEFF" []).1 = Done JNull <->
        (exists body, a = IseResponse 404 body)
        \/ (exists st data ers,
              a = IseResponse st (Some data)
              /\ ~ (400 <= st < 600)
              /\ getitem data "ERSEndPoint" = Done ers
              /\ getitem ers "groupId" = Done JNull))
    /\ (forall st,
          (get_endpoint_group_id w_ise_absent "AABB.CCDD.EEFF" []).1
          = Failed (HTTPError st) <->
          (exists body, a = IseResponse st body) /\ 400 <= st < 600 /\ st <> 404).
Proof.
  apply (get_endpoint_group_id_outcome w_ise_absent "AABB.CCDD.EEFF" []).
  vm_compute. reflexivity.
Defined.

(** Property X13.  [update_endpoint_group] either raises after its [GET]
    on [BASE_URL + endpoint/name/ + mac], and then no [PUT] was sent; or
    the [GET] was answered with a status outside 400..599 and a document
    with a string under [ERSEndPoint.id], and one [PUT] follows, on
    [BASE_URL + endpoint/ + id] with the payload that sets [groupId] to
    [ise_group_id] and [staticGroupAssignment] to the string [true].  The
    response of the [PUT] is returned whatever its status. *)
Theorem update_endpoint_group_calls (w : IseWorld) (mac : string) (gid : json)
    tr o tr' :
  update_endpoint_group w mac gid tr = (o, tr') ->
  (exists a e,
      tr' = tr ++ [IseCall "GET"
                     (JStr (BASE_URL w +:+ "endpoint/name/" +:+ mac)) None a]
      /\ o = Failed e)
  \/ (exists st data ers id a2,
        ~ (400 <= st < 600)
        /\ getitem data "ERSEndPoint" = Done ers
        /\ getitem ers "id" = Done (JStr id)
        /\ tr' = tr ++ [IseCall "GET"
                          (JStr (BASE_URL w +:+ "endpoint/name/" +:+ mac)) None
                          (IseResponse st (Some data));
                        IseCall "PUT"
                          (JStr (BASE_URL w +:+ "endpoint/" +:+ id))
                          (Some (update_payload gid)) a2]
        /\ o = match a2 with
               | IseResponse st2 body2 => Done (st2, body2)
               | IseRequestFailed => Failed RequestError
               end).
Proof.
  intros H. destruct (update_endpoint_group_inv w _ _ _ _ _ H)
    as [Hl|(st & data & ers & id & a2 & Hc & Hr)]; [now left|].
  right. exists st, data, ers, id, a2. split; [|exact Hr].
  intros Hs. apply status_raises in Hs. congruence.
Qed.

(** Property X13 against the sample service. *)
Lemma update_endpoint_group_calls_witness :
  exists st data ers id a2,
    ~ (400 <= st < 600)
    /\ getitem data "ERSEndPoint" = Done ers
    /\ getitem ers "id" = Done (JStr id)
    /\ (update_endpoint_group w_ise "AABB.CCDD.EEFF" (JStr "aa0e8b20") []).2
       = [] ++ [IseCall "GET"
                  (JStr (BASE_URL w_ise +:+ "endpoint/name/" +:+ "AABB.CCDD.EEFF"))
                  None (IseResponse st (Some data));
                IseCall "PUT"
                  (JStr (BASE_URL w_ise +:+ "endpoint/" +:+ id))
                  (Some (update_payload (JStr "aa0e8b20"))) a2]
    /\ (update_endpoint_group w_ise "AABB.CCDD.EEFF" (JStr "aa0e8b20") []).1
       = match a2 with
         | IseResponse st2 body2 => Done (st2, body2)
         | IseRequestFailed => Failed RequestError
         end.
Proof.
  destruct (update_endpoint_group_calls w_ise "AABB.CCDD.EEFF" (JStr "aa0e8b20") []
              (update_endpoint_group w_ise "AABB.CCDD.EEFF" (JStr "aa0e8b20") []).1
              (update_endpoint_group w_ise "AABB.CCDD.EEFF" (JStr "aa0e8b20") []).2)
    as [(a & e & _ & He)|Hr].
  - vm_compute. reflexivity.
  - vm_compute in He. discriminate He.
  - exact Hr.
Defined.

(** Property X14.  When the route [update_ise] renders its page, the last
    request of the run is the [PUT] with the group id of the form ([None]
    when the form has no such field), and the page reports a success
    exactly when the status of that [PUT] is 200: any other status, 204
    included, is reported as a failure. *)
Theorem update_ise_result (w : IseWorld) (mac : string) (ise_group_id : option string)
    tr pg tr' :
  update_ise w mac ise_group_id tr = (Done pg, tr') ->
  exists tr0 url status_code body,
    tr' = tr0 ++ [IseCall "PUT" url
                    (Some (update_payload (json_of_optional ise_group_id)))
                    (IseResponse status_code body)]
    /\ pg = Rendered "update-result.html"
              [("result", TJson (JBool (status_code =? 200)))].
Proof.
  unfold update_ise, ibind.
  destruct (update_endpoint_group w mac (json_of_optional ise_group_id) tr)
    as [[r|e] tr1] eqn:E; [|discriminate].
  unfold iret. intros [= <- <-].
  destruct (update_endpoint_group_inv w _ _ _ _ _ E)
    as [(a & e & _ & [=])|(st & data & ers & id & a2 & _ & _ & _ & -> & Ho)].
  destruct a2 as [st2 body2|]; [|discriminate Ho]. injection Ho as ->.
  exists (tr ++ [IseCall "GET" (JStr (BASE_URL w +:+ "endpoint/name/" +:+ mac))
                   None (IseResponse st (Some data))]),
    (JStr (BASE_URL w +:+ "endpoint/" +:+ id)), st2, body2.
  split; [now rewrite <- List.app_assoc|reflexivity].
Qed.

(** Property X14 against the sample service. *)
Lemma update_ise_result_witness :
  exists tr0 url status_code body,
    (update_ise w_ise "AABB.CCDD.EEFF" (Some "aa0e8b20") []).2
    = tr0 ++ [IseCall "PUT" url
                (Some (update_payload (json_of_optional (Some "aa0e8b20"))))
                (IseResponse status_code body)]
    /\ Rendered "update-result.html" [("result", TJson (JBool true))]
       = Rendered "update-result.html"
           [("result", TJson (JBool (status_code =? 200)))].
Proof.
  apply (update_ise_result w_ise "AABB.CCDD.EEFF" (Some "aa0e8b20") []).
  vm_compute. reflexivity.
Defined.

(** Property X15.  [get_group_id] returns only after a page whose
    [SearchResult.nextPage.href] is present and false (null, empty, zero):
    a page without [nextPage] never ends the loop with a result.  Every
    request of [get_group_id] is a [GET] without a JSON payload. *)
Theorem get_group_id_last_page (w : IseWorld) (fuel : nat) tr g tr' :
  get_group_id w fuel tr = Some (Done g, tr') ->
  exists new url status_code data href,
    tr' = tr ++ new
         ++ [IseCall "GET" url None (IseResponse status_code (Some data))]
    /\ page_next data = Done href
    /\ truthy href = false
    /\ (forall m u p a,
          In (IseCall m u p a)
            (new ++ [IseCall "GET" url None (IseResponse status_code (Some data))]) ->
          m = "GET" /\ p = None).
Proof.
  unfold get_group_id. intros H.
  destruct (get_group_id_loop_inv w _ _ _ _ _ _ H)
    as (new & url & st & data & href & Htr & Hn & Ht & _ & _ & Hm).
  exists new, url, st, data, href. auto.
Qed.

(** Property X15 against the sample service: one page. *)
Lemma get_group_id_last_page_witness :
  exists new url status_code data href,
    [IseCall "GET" (JStr (sample_base_url +:+ "endpointgroup")) None
       (IseResponse 200 (Some groups_page))]
    = [] ++ new
         ++ [IseCall "GET" url None (IseResponse status_code (Some data))]
    /\ page_next data = Done href
    /\ truthy href = false
    /\ (forall m u p a,
          In (IseCall m u p a)
            (new ++ [IseCall "GET" url None (IseResponse status_code (Some data))]) ->
          m = "GET" /\ p = None).
Proof.
  apply (get_group_id_last_page w_ise 1 []
           [(JStr "aa0e8b20", JStr "Blacklist");
            (JStr "aa13bb40", JStr "GuestEndpoints")]).
  vm_compute. reflexivity.
Defined.

(** Property X16.  No group is lost over the pages: when [get_group_id]
    returns, the [id] of every element of [SearchResult.resources] of
    every page it was answered is a key of the dict it returns. *)
Theorem get_group_id_keeps_groups (w : IseWorld) (fuel : nat) tr g new
    url status_code data search_result resources l each :
  get_group_id w fuel tr = Some (Done g, tr ++ new) ->
  In (IseCall "GET" url None (IseResponse status_code (Some data))) new ->
  getitem data "SearchResult" = Done search_result ->
  getitem search_result "resources" = Done resources ->
  iterate resources = Done l ->
  In each l ->
  exists id, getitem each "id" = Done id /\ is_Some (dict_get id g).
Proof.
  unfold get_group_id. intros H Hin E1 E2 E3 Heach.
  destruct (get_group_id_loop_inv w _ _ _ _ _ _ H)
    as (new0 & url0 & st0 & data0 & href0 & Htr & _ & _ & _ & Hp & _).
  apply app_inv_head in Htr. subst new.
  destruct (Hp _ _ _ Hin) as (g0 & g1 & Hg & Hk).
  unfold page_groups, and_then in Hg. rewrite E1, E2, E3 in Hg.
  destruct (add_groups_all _ _ _ _ Hg Heach) as (id & Hid & Hsome).
  exists id. split; [exact Hid|]. now apply Hk.
Qed.

(** Property X16 on the second group of the sample page. *)
Lemma get_group_id_keeps_groups_witness :
  exists id,
    getitem (JDict [("id", JStr "aa13bb40"); ("name", JStr "GuestEndpoints")]) "id"
    = Done id
    /\ is_Some (dict_get id [(JStr "aa0e8b20", JStr "Blacklist");
                             (JStr "aa13bb40", JStr "GuestEndpoints")]).
Proof.
  apply (get_group_id_keeps_groups w_ise 1 []
           [(JStr "aa0e8b20", JStr "Blacklist");
            (JStr "aa13bb40", JStr "GuestEndpoints")]
           [IseCall "GET" (JStr (sample_base_url +:+ "endpointgroup")) None
              (IseResponse 200 (Some groups_page))]
           (JStr (sample_base_url +:+ "endpointgroup")) 200 groups_page
           (JDict [("total", JInt 2);
                   ("resources",
                    JList [JDict [("id", JStr "aa0e8b20"); ("name", JStr "Blacklist")];
                           JDict [("id", JStr "aa13bb40");
                                  ("name", JStr "GuestEndpoints")]]);
                   ("nextPage", JDict [("href", JStr "")])])
           (JList [JDict [("id", JStr "aa0e8b20"); ("name", JStr "Blacklist")];
                   JDict [("id", JStr "aa13bb40"); ("name", JStr "GuestEndpoints")]])
           [JDict [("id", JStr "aa0e8b20"); ("name", JStr "Blacklist")];
            JDict [("id", JStr "aa13bb40"); ("name", JStr "GuestEndpoints")]]).
  - vm_compute. reflexivity.
  - left. reflexivity.
  - reflexivity.
  - reflexivity.
  - reflexivity.
  - right. left. reflexivity.
Defined.

(** ** The routes of [application.py] and the credentials *)

Module RouteFacts.

Lemma app_cons_neq {A} (l : list A) x l' : l ++ x :: l' <> l.
Proof.
  intros E. apply (f_equal (@List.length A)) in E.
  rewrite List.length_app in E. simpl in E. lia.
Qed.

Lemma missing_getenv_default env key name default rest :
  default <> "" ->
  missing ((key, getenv env name default) :: rest) key = false
  <-> env !! name <> Some "".
Proof.
  intros Hd. unfold missing, getenv. simpl. rewrite String.eqb_refl.
  destruct (env !! name) as [v|].
  - destruct (String.eqb_spec v ""); split; congruence.
  - destruct (String.eqb_spec default ""); split; congruence.
Qed.

Lemma missing_getenv_empty env key name rest :
  missing ((key, getenv env name "") :: rest) key = false
  <-> set_in env name.
Proof.
  unfold missing, getenv, set_in. simpl. rewrite String.eqb_refl.
  destruct (env !! name) as [v|].
  - destruct (String.eqb_spec v ""); split; try congruence.
    + intros (v' & [= <-] & Hv). now elim Hv.
    + intros _. eauto.
  - simpl. split; [discriminate|]. intros (v' & [=] & _).
Qed.

End RouteFacts.

Import RouteFacts.

(** Property X17.  The loop of [get_group_id] has no bound of its own:
    against a service that answers every [GET] with a well-formed page
    that names a next page, the loop has not ended after any number of
    turns. *)
Theorem get_group_id_endless (w : IseWorld) :
  (forall tr url, exists status_code data href,
      ise_request w tr "GET" url None = IseResponse status_code (Some data)
      /\ ~ (400 <= status_code < 600)
      /\ (forall ise_groups, exists ise_groups',
            page_groups ise_groups data = Done ise_groups')
      /\ page_next data = Done href
      /\ truthy href = true) ->
  forall fuel tr, get_group_id w fuel tr = None.
Proof.
  intros Hw fuel. unfold get_group_id.
  generalize (JStr (BASE_URL w +:+ "endpointgroup")) as url.
  generalize (@nil (json * json)) as g.
  induction fuel as [|fuel IH]; intros g url tr; [reflexivity|].
  simpl. unfold get_group_id_turn, ibind, requests_request, raise_for_status,
    response_json, lift, iret, ifail.
  destruct (Hw tr url) as (st & data & href & -> & Hs & Hg & Hn & Ht).
  cbn [fst snd].
  destruct ((400 <=? st) && (st <? 600)) eqn:Ec;
    [apply status_raises in Ec; now elim Hs|].
  destruct (Hg g) as [g' ->]. rewrite Hn, Ht. apply IH.
Qed.

(** Property X17 against a service whose pages all name a next page. *)
Lemma get_group_id_endless_witness :
  get_group_id w_ise_endless 25 [] = None.
Proof.
  apply (get_group_id_endless w_ise_endless).
  intros tr url. exists 200, groups_page_more,
    (JStr "https://ise.example:9060/ers/config/endpointgroup?page=2").
  split; [reflexivity|]. split; [lia|]. split; [|split; reflexivity].
  intros g. eexists. reflexivity.
Defined.

(** Property X18.  The route [search_endpoint], when it ends, has made no
    request exactly when the MAC of the form does not hold twelve word
    characters; it then renders [update-mac.html] with [mac_check] false
    and the MAC as it was typed. *)
Theorem search_endpoint_rejected (w : IseWorld) (fuel : nat) (mac : string)
    tr o tr' :
  search_endpoint w fuel (Some mac) tr = Some (o, tr') ->
  (tr' = tr <-> String.length (strip_non_word mac) <> 12)
  /\ (String.length (strip_non_word mac) <> 12 ->
      o = Done (Rendered "update-mac.html"
                  [("mac_check", TJson (JBool false)); ("mac", TJson (JStr mac))])).
Proof.
  unfold search_endpoint.
  destruct (Nat.eq_dec (String.length (strip_non_word mac)) 12) as [H|H].
  - pose proof (mac_normalization_valid mac "." H) as Hv.
    destruct (String.eqb_spec (mac_normalization mac ".") "Error") as [E|_];
      [now elim Hv|].
    unfold get_group_id.
    destruct (get_group_id_loop w fuel _ [] tr) as [[[g|e] tr1]|] eqn:E;
      [| |discriminate].
    + destruct (get_group_id_loop_calls w _ _ _ _ _ _ E) as (a & new & ->).
      unfold ibind.
      destruct (get_endpoint_group_id w mac _) as [[gid|e] tr2] eqn:E2;
        apply get_endpoint_group_id_inv in E2 as ->;
        intros [= <- <-]; (split; [|intros Hn; now elim Hn]);
        (split; [|intros Hn; now elim Hn]);
        rewrite <- !List.app_assoc; simpl; intros Eq; now apply app_cons_neq in Eq.
    + destruct (get_group_id_loop_calls w _ _ _ _ _ _ E) as (a & new & ->).
      intros [= <- <-]. split; [|intros Hn; now elim Hn].
      split; [|intros Hn; now elim Hn].
      intros Eq; now apply app_cons_neq in Eq.
  - rewrite (mac_normalization_error mac "." H). simpl.
    intros [= <- <-]. split; [tauto|reflexivity].
Qed.

(** Property X18 on a form value of seven letters. *)
Lemma search_endpoint_rejected_witness :
  ((@nil ise_event) = [] <-> String.length (strip_non_word "invalid") <> 12)
  /\ (String.length (strip_non_word "invalid") <> 12 ->
      Done (Rendered "update-mac.html"
              [("mac_check", TJson (JBool false)); ("mac", TJson (JStr "invalid"))])
      = Done (Rendered "update-mac.html"
                [("mac_check", TJson (JBool false)); ("mac", TJson (JStr "invalid"))])).
Proof.
  apply (search_endpoint_rejected w_ise 1 "invalid" []).
  vm_compute. reflexivity.
Defined.

(** Property X19.  For a MAC that passes the check, a page rendered by
    [search_endpoint] comes after the requests of [get_group_id] and one
    [GET] on [BASE_URL + endpoint/name/] followed by the MAC as it was
    typed in the form: the normalized address serves the check only, it
    is neither sent to the service nor shown on the page. *)
Theorem search_endpoint_lookup (w : IseWorld) (fuel : nat) (mac : string)
    tr pg tr' :
  search_endpoint w fuel (Some mac) tr = Some (Done pg, tr') ->
  String.length (strip_non_word mac) = 12 ->
  exists ise_groups endpoint_group_id tr0 a,
    get_group_id w fuel tr = Some (Done ise_groups, tr0)
    /\ tr' = tr0 ++ [IseCall "GET"
                       (JStr (BASE_URL w +:+ "endpoint/name/" +:+ mac)) None a]
    /\ pg = Rendered "update-mac.html"
              [("mac_check", TJson (JBool true));
               ("mac", TJson (JStr mac));
               ("endpoint_group_id",
                TJson (group_name_of ise_groups endpoint_group_id (JStr "Unknown")));
               ("ise_groups", TGroups ise_groups)].
Proof.
  unfold search_endpoint. intros H Hlen.
  pose proof (mac_normalization_valid mac "." Hlen) as Hv.
  destruct (String.eqb_spec (mac_normalization mac ".") "Error") as [E|_];
    [now elim Hv|].
  destruct (get_group_id w fuel tr) as [[[g|e] tr1]|]; try discriminate H.
  unfold ibind in H.
  destruct (get_endpoint_group_id w mac tr1) as [[gid|e] tr2] eqn:E2;
    [|discriminate H].
  apply get_endpoint_group_id_inv in E2 as ->.
  unfold iret in H. injection H as <- <-.
  exists g, gid, tr1. eexists. repeat split.
Qed.

(** Property X19 on a MAC typed with colons. *)
Lemma search_endpoint_lookup_witness :
  exists ise_groups endpoint_group_id tr0 a,
    get_group_id w_ise 1 [] = Some (Done ise_groups, tr0)
    /\ [IseCall "GET" (JStr (sample_base_url +:+ "endpointgroup")) None
          (IseResponse 200 (Some groups_page));
        IseCall "GET" (JStr (sample_base_url +:+ "endpoint/name/AA:BB:CC:DD:EE:FF"))
          None (IseResponse 200 (Some endpoint_document))]
       = tr0 ++ [IseCall "GET"
                   (JStr (BASE_URL w_ise +:+ "endpoint/name/" +:+ "AA:BB:CC:DD:EE:FF"))
                   None a]
    /\ Rendered "update-mac.html"
         [("mac_check", TJson (JBool true));
          ("mac", TJson (JStr "AA:BB:CC:DD:EE:FF"));
          ("endpoint_group_id", TJson (JStr "GuestEndpoints"));
          ("ise_groups",
           TGroups [(JStr "aa0e8b20", JStr "Blacklist");
                    (JStr "aa13bb40", JStr "GuestEndpoints")])]
       = Rendered "update-mac.html"
           [("mac_check", TJson (JBool true));
            ("mac", TJson (JStr "AA:BB:CC:DD:EE:FF"));
            ("endpoint_group_id",
             TJson (group_name_of ise_groups endpoint_group_id (JStr "Unknown")));
            ("ise_groups", TGroups ise_groups)].
Proof.
  apply (search_endpoint_lookup w_ise 1 "AA:BB:CC:DD:EE:FF" []).
  - vm_compute. reflexivity.
  - reflexivity.
Defined.

(** Property X20.  [validate_credentials] passes exactly when
    [SWITCH_PASSWORD], [SWITCH_SECRET] and [ISE_PASSWORD] are set to a
    value that is not empty, and none of [SWITCH_USERNAME], [ISE_USERNAME]
    and [ISE_BASE_URL] is set to the empty string: these three have a
    default when they are not set. *)
Theorem validate_credentials_passes (env : gmap string string) :
  validate_credentials env = Done tt
  <-> env !! "SWITCH_USERNAME" <> Some ""
      /\ set_in env "SWITCH_PASSWORD"
      /\ set_in env "SWITCH_SECRET"
      /\ env !! "ISE_USERNAME" <> Some ""
      /\ set_in env "ISE_PASSWORD"
      /\ env !! "ISE_BASE_URL" <> Some "".
Proof.
  assert (Ha : "admin" <> "") by discriminate.
  assert (Hb : "https://localhost:9060/ers/config/" <> "") by discriminate.
  pose proof (missing_getenv_default env "username" "SWITCH_USERNAME" "admin"
                [("password", getenv env "SWITCH_PASSWORD" "");
                 ("secret", getenv env "SWITCH_SECRET" "")] Ha) as H1.
  pose proof (missing_getenv_empty env "password" "SWITCH_PASSWORD"
                [("secret", getenv env "SWITCH_SECRET" "")]) as H2.
  pose proof (missing_getenv_empty env "secret" "SWITCH_SECRET" []) as H3.
  pose proof (missing_getenv_default env "username" "ISE_USERNAME" "admin"
                [("password", getenv env "ISE_PASSWORD" "");
                 ("base_url", getenv env "ISE_BASE_URL"
                                "https://localhost:9060/ers/config/")] Ha) as H4.
  pose proof (missing_getenv_empty env "password" "ISE_PASSWORD"
                [("base_url", getenv env "ISE_BASE_URL"
                                "https://localhost:9060/ers/config/")]) as H5.
  pose proof (missing_getenv_default env "base_url" "ISE_BASE_URL"
                "https://localhost:9060/ers/config/" [] Hb) as H6.
  unfold validate_credentials, switch_credentials, ise_credentials, and_then.
  cbn [check_required].
  assert (M2 : forall v rest,
             missing (("username", v) :: rest) "password" = missing rest "password")
    by reflexivity.
  assert (M3 : forall v v' rest,
             missing (("username", v) :: ("password", v') :: rest) "secret"
             = missing rest "secret") by reflexivity.
  assert (M6 : forall v v' rest,
             missing (("username", v) :: ("password", v') :: rest) "base_url"
             = missing rest "base_url") by reflexivity.
  rewrite M2, M3, M2, M6.
  destruct (missing (("username", getenv env "SWITCH_USERNAME" "admin") :: _) _);
    [split; [discriminate|intros (K & _); apply H1 in K; discriminate]|].
  destruct (missing (("password", getenv env "SWITCH_PASSWORD" "") :: _) _);
    [split; [discriminate|intros (_ & K & _); apply H2 in K; discriminate]|].
  destruct (missing [("secret", _)] _);
    [split; [discriminate|intros (_ & _ & K & _); apply H3 in K; discriminate]|].
  destruct (missing (("username", getenv env "ISE_USERNAME" "admin") :: _) _);
    [split; [discriminate|intros (_ & _ & _ & K & _); apply H4 in K; discriminate]|].
  destruct (missing (("password", getenv env "ISE_PASSWORD" "") :: _) _);
    [split; [discriminate|intros (_ & _ & _ & _ & K & _); apply H5 in K; discriminate]|].
  destruct (missing [("base_url", _)] _);
    [split; [discriminate|intros (_ & _ & _ & _ & _ & K); apply H6 in K; discriminate]|].
  split; [intros _|reflexivity].
  repeat split; (apply H1 || apply H2 || apply H3 || apply H4 || apply H5 || apply H6);
    reflexivity.
Qed.

(** ** The dict of the groups *)

Module DictFacts.






Lemma group_name_of_value items endpoint_group_id endpoint_group_name :
  group_name_of items endpoint_group_id endpoint_group_name
  = value_under endpoint_group_id items endpoint_group_name.
Proof.
  unfold value_under.
  induction items as [|[k v] items IH]; [reflexivity|].
  simpl. destruct (key_eq k endpoint_group_id); [reflexivity|exact IH].
Qed.

(** A list or a dict is equal to no key. *)
Lemma value_under_unhashable key items default :
  hashable key = false -> value_under key items default = default.
Proof.
  intros Hk. unfold value_under.
  assert (E : dict_get key items = None).
  { induction items as [|[k v] items IH]; [reflexivity|]. simpl.
    assert (Ek : key_eq k key = false)
      by (destruct k, key; try discriminate Hk; reflexivity).
    now rewrite Ek. }
  now rewrite E.
Qed.

Section WithWorld.
Variable w : IseWorld.



End WithWorld.

End DictFacts.

Import DictFacts.



(** Property X22.  A page rendered by the route [search_ise] comes after
    the requests of [get_group_id] and the one of [get_endpoint_group_id]
    for the MAC of the URL as it stands, and the group it shows is the
    value of the first item of [ise_groups] whose key is equal to the
    group id of the endpoint, [Unknown] when no key is.  A group id that
    is a list or a dict is equal to no key: it is shown as [Unknown],
    where a lookup with [get] would raise. *)
Theorem search_ise_group_name (w : IseWorld) (fuel : nat) (mac : string) tr pg tr' :
  search_ise w fuel mac tr = Some (Done pg, tr') ->
  exists ise_groups endpoint_group_id tr0,
    get_group_id w fuel tr = Some (Done ise_groups, tr0)
    /\ get_endpoint_group_id w mac tr0 = (Done endpoint_group_id, tr')
    /\ pg = Rendered "update-mac.html"
              [("mac", TJson (JStr mac));
               ("endpoint_group_id",
                TJson (value_under endpoint_group_id ise_groups (JStr "Unknown")));
               ("ise_groups", TGroups ise_groups)]
    /\ (hashable endpoint_group_id = false ->
        value_under endpoint_group_id ise_groups (JStr "Unknown") = JStr "Unknown").
Proof.
  unfold search_ise. intros H.
  destruct (get_group_id w fuel tr) as [[[g|e] tr1]|]; try discriminate H.
  unfold ibind in H.
  destruct (get_endpoint_group_id w mac tr1) as [[gid|e] tr2] eqn:E2;
    [|discriminate H].
  unfold iret in H. injection H as <- <-.
  exists g, gid, tr1. rewrite group_name_of_value.
  split; [reflexivity|]. split; [exact E2|]. split; [reflexivity|].
  apply value_under_unhashable.
Qed.

(** Property X22 against a service that knows no endpoint. *)
Lemma search_ise_group_name_witness :
  exists ise_groups endpoint_group_id tr0,
    get_group_id w_ise_absent 1 [] = Some (Done ise_groups, tr0)
    /\ get_endpoint_group_id w_ise_absent "AABB.CCDD.EEFF" tr0
       = (Done endpoint_group_id,
          [IseCall "GET" (JStr (sample_base_url +:+ "endpointgroup")) None
             (IseResponse 200 (Some groups_page));
           IseCall "GET" (JStr (sample_base_url +:+ "endpoint/name/AABB.CCDD.EEFF"))
             None (IseResponse 404 None)])
    /\ Rendered "update-mac.html"
         [("mac", TJson (JStr "AABB.CCDD.EEFF"));
          ("endpoint_group_id", TJson (JStr "Unknown"));
          ("ise_groups",
           TGroups [(JStr "aa0e8b20", JStr "Blacklist");
                    (JStr "aa13bb40", JStr "GuestEndpoints")])]
       = Rendered "update-mac.html"
           [("mac", TJson (JStr "AABB.CCDD.EEFF"));
            ("endpoint_group_id",
             TJson (value_under endpoint_group_id ise_groups (JStr "Unknown")));
            ("ise_groups", TGroups ise_groups)]
    /\ (hashable endpoint_group_id = false ->
        value_under endpoint_group_id ise_groups (JStr "Unknown") = JStr "Unknown").
Proof.
  apply (search_ise_group_name w_ise_absent 1 "AABB.CCDD.EEFF" []).
  vm_compute. reflexivity.
Defined.
